(** * edge-ai-suites: image synchronizer, bootstrap scripts, classroom UI

    Shallow embedding of
    - [ImageSync.hpp] (robotics-ai-suite, yolov8 object detection),
    - the [setup.sh] scripts of the smart-route-planning-agent and of the
      smart-traffic-intersection-agent (metro-ai-suite),
    - [uiSlice], [Header.tsx] and [UploadFilesModal.tsx] of the
      smart-classroom UI (education-ai-suite),
    and the properties checked against them. *)

From stdpp Require Import gmap strings list.
From Stdlib Require Import ZArith Lia Ascii.

Local Open Scope Z_scope.

(** ** Part 1: [ImageSync.hpp] *)

Module ImageSync.

(** *** Machine integers

    [u_int64_t], [u_int32_t] and [long] (64 bit, two's complement) are
    integers of [Z] reduced explicitly. Arithmetic on [long] wraps around
    as the compiled code does (the language leaves signed overflow
    undefined); no timestamp built from an [int32] second count and a
    [uint32] nanosecond count gets there. *)

Definition wrap_u64 (z : Z) : Z := z mod 2 ^ 64.
Definition wrap_u32 (z : Z) : Z := z mod 2 ^ 32.

(** [static_cast<long>(x)] and the result of [long] arithmetic. *)
Definition to_long (z : Z) : Z := (z + 2 ^ 63) mod 2 ^ 64 - 2 ^ 63.

Definition long_sub (a b : Z) : Z := to_long (a - b).

(** [std::abs<long>]. *)
Definition long_abs (a : Z) : Z := to_long (Z.abs a).

(** [u_int64_t acceptable_synchronization_error_nanoseconds = 1e9 * 0.01;]
    The product of the two double literals is the double 10000000.0,
    converted to [u_int64_t]. *)
Definition acceptable_synchronization_error_nanoseconds : Z := 10000000.

(** *** Images

    Of [sensor_msgs::msg::Image] the synchronizer reads [header.stamp]
    only ([int32 sec], [uint32 nanosec]); [frame] stands for the rest of
    the message. A [SharedPtr] is an [option Image], [None] being the
    null pointer. *)

Record Image := {
  stamp_sec : Z;
  stamp_nanosec : Z;
  frame : Z
}.

#[global] Instance Image_eq_dec : EqDecision Image.
Proof. solve_decision. Defined.

(** *** Double precision

    [round_to_double z] is the double nearest to the integer [z] (IEEE
    754 binary64, round to nearest, ties to even): an integer of
    magnitude below 2^53 is a double; a larger one is rounded to a
    multiple of [2 ^ (Z.log2 |z| - 52)], the spacing of the doubles
    around it. *)
Definition round_to_double (z : Z) : Z :=
  let m := Z.abs z in
  let ulp := 2 ^ (Z.log2 m - 52) in
  let q := m / ulp in
  let r := m mod ulp in
  Z.sgn z * (if Z.log2 m <=? 52 then m
             else if 2 * r <? ulp then q * ulp
             else if ulp <? 2 * r then (q + 1) * ulp
             else if Z.even q then q * ulp
             else (q + 1) * ulp).

(** The value of [header.stamp] as a count of nanoseconds. *)
Definition header_nanoseconds (msg : Image) : Z :=
  stamp_nanosec msg + stamp_sec msg * 1000000000.

(** [u_int64_t nanoseconds = msg->header.stamp.nanosec +
    msg->header.stamp.sec * 1e9;] The literal [1e9] is a double, so both
    operations are carried out in double precision: the product of an
    [int32] and 1e9 is a double (its odd part is below 2^53), the
    [uint32] nanosecond count is a double, and their sum is rounded to
    the nearest double. The conversion to [u_int64_t] then finds an
    integer; for a negative one (a stamp before the epoch), where the
    language leaves the conversion undefined, it wraps around. For a
    present-day stamp (about 1.7e18 ns) the doubles are 256 apart. *)
Definition stamp_nanoseconds (msg : Image) : Z :=
  wrap_u64 (round_to_double (header_nanoseconds msg)).

(** The stamps a message can carry without the conversion being
    undefined: [sec] a non-negative [int32], [nanosec] a [uint32]. *)
Definition valid_stamp (msg : Image) : Prop :=
  0 <= stamp_sec msg < 2 ^ 31 ∧ 0 <= stamp_nanosec msg < 2 ^ 32.

(** *** The priority queues

    [std::priority_queue<value_type, std::vector<value_type>, MyComparator>]
    with [MyComparator a b = a.first > b.first]. A queue is the vector
    it is built on, a binary heap with an entry of least timestamp at
    the front: [top] is the head of the list, [push] is [push_back]
    followed by [std::push_heap], [pop] is [std::pop_heap] followed by
    [pop_back]. The two heap functions are as the GNU C++ library has
    them; the order in which entries of equal timestamp reach the top
    is theirs. *)

Definition value_type : Type := Z * Z.

(** [__push_heap(first, holeIndex, 0, value, comp)]: the hole goes up
    while the parent's timestamp is greater than that of [value]. The
    hole at least halves each time, so [fuel = holeIndex] lets the loop
    run to its end. *)
Fixpoint push_heap (fuel : nat) (c : list value_type) (holeIndex : nat)
    (value : value_type) : list value_type :=
  match fuel with
  | O => <[holeIndex := value]> c
  | S fuel' =>
      let parent := ((holeIndex - 1) / 2)%nat in
      match c !! parent with
      | Some p =>
          if (0 <? holeIndex)%nat && (value.1 <? p.1)
          then push_heap fuel' (<[holeIndex := p]> c) parent value
          else <[holeIndex := value]> c
      | None => <[holeIndex := value]> c
      end
  end.

(** The [while] loop of [__adjust_heap(first, holeIndex, len, value,
    comp)]: the hole goes down, the child of lesser timestamp moving up
    each time, the right one when the two are equal. *)
Fixpoint sink_hole (fuel : nat) (c : list value_type) (len holeIndex : nat)
  : list value_type * nat :=
  match fuel with
  | O => (c, holeIndex)
  | S fuel' =>
      if (holeIndex <? (len - 1) / 2)%nat then
        let secondChild := (2 * (holeIndex + 1))%nat in
        match c !! secondChild, c !! (secondChild - 1)%nat with
        | Some right_child, Some left_child =>
            if left_child.1 <? right_child.1
            then sink_hole fuel' (<[holeIndex := left_child]> c) len (secondChild - 1)
            else sink_hole fuel' (<[holeIndex := right_child]> c) len secondChild
        | _, _ => (c, holeIndex)
        end
      else (c, holeIndex)
  end.

(** [__adjust_heap(first, 0, len, value, comp)]: the loop, the step to
    an only child when [len] is even, and [__push_heap] from where the
    hole has come to. *)
Definition adjust_heap (c : list value_type) (len : nat) (value : value_type)
  : list value_type :=
  let '(c, holeIndex) := sink_hole len c len 0 in
  let '(c, holeIndex) :=
    if Nat.even len && (holeIndex =? (len - 2) / 2)%nat then
      let secondChild := (2 * (holeIndex + 1))%nat in
      match c !! (secondChild - 1)%nat with
      | Some left_child => (<[holeIndex := left_child]> c, (secondChild - 1)%nat)
      | None => (c, holeIndex)
      end
    else (c, holeIndex) in
  push_heap holeIndex c holeIndex value.

(** [push]. *)
Definition pq_push (x : value_type) (q : list value_type) : list value_type :=
  push_heap (length q) (q ++ [x]) (length q) x.

(** [pop], of a queue that is not empty: [std::pop_heap] does nothing
    to a single entry; else it takes the last entry out as [value], puts
    the top in its place and calls [__adjust_heap] on the entries before
    it; [pop_back] then removes the former top. *)
Definition pq_pop (q : list value_type) : list value_type :=
  match q with
  | [] => []
  | top :: rest =>
      match last rest with
      | None => []
      | Some value => adjust_heap (take (length rest) q) (length rest) value
      end
  end.

(** *** State of an [ImageSync] object

    [log] records what the object does to its surroundings, oldest
    first: the invocations of [callback] and the lines written to
    [std::cout]. *)

Inductive Event :=
| Paired (rgb depth : option Image)
| MemoryLeakWarning.

Record State := {
  counter : Z;
  rgb_map : gmap Z Image;
  depth_map : gmap Z Image;
  queue_rgb : list value_type;
  queue_depth : list value_type;
  log : list Event
}.

Definition init : State := {|
  counter := 0;
  rgb_map := ∅;
  depth_map := ∅;
  queue_rgb := [];
  queue_depth := [];
  log := []
|}.

(** The test of the [if] inside the loop: the [long] on the left is
    converted to [u_int64_t] for the comparison. *)
Definition within_tolerance (t_rgb t_depth : Z) : bool :=
  wrap_u64 (long_abs (long_sub (to_long t_rgb) (to_long t_depth)))
    <? acceptable_synchronization_error_nanoseconds.

(** One iteration of the [while] loop of [resolve]; [None] when the loop
    condition is false. [rgb_map[k]] on an absent key yields a null
    pointer (the entry it creates is erased by the next statement). *)
Definition resolve_step (s : State) : option State :=
  match queue_rgb s, queue_depth s with
  | (t_rgb, k_rgb) :: _, (t_depth, k_depth) :: _ =>
      if within_tolerance t_rgb t_depth then
        Some {| counter := counter s;
                rgb_map := delete k_rgb (rgb_map s);
                depth_map := delete k_depth (depth_map s);
                queue_rgb := pq_pop (queue_rgb s);
                queue_depth := pq_pop (queue_depth s);
                log := log s ++ [Paired (rgb_map s !! k_rgb) (depth_map s !! k_depth)] |}
      else if t_rgb <? t_depth then
        Some {| counter := counter s;
                rgb_map := delete k_rgb (rgb_map s);
                depth_map := depth_map s;
                queue_rgb := pq_pop (queue_rgb s);
                queue_depth := queue_depth s;
                log := log s |}
      else
        Some {| counter := counter s;
                rgb_map := rgb_map s;
                depth_map := delete k_depth (depth_map s);
                queue_rgb := queue_rgb s;
                queue_depth := pq_pop (queue_depth s);
                log := log s |}
  | _, _ => None
  end.

Fixpoint resolve_loop (fuel : nat) (s : State) : State :=
  match fuel with
  | O => s
  | S fuel' =>
      match resolve_step s with
      | Some s' => resolve_loop fuel' s'
      | None => s
      end
  end.

(** The diagnostic at the head of [resolve]. *)
Definition leak_check (s : State) : State :=
  if (1000 <? Z.of_nat (size (rgb_map s))) || (1000 <? Z.of_nat (size (depth_map s)))
  then {| counter := counter s; rgb_map := rgb_map s; depth_map := depth_map s;
          queue_rgb := queue_rgb s; queue_depth := queue_depth s;
          log := log s ++ [MemoryLeakWarning] |}
  else s.

(** The [while] loop run to its end: every iteration pops at least one
    entry, so it runs at most as many times as the two queues hold
    entries ([resolve_exits]). *)
Definition while_loop (s : State) : State :=
  resolve_loop (length (queue_rgb s) + length (queue_depth s)) s.

Definition resolve (s : State) : State := while_loop (leak_check s).

(** The critical sections of [callback_rgb] and [callback_depth]: the
    message is stored under the current counter, the queue entry pushed
    and the counter incremented. *)
Definition store_rgb (msg : Image) (s : State) : State :=
  let nanoseconds := stamp_nanoseconds msg in
  {| counter := wrap_u32 (counter s + 1);
     rgb_map := <[counter s := msg]> (rgb_map s);
     depth_map := depth_map s;
     queue_rgb := pq_push (nanoseconds, counter s) (queue_rgb s);
     queue_depth := queue_depth s;
     log := log s |}.

Definition store_depth (msg : Image) (s : State) : State :=
  let nanoseconds := stamp_nanoseconds msg in
  {| counter := wrap_u32 (counter s + 1);
     rgb_map := rgb_map s;
     depth_map := <[counter s := msg]> (depth_map s);
     queue_rgb := queue_rgb s;
     queue_depth := pq_push (nanoseconds, counter s) (queue_depth s);
     log := log s |}.

Definition callback_rgb (msg : Image) (s : State) : State :=
  resolve (store_rgb msg s).

Definition callback_depth (msg : Image) (s : State) : State :=
  resolve (store_depth msg s).

(** A sequence of ingest operations on a fresh object. *)
Inductive Ingest :=
| Rgb (msg : Image)
| Depth (msg : Image).

Definition ingest (s : State) (op : Ingest) : State :=
  match op with
  | Rgb msg => callback_rgb msg s
  | Depth msg => callback_depth msg s
  end.

(** The state an ingest is in when it calls [resolve]. *)
Definition stored (s : State) (op : Ingest) : State :=
  match op with
  | Rgb msg => store_rgb msg s
  | Depth msg => store_depth msg s
  end.

Definition valid_ingest (op : Ingest) : Prop :=
  match op with
  | Rgb msg => valid_stamp msg
  | Depth msg => valid_stamp msg
  end.

Definition run (ops : list Ingest) : State := fold_left ingest ops init.

(** The sequence counters held by a queue. *)
Definition seqs (q : list value_type) : list Z := q.*2.

(** Queues and maps agree: per stream the counters in the queue are
    the keys of the map, and all of them lie below [counter]. *)
Definition consistent (s : State) : Prop :=
  (list_to_set (seqs (queue_rgb s)) : gset Z) = dom (rgb_map s) ∧
  (list_to_set (seqs (queue_depth s)) : gset Z) = dom (depth_map s) ∧
  (∀ k, k ∈ seqs (queue_rgb s) → k < counter s) ∧
  (∀ k, k ∈ seqs (queue_depth s) → k < counter s).

(** The invariant behind [consistent], for an object that has ingested
    [n] frames: in addition no counter occurs twice in a queue. *)
Definition stream_inv (n : Z) (q : list value_type) (m : gmap Z Image) : Prop :=
  NoDup (seqs q) ∧
  (∀ k, k ∈ seqs q ↔ k ∈ dom m) ∧
  (∀ k, k ∈ seqs q → 0 <= k < n).

Definition Inv (n : Z) (s : State) : Prop :=
  counter s = n ∧
  stream_inv n (queue_rgb s) (rgb_map s) ∧
  stream_inv n (queue_depth s) (depth_map s).

(** *** Sample frames and traces *)

Definition color0 : Image := {| stamp_sec := 0; stamp_nanosec := 0; frame := 1 |}.
Definition depth_5ms : Image := {| stamp_sec := 0; stamp_nanosec := 5000000; frame := 2 |}.
Definition depth_10ms : Image := {| stamp_sec := 0; stamp_nanosec := 10000000; frame := 3 |}.
Definition depth_15ms : Image := {| stamp_sec := 0; stamp_nanosec := 15000000; frame := 4 |}.
Definition color_1s : Image := {| stamp_sec := 1; stamp_nanosec := 0; frame := 5 |}.
Definition depth0 : Image := {| stamp_sec := 0; stamp_nanosec := 0; frame := 6 |}.

(** Frames stamped in November 2023, where the doubles are 256 ns
    apart: a colour and a depth frame whose stamps differ by exactly
    10 ms, and a pair whose stamps differ by 9999999 ns. *)
Definition color_2023 : Image :=
  {| stamp_sec := 1700000000; stamp_nanosec := 0; frame := 7 |}.
Definition depth_2023_10ms : Image :=
  {| stamp_sec := 1700000000; stamp_nanosec := 10000000; frame := 8 |}.
Definition color_2023_127ns : Image :=
  {| stamp_sec := 1700000000; stamp_nanosec := 127; frame := 9 |}.
Definition depth_2023_10000126ns : Image :=
  {| stamp_sec := 1700000000; stamp_nanosec := 10000126; frame := 10 |}.

(** Frames that carry the same stamp. *)
Definition same_stamp (n : Z) : Image :=
  {| stamp_sec := 0; stamp_nanosec := 0; frame := n |}.

(** Both queues hold one entry, the heads are 5 ms apart. *)
Definition heads_5ms : State := {|
  counter := 2;
  rgb_map := {[ 0 := color0 ]};
  depth_map := {[ 1 := depth_5ms ]};
  queue_rgb := [(0, 0)];
  queue_depth := [(5000000, 1)];
  log := []
|}.

(** A colour frame stamped one second ahead, then 2^32 - 1 depth frames
    stamped zero: every depth frame is the older head and is dropped on
    arrival, the colour frame stays queued. *)
Definition stalled_ops : list Ingest :=
  Rgb color_1s :: repeat (Depth depth0) (Z.to_nat 4294967295).

(** The state that trace is in when [counter] has the value [c]. *)
Definition stalled (c : Z) : State := {|
  counter := c;
  rgb_map := {[ 0 := color_1s ]};
  depth_map := ∅;
  queue_rgb := [(1000000000, 0)];
  queue_depth := [];
  log := []
|}.

(** *** Further invariants of a run

    [entries_stored seen mk q m]: every entry of the queue [q] carries
    the counter of an image stored in [m], the timestamp of that image,
    and the image is one of the frames ingested so far ([seen]) on that
    stream. [log_sound seen lg]: every callback invocation in [lg] was
    handed two stored frames of [seen] whose timestamps pass the test of
    the loop. *)
Definition entries_stored (seen : list Ingest) (mk : Image → Ingest)
    (q : list value_type) (m : gmap Z Image) : Prop :=
  ∀ t k, (t, k) ∈ q →
    ∃ img, m !! k = Some img ∧ stamp_nanoseconds img = t ∧ mk img ∈ seen.

Definition event_sound (seen : list Ingest) (e : Event) : Prop :=
  e = MemoryLeakWarning
  ∨ ∃ color depth,
      e = Paired (Some color) (Some depth)
      ∧ Rgb color ∈ seen ∧ Depth depth ∈ seen
      ∧ within_tolerance (stamp_nanoseconds color) (stamp_nanoseconds depth) = true.

Definition log_sound (seen : list Ingest) (lg : list Event) : Prop :=
  ∀ e, e ∈ lg → event_sound seen e.

(** The callback invocations in a log, and the frames of each stream in
    a sequence of ingests. *)
Definition is_paired (e : Event) : bool :=
  match e with
  | Paired _ _ => true
  | MemoryLeakWarning => false
  end.

Definition pairs (lg : list Event) : nat := length (filter is_paired lg).

Definition is_rgb (op : Ingest) : bool :=
  match op with
  | Rgb _ => true
  | Depth _ => false
  end.

Definition rgb_count (ops : list Ingest) : nat := length (filter is_rgb ops).
Definition depth_count (ops : list Ingest) : nat :=
  length (filter (λ op, negb (is_rgb op)) ops).

End ImageSync.

(** ** Part 2: the [setup.sh] bootstrap scripts *)

Module Bootstrap.

(** *** The shell

    The scripts are sourced: they act on the variables of the invoking
    shell. [vars] maps the set variables to their values, [exported]
    holds the names marked for export. The text written by [echo], the
    working directory and the containers are not part of the model;
    what the external commands answer is collected in [Host]. *)

Record Shell := {
  vars : gmap string string;
  exported : gset string
}.

Definition Cmd : Type := Shell → Shell.

(** [$x]: the value, empty when unset. *)
Definition value (sh : Shell) (x : string) : string := default "" (vars sh !! x).

(** [${x:-d}]: [d] when [x] is unset or null. *)
Definition or_default (d : string) (o : option string) : string :=
  match o with
  | Some v => if String.eqb v "" then d else v
  | None => d
  end.

Definition value_or (sh : Shell) (x d : string) : string :=
  or_default d (vars sh !! x).

Definition lit (v : string) : Shell → string := λ _, v.

(** [x=e] and [export x=e]. *)
Definition assign (x : string) (e : Shell → string) : Cmd := λ sh,
  {| vars := <[x := e sh]> (vars sh); exported := exported sh |}.

Definition export (x : string) (e : Shell → string) : Cmd := λ sh,
  {| vars := <[x := e sh]> (vars sh); exported := {[x]} ∪ exported sh |}.

(** [export x=${x:-d}]. *)
Definition export_default (x d : string) : Cmd := export x (λ sh, value_or sh x d).

(** [if c; then cmd; fi] and [c && cmd]. *)
Definition when (c : Shell → bool) (cmd : Cmd) : Cmd := λ sh,
  if c sh then cmd sh else sh.

Definition run_cmds (cmds : list Cmd) : Cmd := λ sh,
  fold_left (λ s cmd, cmd s) cmds sh.

(** [${s%/}]: [s] without one trailing slash. *)
Fixpoint strip_slash (s : string) : string :=
  match s with
  | EmptyString => EmptyString
  | String c s' =>
      match s' with
      | EmptyString => if Ascii.eqb c "/"%char then EmptyString else s
      | String _ _ => String c (strip_slash s')
      end
  end.

(** [[[ $hay == *"${needle}"* ]]]. *)
Fixpoint contains (needle hay : string) : bool :=
  String.prefix needle hay
  || match hay with
     | EmptyString => false
     | String _ hay' => contains needle hay'
     end.

(** [[[ -n "$s" ]]]. *)
Definition nonempty (s : string) : bool := negb (String.eqb s "").

(** Does [s] hold two slashes in a row? *)
Fixpoint has_double_slash (s : string) : bool :=
  match s with
  | EmptyString => false
  | String c s' =>
      match s' with
      | EmptyString => false
      | String c' _ => (Ascii.eqb c "/"%char && Ascii.eqb c' "/"%char) || has_double_slash s'
      end
  end.

Definition starts_with_slash (s : string) : bool :=
  match s with
  | String c _ => Ascii.eqb c "/"%char
  | EmptyString => false
  end.

Fixpoint ends_with_slash (s : string) : bool :=
  match s with
  | EmptyString => false
  | String c s' =>
      match s' with
      | EmptyString => Ascii.eqb c "/"%char
      | String _ _ => ends_with_slash s'
      end
  end.

(** What a command does to one variable: [acts x f cmd] when the value
    of [x] after [cmd] is [f] of its value before, whatever the rest of
    the shell holds; [cmd_mono cmd] when [cmd] unexports nothing. *)
Definition acts (x : string) (f : option string → option string) (cmd : Cmd) : Prop :=
  ∀ sh, vars (cmd sh) !! x = f (vars sh !! x).

Definition cmd_mono (cmd : Cmd) : Prop :=
  ∀ sh, exported sh ⊆ exported (cmd sh).

(** Answers of the host the scripts run on. *)
Record Host := {
  ip_route_output : string;     (* ip route get 1 | awk '{print $7}' *)
  id_g_output : string;         (* id -g *)
  video_gid_output : string;    (* getent group video | awk ... || echo "44" *)
  render_gid_output : string;   (* getent group render | awk ... || echo "109" *)
  docker_available : bool;      (* check_docker_compose *)
  prerequisites_ok : bool;      (* check_and_setup_prerequisites *)
  build_ok : bool;              (* docker compose build / up -d --build *)
  up_ok : bool;                 (* docker compose up -d *)
  down_ok : bool;               (* docker compose down *)
  restart_ok : bool             (* restart_service *)
}.

Definition colour_codes : list Cmd := [
  assign "RED" (lit "\033[0;31m");
  assign "GREEN" (lit "\033[0;32m");
  assign "YELLOW" (lit "\033[0;33m");
  assign "BLUE" (lit "\033[0;34m");
  assign "NC" (lit "\033[0m")
].

(** What both scripts leave in [HOST_IP]: the address [ip route]
    reports, or the fallback when it reports none. *)
Definition detected_ip (h : Host) : string :=
  if nonempty (ip_route_output h) then ip_route_output h else "127.0.0.1".

(** *** smart-route-planning-agent/setup.sh *)

Module RoutePlanning.

(** Lines 82-95: [REGISTRY] from [REGISTRY_URL] and [PROJECT_NAME]. *)
Definition compose_registry (registry_url project_name : string) : string :=
  if nonempty registry_url && nonempty project_name then
    strip_slash registry_url +:+ "/" +:+ strip_slash project_name +:+ "/"
  else if nonempty registry_url then
    strip_slash registry_url +:+ "/"
  else if nonempty project_name then
    strip_slash project_name +:+ "/"
  else
    "".

(** Lines 7-17. *)
Definition preamble : list Cmd :=
  colour_codes ++ [
  assign "SOURCE" (lit "src");
  assign "SECRETS_DIR" (λ sh, value sh "SOURCE" +:+ "/secrets");
  assign "DOCKER_DIR" (lit "docker");
  assign "COMPOSE_MAIN" (λ sh, value sh "DOCKER_DIR" +:+ "/compose.yaml")
].

(** Lines 68-111. *)
Definition exports (h : Host) : list Cmd := [
  export "HOST_IP" (lit (ip_route_output h));
  when (λ sh, negb (nonempty (value sh "HOST_IP")))
       (export "HOST_IP" (lit "127.0.0.1"));
  when (λ sh, negb (contains (value sh "HOST_IP") (value sh "no_proxy")))
       (export "no_proxy" (λ sh, value sh "no_proxy" +:+ "," +:+ value sh "HOST_IP"));
  export_default "TAG" "latest";
  export_default "REGISTRY_URL" "intel";
  export_default "PROJECT_NAME" "";
  export "REGISTRY"
         (λ sh, compose_registry (value sh "REGISTRY_URL") (value sh "PROJECT_NAME"));
  export_default "TRAFFIC_BUFFER_DURATION" "60";
  export_default "LOG_LEVEL" "INFO";
  export_default "DATA_RETENTION_HOURS" "24";
  export_default "HEALTH_CHECK_INTERVAL" "30s";
  export_default "HEALTH_CHECK_TIMEOUT" "10s";
  export_default "HEALTH_CHECK_RETRIES" "3";
  export_default "HEALTH_CHECK_START_PERIOD" "10s";
  export_default "AI_ROUTE_PLANNER_PORT" "7864";
  export_default "AI_ROUTE_PLANNER_DIR" "ai-route-planner"
].

(** The variables the script gives a default, with the default. *)
Definition defaults : list (string * string) := [
  ("TAG", "latest");
  ("REGISTRY_URL", "intel");
  ("PROJECT_NAME", "");
  ("TRAFFIC_BUFFER_DURATION", "60");
  ("LOG_LEVEL", "INFO");
  ("DATA_RETENTION_HOURS", "24");
  ("HEALTH_CHECK_INTERVAL", "30s");
  ("HEALTH_CHECK_TIMEOUT", "10s");
  ("HEALTH_CHECK_RETRIES", "3");
  ("HEALTH_CHECK_START_PERIOD", "10s");
  ("AI_ROUTE_PLANNER_PORT", "7864");
  ("AI_ROUTE_PLANNER_DIR", "ai-route-planner")
].

(** Lines 53-64: the invocations that get past the argument checks. *)
Definition reaches_exports (args : list string) : bool :=
  match args with
  | [verb] => negb (String.eqb verb "help")
  | _ => false
  end.

(** Lines 150-207: the return status of the commands after the exports. *)
Definition dispatch (verb : string) (h : Host) : Z :=
  if negb (docker_available h) then 1
  else if String.eqb verb "setup" then
    if build_ok h then (if up_ok h then 0 else 1) else 1
  else if String.eqb verb "build" then (if build_ok h then 0 else 1)
  else if String.eqb verb "up" then (if up_ok h then 0 else 1)
  else if String.eqb verb "down" then (if down_ok h then 0 else 1)
  else if String.eqb verb "restart" then
    if down_ok h then (if up_ok h then 0 else 1) else 1
  else 1.

(** The whole script: return status and resulting shell. *)
Definition setup (args : list string) (h : Host) (sh : Shell) : Z * Shell :=
  let sh := run_cmds preamble sh in
  match args with
  | [] => (0, sh)
  | verb :: rest =>
      if String.eqb verb "help" then (0, sh)
      else if (1 <? length args)%nat then (1, sh)
      else (dispatch verb h, run_cmds (exports h) sh)
  end.

End RoutePlanning.

(** *** smart-traffic-intersection-agent/setup.sh *)

Module Intersection.

Definition known_option (o : string) : bool :=
  String.eqb o "--help" || String.eqb o "--setenv" || String.eqb o "--run"
  || String.eqb o "--setup" || String.eqb o "--restart" || String.eqb o "--stop"
  || String.eqb o "--clean".

(** Lines 14-47: the invocations turned away by the argument checks,
    with their return status. *)
Definition rejected (args : list string) : option Z :=
  match args with
  | [] => Some 0
  | [o] => if String.eqb o "--help" then Some 0
           else if negb (known_option o) then Some 1 else None
  | [o; target] =>
      if negb (known_option o) then Some 1
      else if String.eqb o "--restart"
              && negb (String.eqb target "agent")
              && negb (String.eqb target "prerequisite") then Some 1
      else None
  | _ => Some 1
  end.

(** Line 239: the verbs that skip the prerequisites. *)
Definition skips_prerequisites (o : string) : bool :=
  String.eqb o "--stop" || String.eqb o "--clean" || String.eqb o "--help"
  || String.eqb o "--restart".

(** Lines 125-130. *)
Definition host_ip (h : Host) : list Cmd := [
  export "HOST_IP" (lit (ip_route_output h));
  when (λ sh, negb (nonempty (value sh "HOST_IP")))
       (export "HOST_IP" (lit "127.0.0.1"))
].

(** Lines 252-285. *)
Definition exports_before_gpu (h : Host) : list Cmd := [
  export_default "TAG" "latest";
  export_default "REGISTRY" "";
  export_default "TRAFFIC_INTELLIGENCE_PORT" "8081";
  export_default "TRAFFIC_INTELLIGENCE_UI_PORT" "7860";
  export_default "REFRESH_INTERVAL" "15";
  export "USER_GROUP_ID" (lit (id_g_output h));
  export "VIDEO_GROUP_ID" (lit (video_gid_output h));
  export "RENDER_GROUP_ID" (lit (render_gid_output h));
  export_default "TRAFFIC_BUFFER_DURATION" "60";
  export_default "LOG_LEVEL" "INFO";
  export_default "DATA_RETENTION_HOURS" "24";
  export_default "VLM_SERVICE_PORT" "9764";
  export_default "VLM_MODEL_NAME" "microsoft/Phi-3.5-vision-instruct";
  export_default "VLM_TIMEOUT_SECONDS" "300";
  export_default "VLM_MAX_COMPLETION_TOKENS" "1500";
  export_default "VLM_TEMPERATURE" "0.1";
  export_default "VLM_TOP_P" "0.1";
  export_default "VLM_DEVICE" "CPU";
  export_default "VLM_COMPRESSION_WEIGHT_FORMAT" "int8";
  export_default "VLM_SEED" "42";
  export_default "VLM_WORKERS" "1";
  export_default "VLM_LOG_LEVEL" "info";
  export_default "VLM_ACCESS_LOG_FILE" "/dev/null"
].

(** Lines 287-291. *)
Definition gpu_adjustment : Cmd :=
  when (λ sh, String.eqb (value sh "VLM_DEVICE") "GPU")
       (run_cmds [ export "VLM_COMPRESSION_WEIGHT_FORMAT" (lit "int4");
                   export "VLM_WORKERS" (lit "1") ]).

(** Lines 293-300. *)
Definition exports_after_gpu : list Cmd := [
  export_default "HEALTH_CHECK_INTERVAL" "30s";
  export_default "HEALTH_CHECK_TIMEOUT" "10s";
  export_default "HEALTH_CHECK_RETRIES" "3";
  export_default "HEALTH_CHECK_START_PERIOD" "10s";
  export "no_proxy_env" (λ sh, value sh "no_proxy")
].

Definition exports (h : Host) : list Cmd :=
  exports_before_gpu h ++ [gpu_adjustment] ++ exports_after_gpu.

(** The variables the script gives a default, with the default. *)
Definition defaults : list (string * string) := [
  ("TAG", "latest");
  ("REGISTRY", "");
  ("TRAFFIC_INTELLIGENCE_PORT", "8081");
  ("TRAFFIC_INTELLIGENCE_UI_PORT", "7860");
  ("REFRESH_INTERVAL", "15");
  ("TRAFFIC_BUFFER_DURATION", "60");
  ("LOG_LEVEL", "INFO");
  ("DATA_RETENTION_HOURS", "24");
  ("VLM_SERVICE_PORT", "9764");
  ("VLM_MODEL_NAME", "microsoft/Phi-3.5-vision-instruct");
  ("VLM_TIMEOUT_SECONDS", "300");
  ("VLM_MAX_COMPLETION_TOKENS", "1500");
  ("VLM_TEMPERATURE", "0.1");
  ("VLM_TOP_P", "0.1");
  ("VLM_DEVICE", "CPU");
  ("VLM_COMPRESSION_WEIGHT_FORMAT", "int8");
  ("VLM_SEED", "42");
  ("VLM_WORKERS", "1");
  ("VLM_LOG_LEVEL", "info");
  ("VLM_ACCESS_LOG_FILE", "/dev/null");
  ("HEALTH_CHECK_INTERVAL", "30s");
  ("HEALTH_CHECK_TIMEOUT", "10s");
  ("HEALTH_CHECK_RETRIES", "3");
  ("HEALTH_CHECK_START_PERIOD", "10s")
].

(** The two variables line 287-291 overwrite on a GPU. *)
Definition gpu_forced (x : string) : bool :=
  String.eqb x "VLM_COMPRESSION_WEIGHT_FORMAT" || String.eqb x "VLM_WORKERS".

(** The invocations that run the export section. *)
Definition reaches_exports (args : list string) (h : Host) : bool :=
  match rejected args, args with
  | None, o :: _ =>
      negb (String.eqb o "--stop") && negb (String.eqb o "--clean")
      && (skips_prerequisites o || prerequisites_ok h)
  | _, _ => false
  end.

(** Lines 492-516: the return status of the commands after the exports. *)
Definition dispatch (o : string) (h : Host) : Z :=
  if String.eqb o "--setenv" then 0
  else if String.eqb o "--setup" then (if build_ok h then 0 else 1)
  else if String.eqb o "--restart" then (if restart_ok h then 0 else 1)
  else (if up_ok h then 0 else 1).

(** The whole script: return status and resulting shell. *)
Definition setup (args : list string) (h : Host) (sh : Shell) : Z * Shell :=
  let sh := run_cmds colour_codes sh in
  match rejected args, args with
  | Some status, _ => (status, sh)
  | None, [] => (0, sh)
  | None, o :: _ =>
      if String.eqb o "--stop" then
        (if down_ok h then 0 else 1,
         if down_ok h then assign "EDGE_AI_SUITES_DIR" (lit "edge-ai-suites") sh else sh)
      else if String.eqb o "--clean" then
        (0, assign "EDGE_AI_SUITES_DIR" (lit "edge-ai-suites") sh)
      else
        let sh := run_cmds (host_ip h) sh in
        if negb (skips_prerequisites o) && negb (prerequisites_ok h) then (1, sh)
        else (dispatch o h, run_cmds (exports h) sh)
  end.

End Intersection.

(** *** The container entrypoint of the intersection agent

    The script sets the configuration of the two services and starts
    them in the background; the processes themselves, [trap] and [wait]
    are not part of the model. *)

Module Entrypoint.

(** Lines 7-9. *)
Definition colour_codes : list Cmd := [
  assign "GREEN" (lit "\033[0;32m");
  assign "YELLOW" (lit "\033[1;33m");
  assign "NC" (lit "\033[0m")
].

(** Lines 15-19. *)
Definition configuration : list Cmd := [
  export_default "TRAFFIC_INTERSECTION_AGENT_PORT" "8081";
  export_default "TRAFFIC_INTERSECTION_AGENT_HOST" "0.0.0.0";
  export_default "TRAFFIC_INTERSECTION_AGENT_UI_PORT" "7860";
  export_default "USE_API" "true";
  export "API_URL"
         (λ sh, value_or sh "API_URL"
                  ("http://localhost:" +:+ value sh "TRAFFIC_INTERSECTION_AGENT_PORT"
                   +:+ "/api/v1/traffic/current"))
].

(** Lines 40-49: [$!] after each of the two background commands. *)
Definition start_services (backend_pid ui_pid : string) : list Cmd := [
  assign "BACKEND_PID" (lit backend_pid);
  assign "UI_PID" (lit ui_pid)
].

Definition entrypoint (backend_pid ui_pid : string) : Cmd :=
  run_cmds (colour_codes ++ configuration ++ start_services backend_pid ui_pid).

End Entrypoint.

(** *** Sample shells and hosts *)

Definition fresh_shell : Shell := {| vars := ∅; exported := ∅ |}.

Definition sample_host : Host := {|
  ip_route_output := "192.168.1.20";
  id_g_output := "1000";
  video_gid_output := "44";
  render_gid_output := "109";
  docker_available := true;
  prerequisites_ok := true;
  build_ok := true;
  up_ok := true;
  down_ok := true;
  restart_ok := true
|}.

(** A shell in which the operator has set [x] to [v]. *)
Definition shell_with (x v : string) : Shell :=
  {| vars := {[ x := v ]}; exported := {[ x ]} |}.

(** The operator asks for eight workers on a GPU. *)
Definition gpu_shell : Shell :=
  {| vars := {[ "VLM_DEVICE" := "GPU"; "VLM_WORKERS" := "8" ]};
     exported := {[ "VLM_DEVICE"; "VLM_WORKERS" ]} |}.

End Bootstrap.

(** ** Part 3: the smart-classroom UI *)

Module UI.

(** *** JavaScript values

    A JS string is held as the bytes of its UTF-8 encoding; [null] of a
    nullable field is [None]. A test for emptiness, a comparison and a
    search for an ASCII text give the same on the bytes as on the UTF-16
    code units of the string.

    [String.prototype.trim] removes the white space and the line
    terminators at both ends: U+0009 to U+000D and U+0020, which are one
    byte each; U+00A0, two bytes; U+1680, U+2000 to U+200A, U+2028,
    U+2029, U+202F, U+205F, U+3000 and U+FEFF, three bytes each. *)

Definition is_space (c : ascii) : bool :=
  let n := nat_of_ascii c in
  Nat.eqb n 32 || (Nat.leb 9 n && Nat.leb n 13).

Definition byte_is (c : ascii) (n : nat) : bool := Nat.eqb (nat_of_ascii c) n.

(** U+00A0 is C2 A0. *)
Definition is_space2 (c1 c2 : ascii) : bool :=
  byte_is c1 194 && byte_is c2 160.

(** U+1680 is E1 9A 80; U+2000 to U+200A are E2 80 80 to E2 80 8A;
    U+2028, U+2029 and U+202F are E2 80 A8, E2 80 A9 and E2 80 AF;
    U+205F is E2 81 9F; U+3000 is E3 80 80; U+FEFF is EF BB BF. *)
Definition is_space3 (c1 c2 c3 : ascii) : bool :=
  let n3 := nat_of_ascii c3 in
  (byte_is c1 225 && byte_is c2 154 && byte_is c3 128)
  || (byte_is c1 226 && byte_is c2 128
      && ((Nat.leb 128 n3 && Nat.leb n3 138)
          || byte_is c3 168 || byte_is c3 169 || byte_is c3 175))
  || (byte_is c1 226 && byte_is c2 129 && byte_is c3 159)
  || (byte_is c1 227 && byte_is c2 128 && byte_is c3 128)
  || (byte_is c1 239 && byte_is c2 187 && byte_is c3 191).

Fixpoint trim_start (s : string) : string :=
  match s with
  | EmptyString => EmptyString
  | String c1 s1 =>
      if is_space c1 then trim_start s1
      else
        match s1 with
        | EmptyString => s
        | String c2 s2 =>
            if is_space2 c1 c2 then trim_start s2
            else
              match s2 with
              | EmptyString => s
              | String c3 s3 => if is_space3 c1 c2 c3 then trim_start s3 else s
              end
        end
  end.

(** What is left of [s] when its longest suffix of white space is cut
    off: the cut is at the first position from which on there is white
    space only. *)
Fixpoint trim_end (s : string) : string :=
  match s with
  | EmptyString => EmptyString
  | String c s' =>
      if String.eqb (trim_start s) "" then EmptyString else String c (trim_end s')
  end.

Definition trim (s : string) : string := trim_end (trim_start s).

(** U+00A0, the no-break space, and U+3000, the ideographic space. *)
Definition nbsp : string := String "194" (String "160" "").
Definition ideographic_space : string := String "227" (String "128" (String "128" "")).

(** Truthiness of a string and of a nullable string or number. *)
Definition truthy (s : string) : bool := negb (String.eqb s "").

Definition truthy_opt (o : option string) : bool :=
  match o with
  | Some s => truthy s
  | None => false
  end.

Definition truthy_num (o : option Z) : bool :=
  match o with
  | Some n => negb (n =? 0)
  | None => false
  end.

(** [o === 'lit'] for a nullable string. *)
Definition is_string (o : option string) (lit : string) : bool :=
  match o with
  | Some s => String.eqb s lit
  | None => false
  end.

(** [s.endsWith(suffix)]. *)
Definition endsWith (s suffix : string) : bool :=
  (String.length suffix <=? String.length s)%nat
  && String.eqb (String.substring (String.length s - String.length suffix)
                           (String.length suffix) s) suffix.

(** *** [uiSlice]: the state *)

Module Tab.
Inductive t := transcripts | summary | mindmap.
End Tab.

Module ProcessingMode.
Inductive t := audio | video_only | microphone.
End ProcessingMode.

Module AudioStatus.
Inductive t :=
| idle | checking | ready | recording | processing | transcribing
| summarizing | mindmapping | complete | error | no_devices.
End AudioStatus.

Module VideoStatus.
Inductive t :=
| idle | ready | starting | streaming | stopping | failed | complete | no_config.
End VideoStatus.

Module Stream.
Inductive t := front | back | content | all.
End Stream.

Record UIState := {
  aiProcessing : bool;
  summaryEnabled : bool;
  summaryLoading : bool;
  mindmapEnabled : bool;
  mindmapLoading : bool;
  activeTab : Tab.t;
  autoSwitched : bool;
  autoSwitchedToMindmap : bool;
  sessionId : option string;
  videoSessionId : option string;
  uploadedAudioPath : option string;
  shouldStartSummary : bool;
  shouldStartMindmap : bool;
  projectLocation : string;
  frontCamera : string;
  backCamera : string;
  boardCamera : string;
  frontCameraStream : string;
  backCameraStream : string;
  boardCameraStream : string;
  activeStream : option Stream.t;
  videoAnalyticsLoading : bool;
  videoAnalyticsActive : bool;
  processingMode : option ProcessingMode.t;
  audioStatus : AudioStatus.t;
  videoStatus : VideoStatus.t;
  hasAudioDevices : bool;
  audioDevicesLoading : bool;
  isRecording : bool;
  justStoppedRecording : bool;
  videoAnalyticsStopping : bool;
  hasUploadedVideoFiles : bool
}.

(** Assignment to one field of a record: [s <| f := v |>]. *)
Class Setter {S T : Type} (proj : S → T) := setter : T → S → S.

Notation "s <| f := v |>" := (setter (proj:=f) v s)
  (at level 1, left associativity, f at level 0, v at level 200).

#[global] Instance set_aiProcessing : Setter aiProcessing := λ v s,
    Build_UIState v (summaryEnabled s) (summaryLoading s) (mindmapEnabled s)
      (mindmapLoading s) (activeTab s) (autoSwitched s)
      (autoSwitchedToMindmap s) (sessionId s) (videoSessionId s)
      (uploadedAudioPath s) (shouldStartSummary s) (shouldStartMindmap s)
      (projectLocation s) (frontCamera s) (backCamera s) (boardCamera s)
      (frontCameraStream s) (backCameraStream s) (boardCameraStream s)
      (activeStream s) (videoAnalyticsLoading s) (videoAnalyticsActive s)
      (processingMode s) (audioStatus s) (videoStatus s) (hasAudioDevices s)
      (audioDevicesLoading s) (isRecording s) (justStoppedRecording s)
      (videoAnalyticsStopping s) (hasUploadedVideoFiles s).

#[global] Instance set_summaryEnabled : Setter summaryEnabled := λ v s,
    Build_UIState (aiProcessing s) v (summaryLoading s) (mindmapEnabled s)
      (mindmapLoading s) (activeTab s) (autoSwitched s)
      (autoSwitchedToMindmap s) (sessionId s) (videoSessionId s)
      (uploadedAudioPath s) (shouldStartSummary s) (shouldStartMindmap s)
      (projectLocation s) (frontCamera s) (backCamera s) (boardCamera s)
      (frontCameraStream s) (backCameraStream s) (boardCameraStream s)
      (activeStream s) (videoAnalyticsLoading s) (videoAnalyticsActive s)
      (processingMode s) (audioStatus s) (videoStatus s) (hasAudioDevices s)
      (audioDevicesLoading s) (isRecording s) (justStoppedRecording s)
      (videoAnalyticsStopping s) (hasUploadedVideoFiles s).

#[global] Instance set_summaryLoading : Setter summaryLoading := λ v s,
    Build_UIState (aiProcessing s) (summaryEnabled s) v (mindmapEnabled s)
      (mindmapLoading s) (activeTab s) (autoSwitched s)
      (autoSwitchedToMindmap s) (sessionId s) (videoSessionId s)
      (uploadedAudioPath s) (shouldStartSummary s) (shouldStartMindmap s)
      (projectLocation s) (frontCamera s) (backCamera s) (boardCamera s)
      (frontCameraStream s) (backCameraStream s) (boardCameraStream s)
      (activeStream s) (videoAnalyticsLoading s) (videoAnalyticsActive s)
      (processingMode s) (audioStatus s) (videoStatus s) (hasAudioDevices s)
      (audioDevicesLoading s) (isRecording s) (justStoppedRecording s)
      (videoAnalyticsStopping s) (hasUploadedVideoFiles s).

#[global] Instance set_mindmapEnabled : Setter mindmapEnabled := λ v s,
    Build_UIState (aiProcessing s) (summaryEnabled s) (summaryLoading s) v
      (mindmapLoading s) (activeTab s) (autoSwitched s)
      (autoSwitchedToMindmap s) (sessionId s) (videoSessionId s)
      (uploadedAudioPath s) (shouldStartSummary s) (shouldStartMindmap s)
      (projectLocation s) (frontCamera s) (backCamera s) (boardCamera s)
      (frontCameraStream s) (backCameraStream s) (boardCameraStream s)
      (activeStream s) (videoAnalyticsLoading s) (videoAnalyticsActive s)
      (processingMode s) (audioStatus s) (videoStatus s) (hasAudioDevices s)
      (audioDevicesLoading s) (isRecording s) (justStoppedRecording s)
      (videoAnalyticsStopping s) (hasUploadedVideoFiles s).

#[global] Instance set_mindmapLoading : Setter mindmapLoading := λ v s,
    Build_UIState (aiProcessing s) (summaryEnabled s) (summaryLoading s)
      (mindmapEnabled s) v (activeTab s) (autoSwitched s)
      (autoSwitchedToMindmap s) (sessionId s) (videoSessionId s)
      (uploadedAudioPath s) (shouldStartSummary s) (shouldStartMindmap s)
      (projectLocation s) (frontCamera s) (backCamera s) (boardCamera s)
      (frontCameraStream s) (backCameraStream s) (boardCameraStream s)
      (activeStream s) (videoAnalyticsLoading s) (videoAnalyticsActive s)
      (processingMode s) (audioStatus s) (videoStatus s) (hasAudioDevices s)
      (audioDevicesLoading s) (isRecording s) (justStoppedRecording s)
      (videoAnalyticsStopping s) (hasUploadedVideoFiles s).

#[global] Instance set_activeTab : Setter activeTab := λ v s,
    Build_UIState (aiProcessing s) (summaryEnabled s) (summaryLoading s)
      (mindmapEnabled s) (mindmapLoading s) v (autoSwitched s)
      (autoSwitchedToMindmap s) (sessionId s) (videoSessionId s)
      (uploadedAudioPath s) (shouldStartSummary s) (shouldStartMindmap s)
      (projectLocation s) (frontCamera s) (backCamera s) (boardCamera s)
      (frontCameraStream s) (backCameraStream s) (boardCameraStream s)
      (activeStream s) (videoAnalyticsLoading s) (videoAnalyticsActive s)
      (processingMode s) (audioStatus s) (videoStatus s) (hasAudioDevices s)
      (audioDevicesLoading s) (isRecording s) (justStoppedRecording s)
      (videoAnalyticsStopping s) (hasUploadedVideoFiles s).

#[global] Instance set_autoSwitched : Setter autoSwitched := λ v s,
    Build_UIState (aiProcessing s) (summaryEnabled s) (summaryLoading s)
      (mindmapEnabled s) (mindmapLoading s) (activeTab s) v
      (autoSwitchedToMindmap s) (sessionId s) (videoSessionId s)
      (uploadedAudioPath s) (shouldStartSummary s) (shouldStartMindmap s)
      (projectLocation s) (frontCamera s) (backCamera s) (boardCamera s)
      (frontCameraStream s) (backCameraStream s) (boardCameraStream s)
      (activeStream s) (videoAnalyticsLoading s) (videoAnalyticsActive s)
      (processingMode s) (audioStatus s) (videoStatus s) (hasAudioDevices s)
      (audioDevicesLoading s) (isRecording s) (justStoppedRecording s)
      (videoAnalyticsStopping s) (hasUploadedVideoFiles s).

#[global] Instance set_autoSwitchedToMindmap : Setter autoSwitchedToMindmap := λ v s,
    Build_UIState (aiProcessing s) (summaryEnabled s) (summaryLoading s)
      (mindmapEnabled s) (mindmapLoading s) (activeTab s) (autoSwitched s) v
      (sessionId s) (videoSessionId s) (uploadedAudioPath s)
      (shouldStartSummary s) (shouldStartMindmap s) (projectLocation s)
      (frontCamera s) (backCamera s) (boardCamera s) (frontCameraStream s)
      (backCameraStream s) (boardCameraStream s) (activeStream s)
      (videoAnalyticsLoading s) (videoAnalyticsActive s) (processingMode s)
      (audioStatus s) (videoStatus s) (hasAudioDevices s)
      (audioDevicesLoading s) (isRecording s) (justStoppedRecording s)
      (videoAnalyticsStopping s) (hasUploadedVideoFiles s).

#[global] Instance set_sessionId : Setter sessionId := λ v s,
    Build_UIState (aiProcessing s) (summaryEnabled s) (summaryLoading s)
      (mindmapEnabled s) (mindmapLoading s) (activeTab s) (autoSwitched s)
      (autoSwitchedToMindmap s) v (videoSessionId s) (uploadedAudioPath s)
      (shouldStartSummary s) (shouldStartMindmap s) (projectLocation s)
      (frontCamera s) (backCamera s) (boardCamera s) (frontCameraStream s)
      (backCameraStream s) (boardCameraStream s) (activeStream s)
      (videoAnalyticsLoading s) (videoAnalyticsActive s) (processingMode s)
      (audioStatus s) (videoStatus s) (hasAudioDevices s)
      (audioDevicesLoading s) (isRecording s) (justStoppedRecording s)
      (videoAnalyticsStopping s) (hasUploadedVideoFiles s).

#[global] Instance set_videoSessionId : Setter videoSessionId := λ v s,
    Build_UIState (aiProcessing s) (summaryEnabled s) (summaryLoading s)
      (mindmapEnabled s) (mindmapLoading s) (activeTab s) (autoSwitched s)
      (autoSwitchedToMindmap s) (sessionId s) v (uploadedAudioPath s)
      (shouldStartSummary s) (shouldStartMindmap s) (projectLocation s)
      (frontCamera s) (backCamera s) (boardCamera s) (frontCameraStream s)
      (backCameraStream s) (boardCameraStream s) (activeStream s)
      (videoAnalyticsLoading s) (videoAnalyticsActive s) (processingMode s)
      (audioStatus s) (videoStatus s) (hasAudioDevices s)
      (audioDevicesLoading s) (isRecording s) (justStoppedRecording s)
      (videoAnalyticsStopping s) (hasUploadedVideoFiles s).

#[global] Instance set_uploadedAudioPath : Setter uploadedAudioPath := λ v s,
    Build_UIState (aiProcessing s) (summaryEnabled s) (summaryLoading s)
      (mindmapEnabled s) (mindmapLoading s) (activeTab s) (autoSwitched s)
      (autoSwitchedToMindmap s) (sessionId s) (videoSessionId s) v
      (shouldStartSummary s) (shouldStartMindmap s) (projectLocation s)
      (frontCamera s) (backCamera s) (boardCamera s) (frontCameraStream s)
      (backCameraStream s) (boardCameraStream s) (activeStream s)
      (videoAnalyticsLoading s) (videoAnalyticsActive s) (processingMode s)
      (audioStatus s) (videoStatus s) (hasAudioDevices s)
      (audioDevicesLoading s) (isRecording s) (justStoppedRecording s)
      (videoAnalyticsStopping s) (hasUploadedVideoFiles s).

#[global] Instance set_shouldStartSummary : Setter shouldStartSummary := λ v s,
    Build_UIState (aiProcessing s) (summaryEnabled s) (summaryLoading s)
      (mindmapEnabled s) (mindmapLoading s) (activeTab s) (autoSwitched s)
      (autoSwitchedToMindmap s) (sessionId s) (videoSessionId s)
      (uploadedAudioPath s) v (shouldStartMindmap s) (projectLocation s)
      (frontCamera s) (backCamera s) (boardCamera s) (frontCameraStream s)
      (backCameraStream s) (boardCameraStream s) (activeStream s)
      (videoAnalyticsLoading s) (videoAnalyticsActive s) (processingMode s)
      (audioStatus s) (videoStatus s) (hasAudioDevices s)
      (audioDevicesLoading s) (isRecording s) (justStoppedRecording s)
      (videoAnalyticsStopping s) (hasUploadedVideoFiles s).

#[global] Instance set_shouldStartMindmap : Setter shouldStartMindmap := λ v s,
    Build_UIState (aiProcessing s) (summaryEnabled s) (summaryLoading s)
      (mindmapEnabled s) (mindmapLoading s) (activeTab s) (autoSwitched s)
      (autoSwitchedToMindmap s) (sessionId s) (videoSessionId s)
      (uploadedAudioPath s) (shouldStartSummary s) v (projectLocation s)
      (frontCamera s) (backCamera s) (boardCamera s) (frontCameraStream s)
      (backCameraStream s) (boardCameraStream s) (activeStream s)
      (videoAnalyticsLoading s) (videoAnalyticsActive s) (processingMode s)
      (audioStatus s) (videoStatus s) (hasAudioDevices s)
      (audioDevicesLoading s) (isRecording s) (justStoppedRecording s)
      (videoAnalyticsStopping s) (hasUploadedVideoFiles s).

#[global] Instance set_projectLocation : Setter projectLocation := λ v s,
    Build_UIState (aiProcessing s) (summaryEnabled s) (summaryLoading s)
      (mindmapEnabled s) (mindmapLoading s) (activeTab s) (autoSwitched s)
      (autoSwitchedToMindmap s) (sessionId s) (videoSessionId s)
      (uploadedAudioPath s) (shouldStartSummary s) (shouldStartMindmap s) v
      (frontCamera s) (backCamera s) (boardCamera s) (frontCameraStream s)
      (backCameraStream s) (boardCameraStream s) (activeStream s)
      (videoAnalyticsLoading s) (videoAnalyticsActive s) (processingMode s)
      (audioStatus s) (videoStatus s) (hasAudioDevices s)
      (audioDevicesLoading s) (isRecording s) (justStoppedRecording s)
      (videoAnalyticsStopping s) (hasUploadedVideoFiles s).

#[global] Instance set_frontCamera : Setter frontCamera := λ v s,
    Build_UIState (aiProcessing s) (summaryEnabled s) (summaryLoading s)
      (mindmapEnabled s) (mindmapLoading s) (activeTab s) (autoSwitched s)
      (autoSwitchedToMindmap s) (sessionId s) (videoSessionId s)
      (uploadedAudioPath s) (shouldStartSummary s) (shouldStartMindmap s)
      (projectLocation s) v (backCamera s) (boardCamera s)
      (frontCameraStream s) (backCameraStream s) (boardCameraStream s)
      (activeStream s) (videoAnalyticsLoading s) (videoAnalyticsActive s)
      (processingMode s) (audioStatus s) (videoStatus s) (hasAudioDevices s)
      (audioDevicesLoading s) (isRecording s) (justStoppedRecording s)
      (videoAnalyticsStopping s) (hasUploadedVideoFiles s).

#[global] Instance set_backCamera : Setter backCamera := λ v s,
    Build_UIState (aiProcessing s) (summaryEnabled s) (summaryLoading s)
      (mindmapEnabled s) (mindmapLoading s) (activeTab s) (autoSwitched s)
      (autoSwitchedToMindmap s) (sessionId s) (videoSessionId s)
      (uploadedAudioPath s) (shouldStartSummary s) (shouldStartMindmap s)
      (projectLocation s) (frontCamera s) v (boardCamera s)
      (frontCameraStream s) (backCameraStream s) (boardCameraStream s)
      (activeStream s) (videoAnalyticsLoading s) (videoAnalyticsActive s)
      (processingMode s) (audioStatus s) (videoStatus s) (hasAudioDevices s)
      (audioDevicesLoading s) (isRecording s) (justStoppedRecording s)
      (videoAnalyticsStopping s) (hasUploadedVideoFiles s).

#[global] Instance set_boardCamera : Setter boardCamera := λ v s,
    Build_UIState (aiProcessing s) (summaryEnabled s) (summaryLoading s)
      (mindmapEnabled s) (mindmapLoading s) (activeTab s) (autoSwitched s)
      (autoSwitchedToMindmap s) (sessionId s) (videoSessionId s)
      (uploadedAudioPath s) (shouldStartSummary s) (shouldStartMindmap s)
      (projectLocation s) (frontCamera s) (backCamera s) v
      (frontCameraStream s) (backCameraStream s) (boardCameraStream s)
      (activeStream s) (videoAnalyticsLoading s) (videoAnalyticsActive s)
      (processingMode s) (audioStatus s) (videoStatus s) (hasAudioDevices s)
      (audioDevicesLoading s) (isRecording s) (justStoppedRecording s)
      (videoAnalyticsStopping s) (hasUploadedVideoFiles s).

#[global] Instance set_frontCameraStream : Setter frontCameraStream := λ v s,
    Build_UIState (aiProcessing s) (summaryEnabled s) (summaryLoading s)
      (mindmapEnabled s) (mindmapLoading s) (activeTab s) (autoSwitched s)
      (autoSwitchedToMindmap s) (sessionId s) (videoSessionId s)
      (uploadedAudioPath s) (shouldStartSummary s) (shouldStartMindmap s)
      (projectLocation s) (frontCamera s) (backCamera s) (boardCamera s) v
      (backCameraStream s) (boardCameraStream s) (activeStream s)
      (videoAnalyticsLoading s) (videoAnalyticsActive s) (processingMode s)
      (audioStatus s) (videoStatus s) (hasAudioDevices s)
      (audioDevicesLoading s) (isRecording s) (justStoppedRecording s)
      (videoAnalyticsStopping s) (hasUploadedVideoFiles s).

#[global] Instance set_backCameraStream : Setter backCameraStream := λ v s,
    Build_UIState (aiProcessing s) (summaryEnabled s) (summaryLoading s)
      (mindmapEnabled s) (mindmapLoading s) (activeTab s) (autoSwitched s)
      (autoSwitchedToMindmap s) (sessionId s) (videoSessionId s)
      (uploadedAudioPath s) (shouldStartSummary s) (shouldStartMindmap s)
      (projectLocation s) (frontCamera s) (backCamera s) (boardCamera s)
      (frontCameraStream s) v (boardCameraStream s) (activeStream s)
      (videoAnalyticsLoading s) (videoAnalyticsActive s) (processingMode s)
      (audioStatus s) (videoStatus s) (hasAudioDevices s)
      (audioDevicesLoading s) (isRecording s) (justStoppedRecording s)
      (videoAnalyticsStopping s) (hasUploadedVideoFiles s).

#[global] Instance set_boardCameraStream : Setter boardCameraStream := λ v s,
    Build_UIState (aiProcessing s) (summaryEnabled s) (summaryLoading s)
      (mindmapEnabled s) (mindmapLoading s) (activeTab s) (autoSwitched s)
      (autoSwitchedToMindmap s) (sessionId s) (videoSessionId s)
      (uploadedAudioPath s) (shouldStartSummary s) (shouldStartMindmap s)
      (projectLocation s) (frontCamera s) (backCamera s) (boardCamera s)
      (frontCameraStream s) (backCameraStream s) v (activeStream s)
      (videoAnalyticsLoading s) (videoAnalyticsActive s) (processingMode s)
      (audioStatus s) (videoStatus s) (hasAudioDevices s)
      (audioDevicesLoading s) (isRecording s) (justStoppedRecording s)
      (videoAnalyticsStopping s) (hasUploadedVideoFiles s).

#[global] Instance set_activeStream : Setter activeStream := λ v s,
    Build_UIState (aiProcessing s) (summaryEnabled s) (summaryLoading s)
      (mindmapEnabled s) (mindmapLoading s) (activeTab s) (autoSwitched s)
      (autoSwitchedToMindmap s) (sessionId s) (videoSessionId s)
      (uploadedAudioPath s) (shouldStartSummary s) (shouldStartMindmap s)
      (projectLocation s) (frontCamera s) (backCamera s) (boardCamera s)
      (frontCameraStream s) (backCameraStream s) (boardCameraStream s) v
      (videoAnalyticsLoading s) (videoAnalyticsActive s) (processingMode s)
      (audioStatus s) (videoStatus s) (hasAudioDevices s)
      (audioDevicesLoading s) (isRecording s) (justStoppedRecording s)
      (videoAnalyticsStopping s) (hasUploadedVideoFiles s).

#[global] Instance set_videoAnalyticsLoading : Setter videoAnalyticsLoading := λ v s,
    Build_UIState (aiProcessing s) (summaryEnabled s) (summaryLoading s)
      (mindmapEnabled s) (mindmapLoading s) (activeTab s) (autoSwitched s)
      (autoSwitchedToMindmap s) (sessionId s) (videoSessionId s)
      (uploadedAudioPath s) (shouldStartSummary s) (shouldStartMindmap s)
      (projectLocation s) (frontCamera s) (backCamera s) (boardCamera s)
      (frontCameraStream s) (backCameraStream s) (boardCameraStream s)
      (activeStream s) v (videoAnalyticsActive s) (processingMode s)
      (audioStatus s) (videoStatus s) (hasAudioDevices s)
      (audioDevicesLoading s) (isRecording s) (justStoppedRecording s)
      (videoAnalyticsStopping s) (hasUploadedVideoFiles s).

#[global] Instance set_videoAnalyticsActive : Setter videoAnalyticsActive := λ v s,
    Build_UIState (aiProcessing s) (summaryEnabled s) (summaryLoading s)
      (mindmapEnabled s) (mindmapLoading s) (activeTab s) (autoSwitched s)
      (autoSwitchedToMindmap s) (sessionId s) (videoSessionId s)
      (uploadedAudioPath s) (shouldStartSummary s) (shouldStartMindmap s)
      (projectLocation s) (frontCamera s) (backCamera s) (boardCamera s)
      (frontCameraStream s) (backCameraStream s) (boardCameraStream s)
      (activeStream s) (videoAnalyticsLoading s) v (processingMode s)
      (audioStatus s) (videoStatus s) (hasAudioDevices s)
      (audioDevicesLoading s) (isRecording s) (justStoppedRecording s)
      (videoAnalyticsStopping s) (hasUploadedVideoFiles s).

#[global] Instance set_processingMode : Setter processingMode := λ v s,
    Build_UIState (aiProcessing s) (summaryEnabled s) (summaryLoading s)
      (mindmapEnabled s) (mindmapLoading s) (activeTab s) (autoSwitched s)
      (autoSwitchedToMindmap s) (sessionId s) (videoSessionId s)
      (uploadedAudioPath s) (shouldStartSummary s) (shouldStartMindmap s)
      (projectLocation s) (frontCamera s) (backCamera s) (boardCamera s)
      (frontCameraStream s) (backCameraStream s) (boardCameraStream s)
      (activeStream s) (videoAnalyticsLoading s) (videoAnalyticsActive s) v
      (audioStatus s) (videoStatus s) (hasAudioDevices s)
      (audioDevicesLoading s) (isRecording s) (justStoppedRecording s)
      (videoAnalyticsStopping s) (hasUploadedVideoFiles s).

#[global] Instance set_audioStatus : Setter audioStatus := λ v s,
    Build_UIState (aiProcessing s) (summaryEnabled s) (summaryLoading s)
      (mindmapEnabled s) (mindmapLoading s) (activeTab s) (autoSwitched s)
      (autoSwitchedToMindmap s) (sessionId s) (videoSessionId s)
      (uploadedAudioPath s) (shouldStartSummary s) (shouldStartMindmap s)
      (projectLocation s) (frontCamera s) (backCamera s) (boardCamera s)
      (frontCameraStream s) (backCameraStream s) (boardCameraStream s)
      (activeStream s) (videoAnalyticsLoading s) (videoAnalyticsActive s)
      (processingMode s) v (videoStatus s) (hasAudioDevices s)
      (audioDevicesLoading s) (isRecording s) (justStoppedRecording s)
      (videoAnalyticsStopping s) (hasUploadedVideoFiles s).

#[global] Instance set_videoStatus : Setter videoStatus := λ v s,
    Build_UIState (aiProcessing s) (summaryEnabled s) (summaryLoading s)
      (mindmapEnabled s) (mindmapLoading s) (activeTab s) (autoSwitched s)
      (autoSwitchedToMindmap s) (sessionId s) (videoSessionId s)
      (uploadedAudioPath s) (shouldStartSummary s) (shouldStartMindmap s)
      (projectLocation s) (frontCamera s) (backCamera s) (boardCamera s)
      (frontCameraStream s) (backCameraStream s) (boardCameraStream s)
      (activeStream s) (videoAnalyticsLoading s) (videoAnalyticsActive s)
      (processingMode s) (audioStatus s) v (hasAudioDevices s)
      (audioDevicesLoading s) (isRecording s) (justStoppedRecording s)
      (videoAnalyticsStopping s) (hasUploadedVideoFiles s).

#[global] Instance set_hasAudioDevices : Setter hasAudioDevices := λ v s,
    Build_UIState (aiProcessing s) (summaryEnabled s) (summaryLoading s)
      (mindmapEnabled s) (mindmapLoading s) (activeTab s) (autoSwitched s)
      (autoSwitchedToMindmap s) (sessionId s) (videoSessionId s)
      (uploadedAudioPath s) (shouldStartSummary s) (shouldStartMindmap s)
      (projectLocation s) (frontCamera s) (backCamera s) (boardCamera s)
      (frontCameraStream s) (backCameraStream s) (boardCameraStream s)
      (activeStream s) (videoAnalyticsLoading s) (videoAnalyticsActive s)
      (processingMode s) (audioStatus s) (videoStatus s) v
      (audioDevicesLoading s) (isRecording s) (justStoppedRecording s)
      (videoAnalyticsStopping s) (hasUploadedVideoFiles s).

#[global] Instance set_audioDevicesLoading : Setter audioDevicesLoading := λ v s,
    Build_UIState (aiProcessing s) (summaryEnabled s) (summaryLoading s)
      (mindmapEnabled s) (mindmapLoading s) (activeTab s) (autoSwitched s)
      (autoSwitchedToMindmap s) (sessionId s) (videoSessionId s)
      (uploadedAudioPath s) (shouldStartSummary s) (shouldStartMindmap s)
      (projectLocation s) (frontCamera s) (backCamera s) (boardCamera s)
      (frontCameraStream s) (backCameraStream s) (boardCameraStream s)
      (activeStream s) (videoAnalyticsLoading s) (videoAnalyticsActive s)
      (processingMode s) (audioStatus s) (videoStatus s) (hasAudioDevices s)
      v (isRecording s) (justStoppedRecording s) (videoAnalyticsStopping s)
      (hasUploadedVideoFiles s).

#[global] Instance set_isRecording : Setter isRecording := λ v s,
    Build_UIState (aiProcessing s) (summaryEnabled s) (summaryLoading s)
      (mindmapEnabled s) (mindmapLoading s) (activeTab s) (autoSwitched s)
      (autoSwitchedToMindmap s) (sessionId s) (videoSessionId s)
      (uploadedAudioPath s) (shouldStartSummary s) (shouldStartMindmap s)
      (projectLocation s) (frontCamera s) (backCamera s) (boardCamera s)
      (frontCameraStream s) (backCameraStream s) (boardCameraStream s)
      (activeStream s) (videoAnalyticsLoading s) (videoAnalyticsActive s)
      (processingMode s) (audioStatus s) (videoStatus s) (hasAudioDevices s)
      (audioDevicesLoading s) v (justStoppedRecording s)
      (videoAnalyticsStopping s) (hasUploadedVideoFiles s).

#[global] Instance set_justStoppedRecording : Setter justStoppedRecording := λ v s,
    Build_UIState (aiProcessing s) (summaryEnabled s) (summaryLoading s)
      (mindmapEnabled s) (mindmapLoading s) (activeTab s) (autoSwitched s)
      (autoSwitchedToMindmap s) (sessionId s) (videoSessionId s)
      (uploadedAudioPath s) (shouldStartSummary s) (shouldStartMindmap s)
      (projectLocation s) (frontCamera s) (backCamera s) (boardCamera s)
      (frontCameraStream s) (backCameraStream s) (boardCameraStream s)
      (activeStream s) (videoAnalyticsLoading s) (videoAnalyticsActive s)
      (processingMode s) (audioStatus s) (videoStatus s) (hasAudioDevices s)
      (audioDevicesLoading s) (isRecording s) v (videoAnalyticsStopping s)
      (hasUploadedVideoFiles s).

#[global] Instance set_videoAnalyticsStopping : Setter videoAnalyticsStopping := λ v s,
    Build_UIState (aiProcessing s) (summaryEnabled s) (summaryLoading s)
      (mindmapEnabled s) (mindmapLoading s) (activeTab s) (autoSwitched s)
      (autoSwitchedToMindmap s) (sessionId s) (videoSessionId s)
      (uploadedAudioPath s) (shouldStartSummary s) (shouldStartMindmap s)
      (projectLocation s) (frontCamera s) (backCamera s) (boardCamera s)
      (frontCameraStream s) (backCameraStream s) (boardCameraStream s)
      (activeStream s) (videoAnalyticsLoading s) (videoAnalyticsActive s)
      (processingMode s) (audioStatus s) (videoStatus s) (hasAudioDevices s)
      (audioDevicesLoading s) (isRecording s) (justStoppedRecording s) v
      (hasUploadedVideoFiles s).

#[global] Instance set_hasUploadedVideoFiles : Setter hasUploadedVideoFiles := λ v s,
    Build_UIState (aiProcessing s) (summaryEnabled s) (summaryLoading s)
      (mindmapEnabled s) (mindmapLoading s) (activeTab s) (autoSwitched s)
      (autoSwitchedToMindmap s) (sessionId s) (videoSessionId s)
      (uploadedAudioPath s) (shouldStartSummary s) (shouldStartMindmap s)
      (projectLocation s) (frontCamera s) (backCamera s) (boardCamera s)
      (frontCameraStream s) (backCameraStream s) (boardCameraStream s)
      (activeStream s) (videoAnalyticsLoading s) (videoAnalyticsActive s)
      (processingMode s) (audioStatus s) (videoStatus s) (hasAudioDevices s)
      (audioDevicesLoading s) (isRecording s) (justStoppedRecording s)
      (videoAnalyticsStopping s) v.

Definition initialState : UIState := {|
  aiProcessing := false;
  summaryEnabled := false;
  summaryLoading := false;
  mindmapEnabled := false;
  mindmapLoading := false;
  activeTab := Tab.transcripts;
  autoSwitched := false;
  autoSwitchedToMindmap := false;
  sessionId := None;
  videoSessionId := None;
  uploadedAudioPath := None;
  shouldStartSummary := false;
  shouldStartMindmap := false;
  projectLocation := "storage/";
  activeStream := None;
  frontCamera := "";
  backCamera := "";
  boardCamera := "";
  frontCameraStream := "";
  backCameraStream := "";
  boardCameraStream := "";
  videoAnalyticsLoading := false;
  videoAnalyticsActive := false;
  processingMode := None;
  audioStatus := AudioStatus.idle;
  videoStatus := VideoStatus.idle;
  hasAudioDevices := true;
  audioDevicesLoading := false;
  isRecording := false;
  justStoppedRecording := false;
  videoAnalyticsStopping := false;
  hasUploadedVideoFiles := false
|}.

(** *** [uiSlice]: the reducers

    A reducer assigns to the fields of the draft one after the other. *)

Definition startProcessing (state : UIState) : UIState :=
  state <| aiProcessing := true |>
        <| summaryEnabled := false |>
        <| summaryLoading := false |>
        <| mindmapEnabled := false |>
        <| mindmapLoading := false |>
        <| activeTab := Tab.transcripts |>
        <| autoSwitched := false |>
        <| autoSwitchedToMindmap := false |>
        <| sessionId := None |>
        <| uploadedAudioPath := None |>
        <| shouldStartSummary := false |>
        <| shouldStartMindmap := false |>
        <| videoAnalyticsLoading := false |>
        <| videoAnalyticsActive := false |>.

Definition processingFailed (state : UIState) : UIState :=
  state <| aiProcessing := false |>
        <| summaryLoading := false |>
        <| mindmapLoading := false |>
        <| videoAnalyticsLoading := false |>
        <| videoAnalyticsActive := false |>
        <| processingMode := None |>
        <| audioStatus := AudioStatus.error |>
        <| videoStatus := VideoStatus.failed |>
        <| isRecording := false |>
        <| videoAnalyticsStopping := false |>.

Definition transcriptionComplete (state : UIState) : UIState :=
  let state := state <| summaryEnabled := true |>
                     <| summaryLoading := true |>
                     <| shouldStartSummary := true |>
                     <| audioStatus := AudioStatus.summarizing |> in
  if negb (autoSwitched state)
  then state <| activeTab := Tab.summary |> <| autoSwitched := true |>
  else state.

Definition clearSummaryStartRequest (state : UIState) : UIState :=
  state <| shouldStartSummary := false |>.

Definition setUploadedAudioPath (payload : string) (state : UIState) : UIState :=
  let state := state <| uploadedAudioPath := Some payload |> in
  if String.eqb payload "MICROPHONE" then
    state <| audioStatus := AudioStatus.recording |>
  else if truthy payload && negb (String.eqb payload "") then
    state <| audioStatus := AudioStatus.processing |>
  else state.

Definition setSessionId (payload : option string) (state : UIState) : UIState :=
  match payload with
  | Some v =>
      if (0 <? String.length (trim v))%nat
      then state <| sessionId := Some v |>
      else state
  | None => state
  end.

Definition setVideoSessionId (payload : option string) (state : UIState) : UIState :=
  state <| videoSessionId := payload |>.

Definition setActiveStream (payload : option Stream.t) (state : UIState) : UIState :=
  state <| activeStream := payload |>.

Definition firstSummaryToken (state : UIState) : UIState :=
  state <| summaryLoading := false |>
        <| audioStatus := AudioStatus.summarizing |>.

Definition summaryDone (state : UIState) : UIState :=
  let state := state <| aiProcessing := false |>
                     <| mindmapEnabled := true |>
                     <| mindmapLoading := true |>
                     <| shouldStartMindmap := true |>
                     <| audioStatus := AudioStatus.mindmapping |> in
  if negb (autoSwitchedToMindmap state)
  then state <| activeTab := Tab.mindmap |> <| autoSwitchedToMindmap := true |>
  else state.

Definition mindmapStart (state : UIState) : UIState :=
  state <| mindmapLoading := true |>
        <| shouldStartMindmap := true |>
        <| audioStatus := AudioStatus.mindmapping |>.

Definition mindmapSuccess (state : UIState) : UIState :=
  state <| mindmapLoading := false |>
        <| shouldStartMindmap := false |>
        <| audioStatus := AudioStatus.complete |>.

Definition mindmapFailed (state : UIState) : UIState :=
  state <| mindmapLoading := false |>
        <| shouldStartMindmap := false |>
        <| audioStatus := AudioStatus.error |>.

Definition clearMindmapStartRequest (state : UIState) : UIState :=
  state <| shouldStartMindmap := false |>.

Definition setActiveTab (payload : Tab.t) (state : UIState) : UIState :=
  state <| activeTab := payload |>.

Definition setProjectLocation (payload : string) (state : UIState) : UIState :=
  state <| projectLocation := payload |>.

Definition setFrontCamera (payload : string) (state : UIState) : UIState :=
  state <| frontCamera := payload |>.

Definition setBackCamera (payload : string) (state : UIState) : UIState :=
  state <| backCamera := payload |>.

Definition setBoardCamera (payload : string) (state : UIState) : UIState :=
  state <| boardCamera := payload |>.

Definition setFrontCameraStream (payload : string) (state : UIState) : UIState :=
  state <| frontCameraStream := payload |>.

Definition setBackCameraStream (payload : string) (state : UIState) : UIState :=
  state <| backCameraStream := payload |>.

Definition setBoardCameraStream (payload : string) (state : UIState) : UIState :=
  state <| boardCameraStream := payload |>.

Definition resetStream (state : UIState) : UIState :=
  state <| activeStream := None |> <| videoStatus := VideoStatus.idle |>.

Definition startStream (state : UIState) : UIState :=
  state <| activeStream := Some Stream.all |>
        <| videoStatus := VideoStatus.streaming |>.

Definition stopStream (state : UIState) : UIState :=
  state <| activeStream := None |> <| videoStatus := VideoStatus.complete |>.

Definition setVideoAnalyticsLoading (payload : bool) (state : UIState) : UIState :=
  let state := state <| videoAnalyticsLoading := payload |> in
  if payload then state <| videoStatus := VideoStatus.starting |> else state.

Definition setVideoAnalyticsActive (payload : bool) (state : UIState) : UIState :=
  let state := state <| videoAnalyticsActive := payload |> in
  if payload then
    state <| videoStatus := VideoStatus.streaming |>
          <| videoAnalyticsLoading := false |>
  else if negb (videoAnalyticsLoading state) then
    state <| videoStatus := VideoStatus.ready |>
  else state.

Definition setProcessingMode (payload : option ProcessingMode.t) (state : UIState)
  : UIState :=
  state <| processingMode := payload |>.

(** The three arguments are what [localStorage.getItem] returns. *)
Definition loadCameraSettingsFromStorage
    (storedFront storedBack storedBoard : option string) (state : UIState) : UIState :=
  let state := if truthy_opt storedFront
               then state <| frontCamera := default "" storedFront |> else state in
  let state := if truthy_opt storedBack
               then state <| backCamera := default "" storedBack |> else state in
  let state := if truthy_opt storedBoard
               then state <| boardCamera := default "" storedBoard |> else state in
  let hasVideoConfig :=
    truthy_opt (trim <$> storedFront) || truthy_opt (trim <$> storedBack)
    || truthy_opt (trim <$> storedBoard) in
  state <| videoStatus := if hasVideoConfig then VideoStatus.ready
                          else VideoStatus.no_config |>.

Definition setAudioStatus (payload : AudioStatus.t) (state : UIState) : UIState :=
  state <| audioStatus := payload |>.

Definition setVideoStatus (payload : VideoStatus.t) (state : UIState) : UIState :=
  state <| videoStatus := payload |>.

Definition setHasAudioDevices (payload : bool) (state : UIState) : UIState :=
  state <| hasAudioDevices := payload |>
        <| audioStatus := if payload then AudioStatus.ready
                          else AudioStatus.no_devices |>.

Definition setAudioDevicesLoading (payload : bool) (state : UIState) : UIState :=
  let state := state <| audioDevicesLoading := payload |> in
  if payload then state <| audioStatus := AudioStatus.checking |> else state.

Definition setIsRecording (payload : bool) (state : UIState) : UIState :=
  let state := state <| isRecording := payload |> in
  if payload then
    let state := state <| justStoppedRecording := false |> in
    let state := if hasAudioDevices state
                 then state <| audioStatus := AudioStatus.recording |>
                 else state in
    match videoStatus state with
    | VideoStatus.ready => state <| videoStatus := VideoStatus.starting |>
    | _ => state
    end
  else state <| justStoppedRecording := true |>.

Definition setJustStoppedRecording (payload : bool) (state : UIState) : UIState :=
  state <| justStoppedRecording := payload |>.

Definition setVideoAnalyticsStopping (payload : bool) (state : UIState) : UIState :=
  let state := state <| videoAnalyticsStopping := payload |> in
  if payload then state <| videoStatus := VideoStatus.stopping |> else state.

Definition startTranscription (state : UIState) : UIState :=
  state <| audioStatus := AudioStatus.transcribing |>.

Definition setHasUploadedVideoFiles (payload : bool) (state : UIState) : UIState :=
  let state := state <| hasUploadedVideoFiles := payload |> in
  match videoStatus state with
  | VideoStatus.no_config =>
      if payload then state <| videoStatus := VideoStatus.ready |> else state
  | _ => state
  end.

(** [Object.assign(state, initialState)] overwrites every field: the
    draft then is [initialState]. *)
Definition resetFlow (state : UIState) : UIState :=
  let preservedAudioDevices := hasAudioDevices state in
  let preservedAudioDevicesLoading := audioDevicesLoading state in
  let preservedFrontCamera := frontCamera state in
  let preservedBackCamera := backCamera state in
  let preservedBoardCamera := boardCamera state in
  let state := initialState in
  let state := state <| hasAudioDevices := preservedAudioDevices |>
                     <| audioDevicesLoading := preservedAudioDevicesLoading |>
                     <| frontCamera := preservedFrontCamera |>
                     <| backCamera := preservedBackCamera |>
                     <| boardCamera := preservedBoardCamera |> in
  let state :=
    state <| audioStatus :=
               if preservedAudioDevicesLoading then AudioStatus.checking
               else if preservedAudioDevices then AudioStatus.ready
               else AudioStatus.no_devices |> in
  let hasVideoConfig :=
    truthy (trim preservedFrontCamera) || truthy (trim preservedBackCamera)
    || truthy (trim preservedBoardCamera) in
  state <| videoStatus := if hasVideoConfig then VideoStatus.ready
                          else VideoStatus.no_config |>.

(** *** Event handlers

    An event handler runs against the store of the [ui] slice, the
    local state of its component (the [useState] cells), and the outside
    world. What it does to the outside is appended to [trace]: the calls
    to the backend API, the actions dispatched to the other slices
    (transcript, summary, mindmap, class statistics: not part of this
    model), the timers it sets. What the backend answers is fixed by a
    [Backend]; a rejected promise is an answer [None]. Code that runs
    later from a timer or from the transcript stream is not run. *)

Record File := { name : string }.

Record PipelineResult := {
  pipeline_name : string;
  status : string;
  hls_stream : string
}.

Inductive Task :=
| StopMonitoringLater
| FetchClassStatistics (session : string).

Inductive Effect :=
| CreateSession
| StartMonitoring (session : string)
| StopMonitoring
| StopMicrophone (session : string)
| StartVideoAnalytics (requests : list (string * string)) (session : string)
| StopVideoAnalytics (pipelines : list string) (session : string)
| UploadAudio (file : File)
| StartVideoAnalyticsPipeline (pipelines : list (string * string)) (session : string)
| StreamTranscript (audioPath session : string)
| SetTimeout (ms : Z) (task : Task)
| ClearTimeout (id : Z)
| ResetTranscript
| ResetSummary
| ClearMindmap
| OnClose.

Record Backend := {
  createSession_response : option string;
  startMonitoring_ok : bool;
  stopMonitoring_ok : bool;
  stopMicrophone_ok : bool;
  startVideoAnalytics_response : option (option (list PipelineResult));
  stopVideoAnalytics_ok : bool;
  uploadAudio_response : option string;
  startVideoAnalyticsPipeline_response : option (list PipelineResult);
  timer_id : Z
}.

Record World (L : Type) := {
  store : UIState;
  local : L;
  trace : list Effect
}.
Arguments store {L} _.
Arguments local {L} _.
Arguments trace {L} _.
Arguments Build_World {L} _ _ _.

Inductive Outcome (A : Type) :=
| Returned (a : A)
| Thrown.
Arguments Returned {A} a.
Arguments Thrown {A}.

Definition Handler (L A : Type) : Type := World L → Outcome A * World L.

#[global] Instance handler_ret L : MRet (Handler L) := λ A a w, (Returned a, w).

#[global] Instance handler_bind L : MBind (Handler L) := λ A B k m w,
  match m w with
  | (Returned a, w') => k a w'
  | (Thrown, w') => (Thrown, w')
  end.

Definition skip {L} : Handler L unit := mret ().

Definition throw {L A} : Handler L A := λ w, (Thrown, w).

(** [try { body } catch { handler }] *)
Definition try_catch {L A} (body handler : Handler L A) : Handler L A := λ w,
  match body w with
  | (Thrown, w') => handler w'
  | r => r
  end.

(** [try { body } finally { cleanup }] *)
Definition finally {L A} (body : Handler L A) (cleanup : Handler L unit)
  : Handler L A := λ w,
  let '(r, w') := body w in
  match cleanup w' with
  | (Returned _, w'') => (r, w'')
  | (Thrown, w'') => (Thrown, w'')
  end.

Definition dispatch {L} (action : UIState → UIState) : Handler L unit := λ w,
  (Returned (), Build_World (action (store w)) (local w) (trace w)).

Definition perform {L} (e : Effect) : Handler L unit := λ w,
  (Returned (), Build_World (store w) (local w) (trace w ++ [e])).

Definition set_local {L} (f : L → L) : Handler L unit := λ w,
  (Returned (), Build_World (store w) (f (local w)) (trace w)).

(** [await call], the promise being fulfilled with [response] or
    rejected. *)
Definition await {L A} (call : Effect) (response : option A) : Handler L A :=
  perform call;;
  match response with
  | Some a => mret a
  | None => throw
  end.

Definition fulfilled (ok : bool) : option unit := if ok then Some () else None.

(** [setTimeout(task, ms)]. *)
Definition setTimeout {L} (b : Backend) (ms : Z) (task : Task) : Handler L Z :=
  perform (SetTimeout ms task);; mret (timer_id b).

Fixpoint for_each {L A} (f : A → Handler L unit) (l : list A) : Handler L unit :=
  match l with
  | [] => skip
  | a :: l' => f a;; for_each f l'
  end.

(** Frame conditions on the audio status: a reducer that keeps it, a
    handler that keeps it whether it returns or throws ([hushed]), and a
    handler that returns and keeps it ([quiet]). *)
Definition keeps_audioStatus (action : UIState → UIState) : Prop :=
  ∀ s, audioStatus (action s) = audioStatus s.

Definition hushed {L A} (h : Handler L A) : Prop :=
  ∀ w, audioStatus (store (h w).2) = audioStatus (store w).

Definition quiet {L} (h : Handler L unit) : Prop :=
  ∀ w, ∃ w', h w = (Returned (), w') ∧ audioStatus (store w') = audioStatus (store w).

(** A handler run from a world in [P] ends in [Q] when it returns and
    in [E] when it throws. *)
Definition triple {L A} (P : World L → Prop) (h : Handler L A)
    (Q : A → World L → Prop) (E : World L → Prop) : Prop :=
  ∀ w, P w → match h w with
             | (Returned a, w') => Q a w'
             | (Thrown, w') => E w'
             end.

(** [t(key)] of react-i18next: the key stands for the translated text. *)
Definition t (key : string) : string := key.

(** [result.status === 'success' && result.hls_stream] *)
Definition stream_started (result : PipelineResult) : bool :=
  String.eqb (status result) "success" && truthy (hls_stream result).

(** The [switch (result.pipeline_name)] both components run on a
    started stream. *)
Definition dispatch_stream {L} (result : PipelineResult) : Handler L unit :=
  if String.eqb (pipeline_name result) "front" then
    dispatch (setFrontCameraStream (hls_stream result))
  else if String.eqb (pipeline_name result) "back" then
    dispatch (setBackCameraStream (hls_stream result))
  else if String.eqb (pipeline_name result) "content" then
    dispatch (setBoardCameraStream (hls_stream result))
  else skip.

(** *** [Header.tsx] *)

Module Header.

(** The fields of the mindmap slice the header reads. *)
Record MindmapState := {
  isLoading : bool;
  finalText : option string;
  error : option string
}.

(** The [useState] cells the recording handler reads or writes. *)
Record Local := {
  errorMsg : option string;
  timer : Z;
  videoAnalyticsEnabled : bool;
  monitoringTimer : option Z
}.

#[global] Instance set_errorMsg : Setter errorMsg := λ v l,
  Build_Local v (timer l) (videoAnalyticsEnabled l) (monitoringTimer l).
#[global] Instance set_timer : Setter timer := λ v l,
  Build_Local (errorMsg l) v (videoAnalyticsEnabled l) (monitoringTimer l).
#[global] Instance set_monitoringTimer : Setter monitoringTimer := λ v l,
  Build_Local (errorMsg l) (timer l) (videoAnalyticsEnabled l) v.

(** What a render of the component has in scope: the selected store
    fields, and the local state. The handlers close over these. *)
Record View := {
  ui : UIState;
  transcriptStatus : string;
  mindmapState : MindmapState;
  cells : Local
}.

Definition hasVideoCapability (v : View) : bool :=
  let hasCameraSettings :=
    truthy (trim (frontCamera (ui v)))
    || truthy (trim (backCamera (ui v)))
    || truthy (trim (boardCamera (ui v))) in
  hasCameraSettings || hasUploadedVideoFiles (ui v).

Definition hasNothingToRecord (v : View) : bool :=
  negb (hasAudioDevices (ui v)) && negb (hasVideoCapability v).

Definition isRecordingDisabled (v : View) : bool :=
  if isRecording (ui v) then false
  else
    audioDevicesLoading (ui v)
    || hasNothingToRecord v
    || aiProcessing (ui v)
    || String.eqb (transcriptStatus v) "streaming"
    || summaryLoading (ui v)
    || (mindmapEnabled (ui v)
        && (mindmapLoading (ui v)
            || isLoading (mindmapState v)
            || negb (truthy_opt (finalText (mindmapState v)))))
    || videoAnalyticsStopping (ui v)
    || videoAnalyticsLoading (ui v).

Definition isUploadDisabled (v : View) : bool :=
  isRecording (ui v)
  || String.eqb (transcriptStatus v) "streaming"
  || aiProcessing (ui v)
  || summaryLoading (ui v)
  || (mindmapEnabled (ui v)
      && (mindmapLoading (ui v)
          || isLoading (mindmapState v)
          || negb (truthy_opt (finalText (mindmapState v)))))
  || videoAnalyticsStopping (ui v)
  || videoAnalyticsLoading (ui v).

Definition no_video : Handler Local unit :=
  dispatch (setVideoAnalyticsLoading false);;
  dispatch (setVideoAnalyticsActive false);;
  dispatch (setVideoStatus VideoStatus.no_config).

Definition startVideoAnalyticsInBackground (b : Backend) (v : View)
    (sharedSessionId : string) : Handler Local unit :=
  if negb (videoAnalyticsEnabled (cells v)) then skip
  else
    finally
      (try_catch
         (let currentFrontCamera := frontCamera (ui v) in
          let currentBackCamera := backCamera (ui v) in
          let currentBoardCamera := boardCamera (ui v) in
          if negb (truthy (trim currentFrontCamera))
             && negb (truthy (trim currentBackCamera))
             && negb (truthy (trim currentBoardCamera))
          then no_video
          else
            let videoRequests :=
              (if truthy (trim currentFrontCamera)
               then [("front", trim currentFrontCamera)] else [])
              ++ (if truthy (trim currentBackCamera)
                  then [("back", trim currentBackCamera)] else [])
              ++ (if truthy (trim currentBoardCamera)
                  then [("content", trim currentBoardCamera)] else []) in
            if (length videoRequests =? 0)%nat then no_video
            else
              dispatch (setVideoAnalyticsLoading true);;
              dispatch (setVideoStatus VideoStatus.starting);;
              videoResult ← await (StartVideoAnalytics videoRequests sharedSessionId)
                                  (startVideoAnalytics_response b);
              match videoResult with
              | Some results =>
                  for_each (λ result,
                              if stream_started result then dispatch_stream result
                              else skip) results;;
                  if existsb stream_started results then
                    dispatch (setVideoAnalyticsActive true);;
                    dispatch (setActiveStream (Some Stream.all));;
                    dispatch (setVideoStatus VideoStatus.streaming);;
                    _ ← setTimeout b 10000 (FetchClassStatistics sharedSessionId);
                    skip
                  else
                    dispatch (setVideoAnalyticsActive false);;
                    dispatch (setVideoStatus VideoStatus.failed)
              | None => skip
              end)
         (dispatch (setVideoAnalyticsActive false);;
          dispatch (setVideoStatus VideoStatus.failed)))
      (dispatch (setVideoAnalyticsLoading false)).

(** The branch [if (next)] of [handleRecordingToggle]. *)
Definition startRecording (b : Backend) (v : View) : Handler Local unit :=
  set_local (λ l, l <| timer := 0 |>);;
  dispatch resetFlow;;
  perform ResetTranscript;;
  perform ResetSummary;;
  perform ClearMindmap;;
  dispatch (setJustStoppedRecording false);;
  (if hasAudioDevices (ui v) then
     dispatch startProcessing;;
     dispatch (setProcessingMode (Some ProcessingMode.microphone));;
     dispatch (setAudioStatus AudioStatus.recording)
   else
     dispatch (setProcessingMode (Some ProcessingMode.video_only)));;
  try_catch
    (sharedSessionId ← await CreateSession (createSession_response b);
     dispatch (setSessionId (Some sharedSessionId));;
     try_catch
       (await (StartMonitoring sharedSessionId) (fulfilled (startMonitoring_ok b));;
        timer ← setTimeout b (45 * 60 * 1000) StopMonitoringLater;
        set_local (λ l, l <| monitoringTimer := Some timer |>))
       skip;;
     (if hasAudioDevices (ui v) then
        dispatch (setUploadedAudioPath "MICROPHONE");;
        dispatch startTranscription
      else skip);;
     dispatch (setIsRecording true);;
     if hasVideoCapability v then
       startVideoAnalyticsInBackground b v sharedSessionId
     else
       dispatch (setVideoStatus VideoStatus.no_config))
    (set_local (λ l, l <| errorMsg := Some (t "errors.failedToStartRecording") |>);;
     dispatch processingFailed;;
     dispatch (setIsRecording false);;
     if truthy_num (monitoringTimer (cells v)) then
       perform (ClearTimeout (default 0 (monitoringTimer (cells v))));;
       set_local (λ l, l <| monitoringTimer := None |>);;
       try_catch (await StopMonitoring (fulfilled (stopMonitoring_ok b))) skip
     else skip).

Definition clear_streams : Handler Local unit :=
  dispatch (setFrontCameraStream "");;
  dispatch (setBackCameraStream "");;
  dispatch (setBoardCameraStream "");;
  dispatch (setActiveStream None);;
  dispatch (setVideoAnalyticsActive false).

(** The [else] branch of [handleRecordingToggle], in the order of the
    source: the audio part, the video part and the two resets inside the
    [try], then the [catch] block. *)
Definition wasRecordingAudio (v : View) : bool :=
  hasAudioDevices (ui v) && is_string (uploadedAudioPath (ui v)) "MICROPHONE".

Definition stop_audio (b : Backend) (v : View) : Handler Local unit :=
  if truthy_opt (sessionId (ui v)) && wasRecordingAudio v then
    await (StopMicrophone (default "" (sessionId (ui v))))
          (fulfilled (stopMicrophone_ok b))
  else if negb (hasAudioDevices (ui v)) then
    dispatch (setAudioStatus AudioStatus.no_devices)
  else
    match audioStatus (ui v) with
    | AudioStatus.recording =>
        dispatch (setAudioStatus (if hasAudioDevices (ui v) then AudioStatus.ready
                                  else AudioStatus.no_devices))
    | _ => skip
    end.

Definition stop_video (b : Backend) (v : View) : Handler Local unit :=
  let wasVideoActive := videoAnalyticsActive (ui v) && hasVideoCapability v in
  if wasVideoActive && truthy_opt (sessionId (ui v)) then
    finally
      (try_catch
         (dispatch (setVideoAnalyticsStopping true);;
          await (StopVideoAnalytics ["front"; "back"; "content"]
                                    (default "" (sessionId (ui v))))
                (fulfilled (stopVideoAnalytics_ok b));;
          dispatch (setFrontCameraStream "");;
          dispatch (setBackCameraStream "");;
          dispatch (setBoardCameraStream "");;
          dispatch (setActiveStream None);;
          dispatch (setVideoAnalyticsActive false);;
          dispatch (setVideoStatus (if hasVideoCapability v then VideoStatus.ready
                                    else VideoStatus.no_config)))
         (dispatch (setVideoStatus VideoStatus.failed)))
      (dispatch (setVideoAnalyticsStopping false))
  else if negb (hasVideoCapability v) then
    dispatch (setVideoStatus VideoStatus.no_config)
  else
    dispatch (setVideoStatus (if hasVideoCapability v then VideoStatus.ready
                              else VideoStatus.no_config));;
    clear_streams.

Definition stop_resets (v : View) : Handler Local unit :=
  (if negb (wasRecordingAudio v) || negb (hasAudioDevices (ui v)) then
     dispatch (setProcessingMode None)
   else skip);;
  if is_string (uploadedAudioPath (ui v)) "MICROPHONE" then
    if negb (wasRecordingAudio v) then dispatch (setUploadedAudioPath "") else skip
  else skip.

Definition stop_failed (v : View) : Handler Local unit :=
  set_local (λ l, l <| errorMsg := Some (t "errors.failedToStopRecording") |>);;
  dispatch (setVideoAnalyticsStopping false);;
  dispatch (setAudioStatus (if hasAudioDevices (ui v) then AudioStatus.ready
                            else AudioStatus.no_devices));;
  dispatch (setVideoStatus (if hasVideoCapability v then VideoStatus.ready
                            else VideoStatus.no_config));;
  dispatch (setProcessingMode None);;
  dispatch (setUploadedAudioPath "").

Definition stopRecording (b : Backend) (v : View) : Handler Local unit :=
  dispatch (setIsRecording false);;
  dispatch (setJustStoppedRecording true);;
  try_catch
    (stop_audio b v;; stop_video b v;; stop_resets v)
    (stop_failed v).

Definition handleRecordingToggle (b : Backend) (v : View) : Handler Local unit :=
  if isRecordingDisabled v then skip
  else
    let next := negb (isRecording (ui v)) in
    set_local (λ l, l <| errorMsg := None |>);;
    if next then startRecording b v else stopRecording b v.

(** The render a world is shown in, and a click on the record control
    in that render. *)
Definition render (transcriptStatus : string) (mindmapState : MindmapState)
    (w : World Local) : View :=
  {| ui := store w; transcriptStatus := transcriptStatus;
     mindmapState := mindmapState; cells := local w |}.

Definition click_record (b : Backend) (transcriptStatus : string)
    (mindmapState : MindmapState) (w : World Local) : Outcome unit * World Local :=
  handleRecordingToggle b (render transcriptStatus mindmapState w) w.

(** Lines 105-129, the effect run when the header is mounted.
    [devices] is what [getAudioDevices()] answers: the promise is
    rejected ([None]), fulfilled with [null] or with the list of devices;
    the call is not recorded in the trace. A [null] handed to
    [setHasAudioDevices] is stored as [false]. *)
Definition checkAudioDevices (devices : option (option (list string)))
  : Handler Local unit :=
  finally
    (try_catch
       (dispatch (setAudioDevicesLoading true);;
        devices ← (match devices with
                   | Some answer => mret answer
                   | None => throw
                   end : Handler Local (option (list string)));
        let hasDevices :=
          match devices with
          | Some l => (0 <? length l)%nat
          | None => false
          end in
        dispatch (setHasAudioDevices hasDevices))
       (dispatch (setHasAudioDevices false)))
    (dispatch (setAudioDevicesLoading false)).

Definition mount (storedFront storedBack storedBoard : option string)
    (devices : option (option (list string))) : Handler Local unit :=
  dispatch (loadCameraSettingsFromStorage storedFront storedBack storedBoard);;
  checkAudioDevices devices.

(** Lines 196-202, the effect that keeps the video status in step with
    the video capability. *)
Definition syncVideoStatus (v : View) : Handler Local unit :=
  let no_config := match videoStatus (ui v) with
                   | VideoStatus.no_config => true
                   | _ => false
                   end in
  if hasVideoCapability v && no_config then
    dispatch (setVideoStatus VideoStatus.ready)
  else if negb (hasVideoCapability v) && negb no_config then
    dispatch (setVideoStatus VideoStatus.no_config)
  else skip.

End Header.

(** *** [UploadFilesModal.tsx] *)

Module UploadFilesModal.

Record Local := {
  audioFile : option File;
  frontCameraPath : option File;
  rearCameraPath : option File;
  boardCameraPath : option File;
  baseDirectory : string;
  error : option string;
  loading : bool;
  notification : string;
  monitoringTimer : option Z;
  abortRef : bool;          (* an AbortController is held *)
  shouldAbortRef : bool
}.

#[global] Instance set_error : Setter error := λ v l,
  Build_Local (audioFile l) (frontCameraPath l) (rearCameraPath l) (boardCameraPath l)
    (baseDirectory l) v (loading l) (notification l) (monitoringTimer l)
    (abortRef l) (shouldAbortRef l).
#[global] Instance set_loading : Setter loading := λ v l,
  Build_Local (audioFile l) (frontCameraPath l) (rearCameraPath l) (boardCameraPath l)
    (baseDirectory l) (error l) v (notification l) (monitoringTimer l)
    (abortRef l) (shouldAbortRef l).
#[global] Instance set_notification : Setter notification := λ v l,
  Build_Local (audioFile l) (frontCameraPath l) (rearCameraPath l) (boardCameraPath l)
    (baseDirectory l) (error l) (loading l) v (monitoringTimer l)
    (abortRef l) (shouldAbortRef l).
#[global] Instance set_monitoringTimer : Setter monitoringTimer := λ v l,
  Build_Local (audioFile l) (frontCameraPath l) (rearCameraPath l) (boardCameraPath l)
    (baseDirectory l) (error l) (loading l) (notification l) v
    (abortRef l) (shouldAbortRef l).
#[global] Instance set_abortRef : Setter abortRef := λ v l,
  Build_Local (audioFile l) (frontCameraPath l) (rearCameraPath l) (boardCameraPath l)
    (baseDirectory l) (error l) (loading l) (notification l) (monitoringTimer l)
    v (shouldAbortRef l).
#[global] Instance set_shouldAbortRef : Setter shouldAbortRef := λ v l,
  Build_Local (audioFile l) (frontCameraPath l) (rearCameraPath l) (boardCameraPath l)
    (baseDirectory l) (error l) (loading l) (notification l) (monitoringTimer l)
    (abortRef l) v.

Definition constructFilePath (v : Local) (fileName : string) : string :=
  let normalizedBaseDirectory :=
    if endsWith (baseDirectory v) "\" then baseDirectory v
    else baseDirectory v +:+ "\" in
  normalizedBaseDirectory +:+ fileName.

(** The transcript stream is opened; its events arrive later. *)
Definition startStreamTranscriptAndVideoAnalytics (audioPath session : string)
  : Handler Local unit :=
  set_local (λ l, l <| abortRef := true |>);;
  perform (StreamTranscript audioPath session).

Definition startVideoAnalyticsWithSession (b : Backend) (session : string)
    (pipelines : list (string * string)) : Handler Local bool :=
  if (length pipelines =? 0)%nat then
    dispatch (setVideoAnalyticsLoading false);;
    dispatch (setVideoAnalyticsActive false);;
    dispatch (setVideoStatus VideoStatus.no_config);;
    mret false
  else
    try_catch
      (dispatch startStream;;
       dispatch (setVideoAnalyticsLoading true);;
       dispatch (setVideoStatus VideoStatus.starting);;
       results ← await (StartVideoAnalyticsPipeline pipelines session)
                       (startVideoAnalyticsPipeline_response b);
       for_each (λ result,
                   if stream_started result then dispatch_stream result else skip)
                results;;
       let hasSuccessfulStreams := existsb stream_started results in
       (if hasSuccessfulStreams then
          dispatch (setActiveStream (Some Stream.all));;
          dispatch (setVideoAnalyticsActive true);;
          dispatch (setVideoStatus VideoStatus.streaming)
        else
          dispatch (setVideoStatus VideoStatus.failed));;
       dispatch (setVideoAnalyticsLoading false);;
       (if hasSuccessfulStreams then
          _ ← setTimeout b 10000 (FetchClassStatistics session); skip
        else skip);;
       mret hasSuccessfulStreams)
      (dispatch (setVideoAnalyticsLoading false);;
       dispatch (setVideoAnalyticsActive false);;
       dispatch (setVideoStatus VideoStatus.failed);;
       mret false).

Definition getProcessingNotification (hasAudio hasVideo : bool) : string :=
  if hasAudio && hasVideo then "Starting video analytics and transcription..."
  else if hasAudio && negb hasVideo then "Starting transcription..."
  else if negb hasAudio && hasVideo then "Starting video analytics..."
  else "Starting processing...".

Definition getSuccessNotification (hasAudio hasVideo videoStarted : bool) : string :=
  let audioSuccess := hasAudio in
  let videoSuccess := hasVideo && videoStarted in
  if audioSuccess && videoSuccess then
    "Transcription and video analytics started successfully."
  else if audioSuccess && negb videoSuccess && hasVideo then
    "Transcription started successfully. Video analytics failed to start."
  else if audioSuccess && negb hasVideo then
    "Transcription started successfully."
  else if negb audioSuccess && videoSuccess then
    "Video analytics started successfully."
  else if negb audioSuccess && negb videoSuccess && hasVideo then
    "Failed to start video analytics."
  else
    "No valid processing started.".

(** [v] holds the cells as the render that owns the handler saw them. *)
Definition handleApply (b : Backend) (v : Local) : Handler Local unit :=
  let hasAudioFile := bool_decide (is_Some (audioFile v)) in
  let hasVideoFiles :=
    bool_decide (is_Some (frontCameraPath v))
    || bool_decide (is_Some (rearCameraPath v))
    || bool_decide (is_Some (boardCameraPath v)) in
  if negb hasAudioFile && negb hasVideoFiles then
    set_local (λ l, l <| error := Some "At least one file (audio or video) is required." |>)
  else
    set_local (λ l, l <| notification := "Starting processing..." |>);;
    dispatch resetFlow;;
    perform ResetTranscript;;
    perform ResetSummary;;
    perform ClearMindmap;;
    dispatch startProcessing;;
    (if hasAudioFile then dispatch (setAudioStatus AudioStatus.processing)
     else dispatch (setAudioStatus AudioStatus.no_devices));;
    set_local (λ l, l <| loading := true |>);;
    set_local (λ l, l <| error := None |>);;
    try_catch
      (set_local (λ l, l <| notification := "Creating session..." |>);;
       session ← await CreateSession (createSession_response b);
       dispatch (setSessionId (Some session));;
       try_catch
         (await (StartMonitoring session) (fulfilled (startMonitoring_ok b));;
          timer ← setTimeout b (45 * 60 * 1000) StopMonitoringLater;
          set_local (λ l, l <| monitoringTimer := Some timer |>))
         skip;;
       audioPath ←
         match audioFile v with
         | Some file =>
             set_local (λ l, l <| notification := "Uploading..." |>);;
             path ← await (UploadAudio file) (uploadAudio_response b);
             dispatch (setUploadedAudioPath path);;
             dispatch (setProcessingMode (Some ProcessingMode.audio));;
             mret path
         | None =>
             dispatch (setProcessingMode (Some ProcessingMode.video_only));;
             mret ""
         end;
       let fullPath (file : option File) :=
         match file with
         | Some f => constructFilePath v (name f)
         | None => ""
         end in
       let allPipelines :=
         [ ("front", fullPath (frontCameraPath v));
           ("back", fullPath (rearCameraPath v));
           ("content", fullPath (boardCameraPath v)) ] in
       let validPipelines :=
         filter (λ pipeline, truthy pipeline.2 && negb (String.eqb (trim pipeline.2) ""))
                allPipelines in
       let hasValidVideo := (0 <? length validPipelines)%nat in
       dispatch (setHasUploadedVideoFiles hasValidVideo);;
       set_local (λ l, l <| notification :=
                              getProcessingNotification hasAudioFile hasValidVideo |>);;
       (if hasValidVideo then dispatch (setVideoStatus VideoStatus.starting)
        else dispatch (setVideoStatus VideoStatus.no_config));;
       videoAnalyticsStarted ←
         ((if hasValidVideo then
            started ← startVideoAnalyticsWithSession b session validPipelines;
            (if (started : bool) then skip else dispatch (setVideoStatus VideoStatus.failed));;
            mret started
          else mret false) : Handler Local bool);
       (if hasAudioFile && truthy audioPath then
          startStreamTranscriptAndVideoAnalytics audioPath session
        else skip);;
       set_local (λ l, l <| notification :=
                              getSuccessNotification hasAudioFile hasValidVideo
                                videoAnalyticsStarted |>);;
       set_local (λ l, l <| shouldAbortRef := false |>);;
       set_local (λ l, l <| loading := false |>);;
       perform OnClose)
      (set_local (λ l, l <| error := Some "Failed during processing. Please try again." |>);;
       set_local (λ l, l <| notification := "" |>);;
       dispatch processingFailed;;
       set_local (λ l, l <| loading := false |>)).

(** A click on the apply button. *)
Definition click_apply (b : Backend) (w : World Local) : Outcome unit * World Local :=
  handleApply b (local w) w.

(** Lines 108-154, the function [run] that consumes the transcript
    stream. The stream is the list of its events and the way it ends
    once they are consumed: it is exhausted, or the iterator throws - an
    abort or another error. The actions on the transcript slice are
    collected in [transcript]. *)
Inductive StreamEvent :=
| TranscriptToken (token : string)
| StreamError (message : string)
| StreamDone
| OtherEvent.

Inductive StreamEnd := Exhausted | Aborted | Failed.

Inductive TranscriptAction :=
| StartTranscript
| AppendTranscript (token : string)
| FinishTranscript.

Record StreamRun := {
  ui_state : UIState;
  transcript : list TranscriptAction;
  sentFirst : bool
}.

(** The [for await] loop; the flag tells whether it was left by
    [break]. *)
Fixpoint consume (events : list StreamEvent) (r : StreamRun) : bool * StreamRun :=
  match events with
  | [] => (false, r)
  | ev :: rest =>
      match ev with
      | TranscriptToken token =>
          let r := if negb (sentFirst r)
                   then {| ui_state := startTranscription (ui_state r);
                           transcript := transcript r ++ [StartTranscript];
                           sentFirst := true |}
                   else r in
          consume rest {| ui_state := ui_state r;
                          transcript := transcript r ++ [AppendTranscript token];
                          sentFirst := sentFirst r |}
      | StreamError _ =>
          (true, {| ui_state := setAudioStatus AudioStatus.error (ui_state r);
                    transcript := transcript r ++ [FinishTranscript];
                    sentFirst := sentFirst r |})
      | StreamDone =>
          (true, {| ui_state := transcriptionComplete (ui_state r);
                    transcript := transcript r ++ [FinishTranscript];
                    sentFirst := sentFirst r |})
      | OtherEvent => consume rest r
      end
  end.

Definition run (events : list StreamEvent) (ending : StreamEnd) (state : UIState)
  : StreamRun :=
  let '(left_by_break, r) :=
    consume events {| ui_state := state; transcript := []; sentFirst := false |} in
  if left_by_break then r
  else
    match ending with
    | Failed => {| ui_state := setAudioStatus AudioStatus.error (ui_state r);
                   transcript := transcript r;
                   sentFirst := sentFirst r |}
    | _ => r
    end.

(** The events the loop reads: those up to the first [error] or [done]
    event; the tokens among them; and that closing event, if any. *)
Definition closes (ev : StreamEvent) : bool :=
  match ev with
  | StreamError _ | StreamDone => true
  | _ => false
  end.

Fixpoint tokens_read (events : list StreamEvent) : list string :=
  match events with
  | [] => []
  | TranscriptToken token :: rest => token :: tokens_read rest
  | OtherEvent :: rest => tokens_read rest
  | _ => []
  end.

Definition closing_event (events : list StreamEvent) : option StreamEvent :=
  head (filter (λ ev, closes ev = true) events).

End UploadFilesModal.

(** *** [VideoStream.tsx] *)

Module VideoStream.

(** [s.startsWith(p)] and [s.includes(p)]. *)
Definition startsWith (s p : string) : bool := String.prefix p s.

Fixpoint includes (s p : string) : bool :=
  String.prefix p s
  || match s with
     | EmptyString => false
     | String _ s' => includes s' p
     end.

Record Local := {
  isRoomView : bool;
  isUploadModalOpen : bool
}.

(** What a render has in scope. The component calls [aiProcessing]
    its [isRecording]. *)
Record View := {
  ui : UIState;
  transcriptStatus : string;
  cells : Local
}.

(** The store holds the three stream addresses as strings. *)
Definition isValidStream (stream : string) : bool :=
  truthy stream
  && negb (String.eqb (trim stream) "")
  && (startsWith stream "http://"
      || startsWith stream "https://"
      || startsWith stream "rtsp://"
      || includes stream "/stream"
      || includes stream ".m3u8").

(** [streams[pipeline]]; there is no entry for [all]. *)
Definition streams (v : View) (pipeline : Stream.t) : string :=
  match pipeline with
  | Stream.front => frontCameraStream (ui v)
  | Stream.back => backCameraStream (ui v)
  | Stream.content => boardCameraStream (ui v)
  | Stream.all => ""
  end.

Definition hasValidStreams (v : View) : bool :=
  isValidStream (streams v Stream.front)
  || isValidStream (streams v Stream.back)
  || isValidStream (streams v Stream.content).

Definition getAvailableStreams (v : View) : list Stream.t :=
  (if isValidStream (streams v Stream.front) then [Stream.front] else [])
  ++ (if isValidStream (streams v Stream.back) then [Stream.back] else [])
  ++ (if isValidStream (streams v Stream.content) then [Stream.content] else []).

Definition isCurrentlyRecording (v : View) : bool :=
  aiProcessing (ui v)
  || is_string (uploadedAudioPath (ui v)) "MICROPHONE"
  || String.eqb (transcriptStatus v) "streaming"
  || videoAnalyticsActive (ui v).

Definition getStreamStatus (v : View) : string :=
  if videoAnalyticsLoading (ui v) then "loading"
  else if videoAnalyticsActive (ui v) && hasValidStreams v then "active"
  else
    let currentlyRecording := isCurrentlyRecording v in
    if match videoStatus (ui v) with
       | VideoStatus.starting | VideoStatus.streaming => true
       | _ => false
       end
    then "loading"
    else if match videoStatus (ui v) with VideoStatus.failed => true | _ => false end
            && currentlyRecording
    then "video_failed"
    else if currentlyRecording && hasValidStreams v
            && negb (videoAnalyticsActive (ui v))
            && negb (videoAnalyticsLoading (ui v))
    then "video_failed"
    else if currentlyRecording && negb (hasValidStreams v)
            && negb (videoAnalyticsActive (ui v))
            && negb (videoAnalyticsLoading (ui v))
    then "audio_only"
    else "inactive".

(** Lines 192-203, the effect that follows the streams and the
    analytics flag. *)
Definition syncActiveStream (v : View) : Handler Local unit :=
  let availableStreams := getAvailableStreams v in
  if (0 <? length availableStreams)%nat && videoAnalyticsActive (ui v) then
    if (1 <? length availableStreams)%nat then
      dispatch (setActiveStream (Some Stream.all))
    else
      dispatch (setActiveStream (head availableStreams))
  else if negb (videoAnalyticsActive (ui v)) then
    dispatch (setActiveStream None)
  else skip.

Definition handleStreamClick (v : View) (pipeline : Stream.t) : Handler Local unit :=
  let unavailable :=
    match pipeline with
    | Stream.all => negb (hasValidStreams v)
    | _ => negb (isValidStream (streams v pipeline))
    end in
  if unavailable then skip
  else dispatch (setActiveStream (Some pipeline)).

(** The [onClick] of a stream label. *)
Definition click_label (v : View) (pipeline : Stream.t) : Handler Local unit :=
  let isAvailable :=
    match pipeline with
    | Stream.all => hasValidStreams v
    | _ => isValidStream (streams v pipeline)
    end in
  if negb (videoAnalyticsLoading (ui v)) && isAvailable
  then handleStreamClick v pipeline
  else skip.

(** Lines 283-399: what the body of the room view shows. A player is
    the camera and the address it plays. *)
Inductive Body :=
| Spinner (text : string)
| AudioOnly
| VideoFailed
| Inactive
| StreamsLayout (players : list (Stream.t * string))
| ConfigureCameras.

Definition player (v : View) (pipeline : Stream.t) : list (Stream.t * string) :=
  if truthy (streams v pipeline) && isValidStream (streams v pipeline)
  then [(pipeline, streams v pipeline)]
  else [].

Definition players (v : View) : list (Stream.t * string) :=
  match activeStream (ui v) with
  | Some Stream.all =>
      player v Stream.front ++ player v Stream.back ++ player v Stream.content
  | Some pipeline => player v pipeline
  | None => []
  end.

Definition body (v : View) : Body :=
  let streamStatus := getStreamStatus v in
  if String.eqb streamStatus "loading" then
    Spinner (if videoAnalyticsActive (ui v) then "Stopping video analytics..."
             else "Initializing video analytics...")
  else if String.eqb streamStatus "audio_only" then AudioOnly
  else if String.eqb streamStatus "video_failed" then VideoFailed
  else if String.eqb streamStatus "inactive" then Inactive
  else if String.eqb streamStatus "active" && hasValidStreams v then
    StreamsLayout (players v)
  else ConfigureCameras.

Definition render (transcriptStatus : string) (w : World Local) : View :=
  {| ui := store w; transcriptStatus := transcriptStatus; cells := local w |}.

(** The effect, then clicks on stream labels, each in the render of
    the world the one before left. *)
Definition after_effect (transcriptStatus : string) (w : World Local) : World Local :=
  (syncActiveStream (render transcriptStatus w) w).2.

Definition after_clicks (transcriptStatus : string) (pipelines : list Stream.t)
    (w : World Local) : World Local :=
  fold_left (λ w pipeline, (click_label (render transcriptStatus w) pipeline w).2)
            pipelines w.

End VideoStream.

(** *** Sample backends and worlds *)

Definition front_stream : PipelineResult :=
  {| pipeline_name := "front"; status := "success"; hls_stream := "http://hls/front" |}.

(** Every call succeeds. *)
Definition ok_backend : Backend := {|
  createSession_response := Some "session-1";
  startMonitoring_ok := true;
  stopMonitoring_ok := true;
  stopMicrophone_ok := true;
  startVideoAnalytics_response := Some (Some [front_stream]);
  stopVideoAnalytics_ok := true;
  uploadAudio_response := Some "/uploads/lecture.wav";
  startVideoAnalyticsPipeline_response := Some [front_stream];
  timer_id := 7
|}.

(** The session cannot be created; the other calls succeed. *)
Definition no_session_backend : Backend := {|
  createSession_response := None;
  startMonitoring_ok := true;
  stopMonitoring_ok := true;
  stopMicrophone_ok := true;
  startVideoAnalytics_response := Some (Some [front_stream]);
  stopVideoAnalytics_ok := true;
  uploadAudio_response := Some "/uploads/lecture.wav";
  startVideoAnalyticsPipeline_response := Some [front_stream];
  timer_id := 7
|}.

Definition no_mindmap : Header.MindmapState :=
  {| Header.isLoading := false; Header.finalText := None; Header.error := None |}.

Definition header_cells : Header.Local :=
  {| Header.errorMsg := None; Header.timer := 0;
     Header.videoAnalyticsEnabled := true; Header.monitoringTimer := None |}.

(** The page before the header is mounted. *)
Definition fresh_page : World Header.Local :=
  {| store := initialState; local := header_cells; trace := [] |}.

(** The page after the device probe found a microphone, no camera
    being configured. *)
Definition microphone_only : World Header.Local :=
  {| store := setAudioDevicesLoading false
                (setHasAudioDevices true (setAudioDevicesLoading true initialState));
     local := header_cells;
     trace := [] |}.

(** The same page after a click on the record control. *)
Definition recording_microphone : World Header.Local :=
  (Header.click_record ok_backend "idle" no_mindmap microphone_only).2.

(** The page with neither microphone nor camera. *)
Definition nothing_to_record : World Header.Local :=
  {| store := setAudioDevicesLoading false
                (setHasAudioDevices false (setAudioDevicesLoading true initialState));
     local := header_cells;
     trace := [] |}.

(** The page without microphone on which a front camera is configured,
    and the one on which the setting holds a no-break space only. *)
Definition camera_only : World Header.Local :=
  {| store := nothing_to_record.(store) <| frontCamera := "rtsp://camera/front" |>;
     local := header_cells;
     trace := [] |}.

Definition blank_camera_only : World Header.Local :=
  {| store := nothing_to_record.(store) <| frontCamera := nbsp |>;
     local := header_cells;
     trace := [] |}.

(** The page without microphone and camera for which video files were
    uploaded. *)
Definition uploaded_video_only : World Header.Local :=
  {| store := nothing_to_record.(store) <| hasUploadedVideoFiles := true |>;
     local := header_cells;
     trace := [] |}.

(** A recording whose audio path is an uploaded file, held by a page
    without microphone, and one held by a page with a microphone whose
    status still reads recording. *)
Definition recording_upload_no_microphone : World Header.Local :=
  {| store := initialState <| isRecording := true |>
                           <| hasAudioDevices := false |>
                           <| uploadedAudioPath := Some "/uploads/lecture.wav" |>
                           <| audioStatus := AudioStatus.processing |>;
     local := header_cells;
     trace := [] |}.

Definition recording_upload_microphone : World Header.Local :=
  {| store := initialState <| isRecording := true |>
                           <| uploadedAudioPath := Some "/uploads/lecture.wav" |>
                           <| audioStatus := AudioStatus.recording |>;
     local := header_cells;
     trace := [] |}.

Definition modal_cells (audio front : option File) : UploadFilesModal.Local :=
  {| UploadFilesModal.audioFile := audio;
     UploadFilesModal.frontCameraPath := front;
     UploadFilesModal.rearCameraPath := None;
     UploadFilesModal.boardCameraPath := None;
     UploadFilesModal.baseDirectory := "C:\Users\Default\Videos\";
     UploadFilesModal.error := None;
     UploadFilesModal.loading := false;
     UploadFilesModal.notification := "";
     UploadFilesModal.monitoringTimer := None;
     UploadFilesModal.abortRef := false;
     UploadFilesModal.shouldAbortRef := true |}.

Definition modal_world (audio front : option File) : World UploadFilesModal.Local :=
  {| store := initialState; local := modal_cells audio front; trace := [] |}.

Definition lecture_wav : File := {| name := "lecture.wav" |}.

Definition stream_cells : VideoStream.Local :=
  {| VideoStream.isRoomView := true; VideoStream.isUploadModalOpen := false |}.

(** The room view while the video analytics plays the front camera. *)
Definition front_playing : World VideoStream.Local :=
  {| store := initialState <| frontCameraStream := "http://hls/front" |>
                           <| videoAnalyticsActive := true |>;
     local := stream_cells;
     trace := [] |}.

End UI.

(** * Properties *)

Module ImageSyncProofs.
Import ImageSync.

Lemma to_long_small z : - 2 ^ 63 <= z < 2 ^ 63 -> to_long z = z.
Proof.
  intros Hz. unfold to_long.
  rewrite Z.mod_small by lia. lia.
Qed.

Lemma to_long_congr a b : to_long (to_long a - to_long b) = to_long (a - b).
Proof.
  unfold to_long.
  change (2 ^ 64) with 18446744073709551616.
  change (2 ^ 63) with 9223372036854775808.
  Z.to_euclidean_division_equations. lia.
Qed.

Lemma within_tolerance_spec t_rgb t_depth :
  Z.abs (t_rgb - t_depth) < 2 ^ 63 ->
  within_tolerance t_rgb t_depth
  = (Z.abs (t_rgb - t_depth) <? acceptable_synchronization_error_nanoseconds).
Proof.
  intros Hd. unfold within_tolerance, long_sub, long_abs.
  rewrite to_long_congr.
  rewrite (to_long_small (t_rgb - t_depth)) by lia.
  rewrite to_long_small by lia.
  unfold wrap_u64. rewrite Z.mod_small by lia. reflexivity.
Qed.

(** **** Timestamps in double precision *)

Lemma round_to_double_exact z : 0 <= z < 2 ^ 53 -> round_to_double z = z.
Proof.
  intros Hz. unfold round_to_double.
  destruct (Z.eq_dec z 0) as [->|Hne]; [reflexivity|].
  rewrite Z.abs_eq by lia.
  assert (Hl : Z.log2 z < 53) by (apply Z.log2_lt_pow2; lia).
  assert (E : (Z.log2 z <=? 52) = true) by (apply Z.leb_le; lia).
  rewrite E. rewrite Z.sgn_pos by lia. lia.
Qed.

(** Below 2^61 the doubles are at most 256 apart. *)
Lemma round_to_double_close z :
  0 <= z < 2 ^ 61 ->
  0 <= round_to_double z ∧ z - 128 <= round_to_double z <= z + 128.
Proof.
  intros Hz. unfold round_to_double.
  destruct (Z.eq_dec z 0) as [->|Hne]; [cbn; lia|].
  rewrite Z.abs_eq by lia. rewrite Z.sgn_pos by lia. rewrite Z.mul_1_l.
  destruct (Z.log2 z <=? 52) eqn:E; [lia|].
  apply Z.leb_gt in E.
  assert (Hl : Z.log2 z < 61) by (apply Z.log2_lt_pow2; lia).
  set (e := Z.log2 z - 52).
  assert (He : 1 <= e <= 8) by lia.
  assert (Hu : 0 < 2 ^ e <= 256).
  { split; [apply Z.pow_pos_nonneg; lia|].
    change 256 with (2 ^ 8). apply Z.pow_le_mono_r; lia. }
  generalize dependent (2 ^ e). intros ulp Hu.
  pose proof (Z.div_mod z ulp ltac:(lia)) as Hdm.
  pose proof (Z.mod_pos_bound z ulp ltac:(lia)) as Hr.
  assert (Hq : 0 <= z / ulp) by (apply Z.div_pos; lia).
  generalize dependent (z / ulp). intros q Hdm Hq.
  generalize dependent (z mod ulp). intros r Hdm Hr.
  assert (Hlow : 0 <= q * ulp) by (apply Z.mul_nonneg_nonneg; lia).
  assert (Hup : (q + 1) * ulp = q * ulp + ulp) by ring.
  rewrite Hup. replace (ulp * q) with (q * ulp) in Hdm by ring.
  destruct (2 * r <? ulp) eqn:E1; [apply Z.ltb_lt in E1; lia|].
  apply Z.ltb_ge in E1.
  destruct (ulp <? 2 * r) eqn:E2; [apply Z.ltb_lt in E2; lia|].
  apply Z.ltb_ge in E2.
  destruct (Z.even q); lia.
Qed.

(** From 2^60 ns on, some 36 years, they are exactly 256 apart. *)
Lemma round_to_double_grid z :
  2 ^ 60 <= z < 2 ^ 61 -> round_to_double z mod 256 = 0.
Proof.
  intros Hz. unfold round_to_double.
  assert (Hpos : 0 < z) by (change (2 ^ 60) with 1152921504606846976 in Hz; lia).
  rewrite Z.abs_eq by lia. rewrite Z.sgn_pos by lia. rewrite Z.mul_1_l.
  assert (Hl : Z.log2 z = 60) by (apply Z.log2_unique; [lia|exact Hz]).
  rewrite Hl. change (60 <=? 52) with false. change (2 ^ (60 - 52)) with 256.
  cbv iota.
  destruct (2 * (z mod 256) <? 256); [apply Z.mod_mul; lia|].
  destruct (256 <? 2 * (z mod 256)); [apply Z.mod_mul; lia|].
  destruct (Z.even (z / 256)); apply Z.mod_mul; lia.
Qed.

Lemma header_nanoseconds_valid msg :
  valid_stamp msg -> 0 <= header_nanoseconds msg < 2 ^ 61.
Proof.
  intros [Hs Hn]. unfold header_nanoseconds.
  change (2 ^ 31) with 2147483648 in Hs.
  change (2 ^ 32) with 4294967296 in Hn.
  change (2 ^ 61) with 2305843009213693952. lia.
Qed.

(** The stored stamp of a message is its header stamp up to 128 ns, and
    the header stamp itself below 2^53 ns (some 104 days). *)
Lemma stamp_nanoseconds_valid msg :
  valid_stamp msg ->
  0 <= stamp_nanoseconds msg < 2 ^ 62
  ∧ header_nanoseconds msg - 128 <= stamp_nanoseconds msg <= header_nanoseconds msg + 128
  ∧ (header_nanoseconds msg < 2 ^ 53 -> stamp_nanoseconds msg = header_nanoseconds msg)
  ∧ (2 ^ 60 <= header_nanoseconds msg -> stamp_nanoseconds msg mod 256 = 0).
Proof.
  intros Hv. pose proof (header_nanoseconds_valid msg Hv) as Hh.
  destruct (round_to_double_close _ Hh) as [H0 Hc].
  unfold stamp_nanoseconds, wrap_u64.
  rewrite Z.mod_small by lia.
  split; [lia|]. split; [exact Hc|]. split.
  - intros Hsmall. apply round_to_double_exact. lia.
  - intros Hbig. apply round_to_double_grid. lia.
Qed.

Lemma within_tolerance_valid color depth :
  valid_stamp color -> valid_stamp depth ->
  within_tolerance (stamp_nanoseconds color) (stamp_nanoseconds depth)
  = (Z.abs (stamp_nanoseconds color - stamp_nanoseconds depth)
     <? acceptable_synchronization_error_nanoseconds).
Proof.
  intros Hc Hd.
  destruct (stamp_nanoseconds_valid color Hc) as [Bc _].
  destruct (stamp_nanoseconds_valid depth Hd) as [Bd _].
  apply within_tolerance_spec. lia.
Qed.

(** **** The heap functions rearrange a queue

    While [value] is held outside the vector, the entry of the vector at
    the hole is stale: what the queue holds is the vector with [value]
    put in at the hole. Every move of the hole keeps that. *)

Lemma insert_take_out (l : list value_type) i x y :
  l !! i = Some y -> y :: <[i := x]> l ≡ₚ x :: l.
Proof.
  revert i. induction l as [|a l IH]; intros [|i] H; try discriminate.
  - cbn in H. injection H as ->. cbn. apply Permutation_swap.
  - cbn in H. cbn.
    etrans; [apply Permutation_swap|].
    etrans; [apply Permutation_skip, (IH i H)|].
    apply Permutation_swap.
Qed.

Lemma insert_exchange (l : list value_type) i x y :
  (i < length l)%nat -> x :: <[i := y]> l ≡ₚ y :: <[i := x]> l.
Proof.
  revert i. induction l as [|a l IH]; intros [|i] H; cbn in H; try lia.
  - cbn. apply Permutation_swap.
  - cbn.
    etrans; [apply Permutation_swap|].
    etrans; [apply Permutation_skip, (IH i); lia|].
    apply Permutation_swap.
Qed.

(** The entry at [j] goes to the hole at [i], the hole to [j]. *)
Lemma hole_moves (l : list value_type) i j x y :
  i ≠ j -> (i < length l)%nat -> l !! j = Some y ->
  <[j := x]> (<[i := y]> l) ≡ₚ <[i := x]> l.
Proof.
  revert i j. induction l as [|a l IH]; intros [|i] [|j] Hne Hi Hj;
    cbn in Hi, Hj; try lia; try discriminate.
  - cbn. apply (insert_take_out l j x y Hj).
  - injection Hj as ->. cbn. apply insert_exchange. lia.
  - cbn. f_equiv. apply IH; [lia|lia|exact Hj].
Qed.

Lemma push_heap_perm fuel : ∀ c holeIndex value,
  (holeIndex < length c)%nat ->
  push_heap fuel c holeIndex value ≡ₚ <[holeIndex := value]> c.
Proof.
  induction fuel as [|fuel IH]; intros c h value Hh; cbn [push_heap]; [reflexivity|].
  destruct (c !! ((h - 1) / 2)%nat) as [p|] eqn:Ep; [|reflexivity].
  destruct ((0 <? h)%nat && (value.1 <? p.1)) eqn:E; [|reflexivity].
  apply andb_true_iff in E as [E _]. apply Nat.ltb_lt in E.
  assert (Hp : ((h - 1) / 2 < h)%nat).
  { apply (Nat.le_lt_trans _ (h - 1)); [apply Nat.Div0.div_le_upper_bound; lia|lia]. }
  rewrite IH by (rewrite length_insert; lia).
  apply hole_moves; [lia|exact Hh|exact Ep].
Qed.

Lemma pq_push_perm x q : pq_push x q ≡ₚ x :: q.
Proof.
  unfold pq_push. rewrite push_heap_perm by (rewrite length_app; cbn; lia).
  rewrite insert_app_r_alt by lia. rewrite Nat.sub_diag. cbn.
  rewrite Permutation_app_comm. reflexivity.
Qed.

Lemma sink_hole_perm fuel : ∀ c len holeIndex value c' holeIndex',
  (holeIndex < length c)%nat ->
  sink_hole fuel c len holeIndex = (c', holeIndex') ->
  (holeIndex' < length c')%nat ∧ <[holeIndex' := value]> c' ≡ₚ <[holeIndex := value]> c.
Proof.
  induction fuel as [|fuel IH]; intros c len h value c' h' Hh; cbn [sink_hole].
  - intros [= <- <-]. split; [exact Hh|reflexivity].
  - destruct (h <? (len - 1) / 2)%nat; [|intros [= <- <-]; split; [exact Hh|reflexivity]].
    destruct (c !! (2 * (h + 1))%nat) as [r|] eqn:Er;
      [|intros [= <- <-]; split; [exact Hh|reflexivity]].
    destruct (c !! (2 * (h + 1) - 1)%nat) as [l|] eqn:El;
      [|intros [= <- <-]; split; [exact Hh|reflexivity]].
    pose proof (lookup_lt_Some c _ _ Er) as Lr.
    pose proof (lookup_lt_Some c _ _ El) as Ll.
    destruct (l.1 <? r.1); intros Hs.
    + destruct (IH (<[h := l]> c) len (2 * (h + 1) - 1)%nat value c' h') as [H1 H2];
        [rewrite length_insert; exact Ll|exact Hs|].
      split; [exact H1|]. rewrite H2.
      apply hole_moves; [lia|exact Hh|exact El].
    + destruct (IH (<[h := r]> c) len (2 * (h + 1))%nat value c' h') as [H1 H2];
        [rewrite length_insert; exact Lr|exact Hs|].
      split; [exact H1|]. rewrite H2.
      apply hole_moves; [lia|exact Hh|exact Er].
Qed.

Lemma adjust_heap_perm c len value :
  (0 < length c)%nat -> adjust_heap c len value ≡ₚ <[0%nat := value]> c.
Proof.
  intros Hc. unfold adjust_heap.
  destruct (sink_hole len c len 0) as [c1 h1] eqn:E1.
  destruct (sink_hole_perm _ _ _ _ value _ _ Hc E1) as [Hh1 P1].
  destruct (Nat.even len && (h1 =? (len - 2) / 2)%nat).
  - destruct (c1 !! (2 * (h1 + 1) - 1)%nat) as [l|] eqn:El.
    + pose proof (lookup_lt_Some _ _ _ El) as Ll.
      rewrite push_heap_perm by (rewrite length_insert; lia).
      rewrite <- P1. apply hole_moves; [lia|exact Hh1|exact El].
    + rewrite push_heap_perm by exact Hh1. exact P1.
  - rewrite push_heap_perm by exact Hh1. exact P1.
Qed.

Lemma pq_pop_perm x q : pq_pop (x :: q) ≡ₚ q.
Proof.
  destruct q as [|value q _] using rev_ind; [reflexivity|].
  unfold pq_pop. rewrite last_snoc, length_app. cbn [length].
  replace (length q + 1)%nat with (S (length q)) by lia.
  cbn [take]. rewrite take_app_length.
  rewrite adjust_heap_perm by (cbn; lia).
  cbn. rewrite Permutation_app_comm. reflexivity.
Qed.

(** The loops have run to their end: more fuel changes nothing. *)
Lemma push_heap_enough fuel : ∀ fuel' c holeIndex value,
  (holeIndex <= fuel)%nat -> (holeIndex <= fuel')%nat ->
  push_heap fuel c holeIndex value = push_heap fuel' c holeIndex value.
Proof.
  assert (Hzero : ∀ n c value, push_heap n c 0 value = <[0%nat := value]> c).
  { intros [|n] c value; [reflexivity|]. cbn [push_heap].
    destruct (c !! ((0 - 1) / 2)%nat); reflexivity. }
  induction fuel as [|fuel IH]; intros fuel' c h value H H'.
  - assert (h = 0)%nat as -> by lia. rewrite !Hzero. reflexivity.
  - destruct fuel' as [|fuel'].
    + assert (h = 0)%nat as -> by lia. rewrite !Hzero. reflexivity.
    + cbn [push_heap]. destruct (c !! ((h - 1) / 2)%nat) as [p|]; [|reflexivity].
      destruct ((0 <? h)%nat && (value.1 <? p.1)) eqn:E; [|reflexivity].
      apply andb_true_iff in E as [E _]. apply Nat.ltb_lt in E.
      assert (Hp : ((h - 1) / 2 <= h - 1)%nat)
        by (apply Nat.Div0.div_le_upper_bound; lia).
      apply IH; lia.
Qed.

Lemma sink_hole_enough fuel : ∀ fuel' c len holeIndex,
  (len - holeIndex <= fuel)%nat -> (len - holeIndex <= fuel')%nat ->
  sink_hole fuel c len holeIndex = sink_hole fuel' c len holeIndex.
Proof.
  assert (Hend : ∀ n c len h, (len <= h)%nat -> sink_hole n c len h = (c, h)).
  { intros [|n] c len h Hle; [reflexivity|]. cbn [sink_hole].
    assert (E : (h <? (len - 1) / 2)%nat = false).
    { apply Nat.ltb_ge. apply (Nat.le_trans _ (len - 1)); [|lia].
      apply Nat.Div0.div_le_upper_bound. lia. }
    rewrite E. reflexivity. }
  induction fuel as [|fuel IH]; intros fuel' c len h H H'.
  - rewrite !Hend by lia. reflexivity.
  - destruct fuel' as [|fuel']; [rewrite !Hend by lia; reflexivity|].
    cbn [sink_hole]. destruct (h <? (len - 1) / 2)%nat eqn:E; [|reflexivity].
    apply Nat.ltb_lt in E.
    assert (Hh : ((len - 1) / 2 <= len - 1)%nat)
      by (apply Nat.Div0.div_le_upper_bound; lia).
    destruct (c !! (2 * (h + 1))%nat) as [r|]; [|reflexivity].
    destruct (c !! (2 * (h + 1) - 1)%nat) as [l|]; [|reflexivity].
    destruct (l.1 <? r.1); apply IH; lia.
Qed.

Lemma pq_push_nil x : pq_push x [] = [x].
Proof. reflexivity. Qed.

Lemma pq_pop_singleton x : pq_pop [x] = [].
Proof. reflexivity. Qed.

Lemma length_pq_push x q : length (pq_push x q) = S (length q).
Proof. rewrite pq_push_perm. reflexivity. Qed.

Lemma length_pq_pop x q : length (pq_pop (x :: q)) = length q.
Proof. rewrite pq_pop_perm. reflexivity. Qed.

(** **** The loop of [resolve] reaches its exit condition *)

(** The state an iteration leaves, with the queues as [pq_pop] gives
    them. *)
Ltac stepped :=
  let H := fresh in intros H; apply (inj Some) in H; destruct H.


Lemma resolve_step_shrinks s s' :
  resolve_step s = Some s' ->
  (length (queue_rgb s') + length (queue_depth s') <
   length (queue_rgb s) + length (queue_depth s))%nat.
Proof.
  unfold resolve_step.
  destruct (queue_rgb s) as [|[t1 k1] q1] eqn:E1; [discriminate|].
  destruct (queue_depth s) as [|[t2 k2] q2] eqn:E2; [discriminate|].
  destruct (within_tolerance t1 t2); [|destruct (t1 <? t2)];
    stepped; cbn [queue_rgb queue_depth]; rewrite ?E1, ?E2, ?length_pq_pop;
    cbn [length]; unfold value_type; lia.
Qed.

Lemma resolve_loop_exits fuel : forall s,
  (length (queue_rgb s) + length (queue_depth s) <= fuel)%nat ->
  resolve_step (resolve_loop fuel s) = None.
Proof.
  induction fuel as [|fuel IH]; intros s Hlen; cbn.
  - unfold resolve_step.
    destruct (queue_rgb s) as [|[t1 k1] q1]; [reflexivity|].
    destruct (queue_depth s); [reflexivity|].
    cbn in Hlen. lia.
  - destruct (resolve_step s) as [s'|] eqn:E; [|exact E].
    apply IH. apply resolve_step_shrinks in E. lia.
Qed.

Lemma resolve_exits s : resolve_step (resolve s) = None.
Proof. unfold resolve, while_loop. apply resolve_loop_exits. lia. Qed.

(** **** Queues and maps stay in step *)

Lemma seqs_pq_push x q : seqs (pq_push x q) ≡ₚ x.2 :: seqs q.
Proof. unfold seqs. rewrite pq_push_perm. reflexivity. Qed.

Lemma seqs_pq_pop x q : seqs (pq_pop (x :: q)) ≡ₚ seqs q.
Proof. unfold seqs. rewrite pq_pop_perm. reflexivity. Qed.

Lemma stream_inv_push n n' t img q m :
  stream_inv n q m -> n < n' ->
  0 <= n -> stream_inv n' (pq_push (t, n) q) (<[n := img]> m).
Proof.
  intros (Hnd & Hdom & Hlt) Hn Hn0. unfold stream_inv.
  assert (Hfresh : n ∉ seqs q) by (intros Hin; apply Hlt in Hin; lia).
  split; [|split].
  - rewrite seqs_pq_push. cbn. apply NoDup_cons. split; assumption.
  - intros k. rewrite seqs_pq_push. cbn. rewrite dom_insert.
    rewrite elem_of_cons, elem_of_union, elem_of_singleton, Hdom. reflexivity.
  - intros k. rewrite seqs_pq_push. cbn. rewrite elem_of_cons.
    intros [->|Hin]; [lia|]. apply Hlt in Hin. lia.
Qed.

Lemma stream_inv_pop n t k q m :
  stream_inv n ((t, k) :: q) m -> stream_inv n (pq_pop ((t, k) :: q)) (delete k m).
Proof.
  intros (Hnd & Hdom & Hlt). cbn in Hnd, Hdom, Hlt.
  apply NoDup_cons in Hnd as [Hk Hnd].
  unfold stream_inv. setoid_rewrite seqs_pq_pop.
  split; [exact Hnd|split].
  - intros j. rewrite dom_delete, elem_of_difference, elem_of_singleton, <- Hdom.
    rewrite elem_of_cons. split.
    + intros Hj. split; [right; exact Hj|]. intros ->. contradiction.
    + intros [[->|Hj] Hne]; [contradiction|exact Hj].
  - intros j Hj. apply Hlt. right. exact Hj.
Qed.

Lemma stream_inv_mono n n' q m :
  stream_inv n q m -> n <= n' -> stream_inv n' q m.
Proof.
  intros (Hnd & Hdom & Hlt) Hn. split; [exact Hnd|split; [exact Hdom|]].
  intros k Hk. apply Hlt in Hk. lia.
Qed.

Lemma resolve_step_Inv n s s' : Inv n s -> resolve_step s = Some s' -> Inv n s'.
Proof.
  intros (Hc & Hr & Hd). unfold resolve_step.
  destruct (queue_rgb s) as [|[t1 k1] q1] eqn:E1; [discriminate|].
  destruct (queue_depth s) as [|[t2 k2] q2] eqn:E2; [discriminate|].
  destruct (within_tolerance t1 t2); [|destruct (t1 <? t2)];
    stepped; (split; [exact Hc|]); cbn [queue_rgb queue_depth rgb_map depth_map];
    rewrite ?E1, ?E2; eauto using stream_inv_pop.
Qed.

Lemma resolve_loop_Inv n fuel : forall s, Inv n s -> Inv n (resolve_loop fuel s).
Proof.
  induction fuel as [|fuel IH]; intros s HI; cbn; [exact HI|].
  destruct (resolve_step s) as [s'|] eqn:E; [|exact HI].
  apply IH. eapply resolve_step_Inv; eassumption.
Qed.

Lemma leak_check_Inv n s : Inv n s -> Inv n (leak_check s).
Proof. unfold leak_check. destruct (_ || _); intros HI; exact HI. Qed.

Lemma resolve_Inv n s : Inv n s -> Inv n (resolve s).
Proof. intros HI. unfold resolve, while_loop. apply resolve_loop_Inv, leak_check_Inv, HI. Qed.

Lemma ingest_Inv n s op :
  Inv n s -> 0 <= n -> n + 1 < 2 ^ 32 -> Inv (n + 1) (ingest s op).
Proof.
  intros (Hc & Hr & Hd) Hn0 Hn.
  assert (Hw : wrap_u32 (counter s + 1) = n + 1).
  { unfold wrap_u32. rewrite Hc. apply Z.mod_small. lia. }
  destruct op as [msg|msg]; cbn [ingest]; unfold callback_rgb, callback_depth, store_rgb, store_depth;
    apply resolve_Inv; (split; [exact Hw|]);
    cbn [queue_rgb queue_depth rgb_map depth_map]; rewrite Hc; split.
  all: try (apply stream_inv_push; [assumption|lia|lia]).
  all: eapply stream_inv_mono; [eassumption|lia].
Qed.

Lemma fold_ingest_Inv ops : forall n s,
  Inv n s -> 0 <= n -> n + Z.of_nat (length ops) < 2 ^ 32 ->
  Inv (n + Z.of_nat (length ops)) (fold_left ingest ops s).
Proof.
  induction ops as [|op ops IH]; intros n s HI Hn0 Hn;
    cbn [fold_left length] in Hn |- *.
  - replace (n + Z.of_nat 0) with n by lia. exact HI.
  - replace (n + Z.of_nat (S (length ops))) with (n + 1 + Z.of_nat (length ops)) by lia.
    apply IH; [apply ingest_Inv; [exact HI|lia|lia]|lia|lia].
Qed.

Lemma init_Inv : Inv 0 init.
Proof.
  split; [reflexivity|].
  split; (split; [apply NoDup_nil_2|split]); cbn; intros k;
    rewrite ?dom_empty, ?elem_of_nil; set_solver.
Qed.

Lemma Inv_consistent n s : Inv n s -> consistent s.
Proof.
  intros (Hc & (_ & Hr1 & Hr2) & (_ & Hd1 & Hd2)). unfold consistent.
  split; [|split; [|split]].
  - apply set_eq. intros k. rewrite elem_of_list_to_set. apply Hr1.
  - apply set_eq. intros k. rewrite elem_of_list_to_set. apply Hd1.
  - intros k Hk. apply Hr2 in Hk. lia.
  - intros k Hk. apply Hd2 in Hk. lia.
Qed.

(** **** A frame that waits while the counter wraps *)

Lemma stalled_depth c : callback_depth depth0 (stalled c) = stalled (wrap_u32 (c + 1)).
Proof.
  unfold callback_depth, store_depth, resolve, while_loop, leak_check, stalled.
  cbn [rgb_map depth_map queue_rgb queue_depth counter log].
  rewrite pq_push_nil, insert_empty, !map_size_singleton.
  change ((1000 <? Z.of_nat 1) || (1000 <? Z.of_nat 1)) with false.
  cbn [length queue_rgb queue_depth Nat.add resolve_loop].
  unfold resolve_step at 1.
  cbn [queue_rgb queue_depth rgb_map depth_map counter log].
  change (within_tolerance 1000000000 (stamp_nanoseconds depth0)) with false.
  change (1000000000 <? stamp_nanoseconds depth0) with false.
  cbn iota. rewrite pq_pop_singleton. unfold resolve_step.
  cbn [queue_rgb queue_depth rgb_map depth_map counter log].
  rewrite delete_singleton_eq. reflexivity.
Qed.

Lemma stalled_repeat n : forall c,
  0 <= c < 2 ^ 32 ->
  fold_left ingest (repeat (Depth depth0) n) (stalled c)
  = stalled (wrap_u32 (c + Z.of_nat n)).
Proof.
  induction n as [|n IH]; intros c Hc.
  - cbn [repeat fold_left]. f_equal. unfold wrap_u32.
    rewrite Z.mod_small; lia.
  - cbn [repeat fold_left ingest]. rewrite stalled_depth.
    rewrite IH by (unfold wrap_u32; apply Z.mod_pos_bound; lia).
    f_equal. unfold wrap_u32. rewrite Zplus_mod_idemp_l. f_equal. lia.
Qed.

Lemma run_stalled n :
  run (Rgb color_1s :: repeat (Depth depth0) n) = stalled (wrap_u32 (1 + Z.of_nat n)).
Proof.
  unfold run. cbn [fold_left].
  replace (ingest init (Rgb color_1s)) with (stalled 1) by (vm_compute; reflexivity).
  apply stalled_repeat. lia.
Qed.

(** **** Two small runs *)

Example frames_5ms_apart_are_paired :
  log (run [Rgb color0; Depth depth_5ms]) = [Paired (Some color0) (Some depth_5ms)]
  ∧ rgb_map (run [Rgb color0; Depth depth_5ms]) = ∅
  ∧ depth_map (run [Rgb color0; Depth depth_5ms]) = ∅.
Proof. vm_compute. repeat split; reflexivity. Qed.

Example frames_15ms_apart_drop_the_older :
  log (run [Rgb color0; Depth depth_15ms]) = []
  ∧ queue_rgb (run [Rgb color0; Depth depth_15ms]) = []
  ∧ queue_depth (run [Rgb color0; Depth depth_15ms]) = [(15000000, 1)]
  ∧ rgb_map (run [Rgb color0; Depth depth_15ms]) = ∅.
Proof. vm_compute. repeat split; reflexivity. Qed.

(** Of four colour frames with the same stamp the first to arrive is
    the first to leave, and the third the second: the heap, not the
    order of arrival, decides among equal stamps. *)
Example equal_stamps_leave_in_heap_order :
  queue_rgb (run [Rgb (same_stamp 10); Rgb (same_stamp 11); Rgb (same_stamp 12);
                  Rgb (same_stamp 13)])
  = [(0, 0); (0, 1); (0, 2); (0, 3)]
  ∧ log (run [Rgb (same_stamp 10); Rgb (same_stamp 11); Rgb (same_stamp 12);
              Rgb (same_stamp 13); Depth (same_stamp 20); Depth (same_stamp 21)])
    = [Paired (Some (same_stamp 10)) (Some (same_stamp 20));
       Paired (Some (same_stamp 12)) (Some (same_stamp 21))]
  ∧ queue_rgb (run [Rgb (same_stamp 10); Rgb (same_stamp 11); Rgb (same_stamp 12);
                    Rgb (same_stamp 13); Depth (same_stamp 20); Depth (same_stamp 21)])
    = [(0, 1); (0, 3)].
Proof. vm_compute. repeat split; reflexivity. Qed.

(** **** The claims on the synchronizer *)

(** C2, as stated, fails: two frames stamped exactly 1e7 ns apart (the
    stamps, below 2^53 ns, being kept as they are) are not handed to the
    callback; the older one is dropped. *)
Lemma boundary_difference_not_paired :
  stamp_nanoseconds depth_10ms - stamp_nanoseconds color0
    = acceptable_synchronization_error_nanoseconds
  ∧ log (callback_depth depth_10ms (callback_rgb color0 init)) = []
  ∧ rgb_map (callback_depth depth_10ms (callback_rgb color0 init)) = ∅
  ∧ log (callback_rgb color0 (callback_depth depth_10ms init)) = [].
Proof. vm_compute. repeat split; reflexivity. Qed.

(** C10, as the code has it. After any sequence of fewer than 2^32
    ingest operations on a fresh synchronizer, for each stream the
    counters in the queue are exactly the keys of the image map, and each
    of them is below the shared counter. *)
Theorem consistent_before_wrap (ops : list Ingest) :
  Z.of_nat (length ops) < 2 ^ 32 -> consistent (run ops).
Proof.
  intros Hlen. apply (Inv_consistent (0 + Z.of_nat (length ops))).
  unfold run. apply fold_ingest_Inv; [apply init_Inv|lia|lia].
Qed.

Lemma consistent_before_wrap_witness :
  consistent (run [Rgb color0; Depth depth_15ms; Rgb color_1s]).
Proof.
  apply (consistent_before_wrap [Rgb color0; Depth depth_15ms; Rgb color_1s]).
  vm_compute. reflexivity.
Defined.

(** C10, as stated, fails once the 32-bit counter wraps: after the 2^32
    ingests of [stalled_ops] the counter is 0 again while the colour
    queue still holds the entry with counter 0. *)
Lemma counter_wrap_breaks_consistent : ¬ consistent (run stalled_ops).
Proof.
  unfold stalled_ops. rewrite run_stalled.
  rewrite Z2Nat.id by lia.
  change (wrap_u32 (1 + 4294967295)) with 0.
  intros (_ & _ & Hlt & _).
  specialize (Hlt 0). cbn in Hlt.
  assert (H0 : 0 < 0) by (apply Hlt; apply list_elem_of_here).
  lia.
Qed.

End ImageSyncProofs.

Module BootstrapProofs.
Import Bootstrap.

(** **** Strings and slashes *)

Lemma strip_slash_app_slash s : strip_slash (s +:+ "/") = s.
Proof.
  induction s as [|c s IH]; [reflexivity|].
  change (String c s +:+ "/") with (String c (s +:+ "/")).
  destruct s as [|c' s]; [reflexivity|].
  change (strip_slash (String c (String c' s +:+ "/")))
    with (String c (strip_slash (String c' s +:+ "/"))).
  rewrite IH. reflexivity.
Qed.

Lemma strip_slash_no_trailing s : ends_with_slash s = false -> strip_slash s = s.
Proof.
  induction s as [|c s IH]; [reflexivity|].
  cbn [ends_with_slash strip_slash]. destruct s as [|c' s].
  - intros ->. reflexivity.
  - intros H. rewrite (IH H). reflexivity.
Qed.

Lemma has_double_slash_cons c s :
  has_double_slash (String c s)
  = (Ascii.eqb c "/"%char && starts_with_slash s) || has_double_slash s.
Proof.
  destruct s as [|c' s]; cbn; [|reflexivity].
  rewrite andb_false_r. reflexivity.
Qed.

Lemma starts_with_slash_app a b :
  starts_with_slash (a +:+ b)
  = match a with EmptyString => starts_with_slash b | _ => starts_with_slash a end.
Proof. destruct a; reflexivity. Qed.

Lemma has_double_slash_app a b :
  has_double_slash (a +:+ b)
  = has_double_slash a || has_double_slash b
    || (ends_with_slash a && starts_with_slash b).
Proof.
  induction a as [|c a IH].
  - cbn. rewrite orb_false_r. reflexivity.
  - change (String c a +:+ b) with (String c (a +:+ b)).
    rewrite !has_double_slash_cons, IH, starts_with_slash_app.
    destruct a as [|c' a].
    + cbn. destruct (Ascii.eqb c "/"%char), (starts_with_slash b),
        (has_double_slash b); reflexivity.
    + change (ends_with_slash (String c (String c' a)))
        with (ends_with_slash (String c' a)).
      destruct (Ascii.eqb c "/"%char), (starts_with_slash (String c' a)),
        (has_double_slash (String c' a)), (has_double_slash b),
        (ends_with_slash (String c' a)), (starts_with_slash b); reflexivity.
Qed.

Lemma strip_slash_facts s :
  has_double_slash s = false ->
  has_double_slash (strip_slash s) = false
  ∧ ends_with_slash (strip_slash s) = false
  ∧ starts_with_slash (strip_slash s)
    = match strip_slash s with EmptyString => false | _ => starts_with_slash s end.
Proof.
  induction s as [|c s IH]; [intros _; repeat split|].
  rewrite has_double_slash_cons. intros H.
  apply orb_false_elim in H as [Hc Hs].
  destruct (IH Hs) as (IH1 & IH2 & IH3).
  cbn [strip_slash]. destruct s as [|c' s].
  - destruct (Ascii.eqb c "/"%char) eqn:E; cbn; rewrite ?E; repeat split.
  - rewrite has_double_slash_cons, IH1, orb_false_r.
    destruct (strip_slash (String c' s)) as [|c'' t] eqn:Et.
    + cbn. rewrite andb_false_r.
      assert (Hc' : Ascii.eqb c' "/"%char = true).
      { cbn [strip_slash] in Et. destruct s; [|discriminate].
        destruct (Ascii.eqb c' "/"%char); [reflexivity|discriminate]. }
      cbn in Hc. rewrite Hc' in Hc. rewrite andb_true_r in Hc.
      rewrite Hc. repeat split.
    + rewrite IH3.
      change (ends_with_slash (String c (String c'' t)))
        with (ends_with_slash (String c'' t)).
      rewrite Hc, IH2. repeat split.
Qed.

Lemma strip_slash_empty s :
  strip_slash s = "" -> s = "" ∨ s = "/".
Proof.
  destruct s as [|c s]; [left; reflexivity|].
  cbn [strip_slash]. destruct s as [|c' s]; [|discriminate].
  destruct (Ascii.eqb c "/"%char) eqn:E; [|discriminate].
  apply Ascii.eqb_eq in E. subst c. right. reflexivity.
Qed.

Lemma nonempty_true s : nonempty s = true <-> s ≠ "".
Proof.
  unfold nonempty. rewrite negb_true_iff. split.
  - intros H ->. discriminate.
  - intros H. apply String.eqb_neq. exact H.
Qed.

Lemma nonempty_false s : nonempty s = false <-> s = "".
Proof.
  unfold nonempty. rewrite negb_false_iff. apply String.eqb_eq.
Qed.

(** **** Composition of [REGISTRY] *)

Lemma no_double_slash_joined a b :
  has_double_slash a = false -> has_double_slash b = false ->
  starts_with_slash b = false -> b ≠ "" ->
  has_double_slash (strip_slash a +:+ "/" +:+ strip_slash b +:+ "/") = false.
Proof.
  intros Ha Hb Hsb Hne.
  destruct (strip_slash_facts a Ha) as (A1 & A2 & _).
  destruct (strip_slash_facts b Hb) as (B1 & B2 & B3).
  rewrite has_double_slash_app, A1, A2. cbn [orb andb].
  change ("/" +:+ strip_slash b +:+ "/") with (String "/" (strip_slash b +:+ "/")).
  rewrite has_double_slash_cons, has_double_slash_app, B1, B2.
  rewrite starts_with_slash_app, B3, Hsb.
  destruct (strip_slash b) eqn:Eb; [|reflexivity].
  apply strip_slash_empty in Eb as [->| ->]; [contradiction|discriminate].
Qed.

Lemma no_double_slash_single a :
  has_double_slash a = false ->
  has_double_slash (strip_slash a +:+ "/") = false.
Proof.
  intros Ha. destruct (strip_slash_facts a Ha) as (A1 & A2 & _).
  rewrite has_double_slash_app, A1, A2. reflexivity.
Qed.

(** The four branches of lines 83-95: both values non-empty give
    url/project/, one non-empty gives that value followed by a slash, both
    empty give the empty string; taking the slash off removes exactly one
    trailing slash and leaves a value without one as it is. The result
    holds no doubled slash provided neither value holds one and the
    project name does not begin with a slash. *)
Lemma compose_registry_branches (registry_url project_name : string) :
  let registry := RoutePlanning.compose_registry registry_url project_name in
  (registry_url ≠ "" -> project_name ≠ "" ->
     registry = strip_slash registry_url +:+ "/" +:+ strip_slash project_name +:+ "/")
  ∧ (registry_url ≠ "" -> project_name = "" ->
     registry = strip_slash registry_url +:+ "/")
  ∧ (registry_url = "" -> project_name ≠ "" ->
     registry = strip_slash project_name +:+ "/")
  ∧ (registry_url = "" -> project_name = "" -> registry = "")
  ∧ (∀ s, strip_slash (s +:+ "/") = s)
  ∧ (∀ s, ends_with_slash s = false -> strip_slash s = s)
  ∧ (has_double_slash registry_url = false ->
     has_double_slash project_name = false ->
     starts_with_slash project_name = false ->
     has_double_slash registry = false).
Proof.
  intros registry. subst registry. unfold RoutePlanning.compose_registry.
  destruct (nonempty registry_url) eqn:Eu, (nonempty project_name) eqn:Ep;
    cbn [andb];
    rewrite ?nonempty_true, ?nonempty_false in Eu;
    rewrite ?nonempty_true, ?nonempty_false in Ep.
  all: repeat split; try congruence;
    auto using strip_slash_app_slash, strip_slash_no_trailing,
      no_double_slash_joined, no_double_slash_single.
Qed.

(** **** What the commands do to one variable *)

Lemma acts_assign_other x y e : x ≠ y -> acts x id (assign y e).
Proof. intros Hne sh. cbn. apply lookup_insert_ne. congruence. Qed.

Lemma acts_export_other x y e : x ≠ y -> acts x id (export y e).
Proof. intros Hne sh. cbn. apply lookup_insert_ne. congruence. Qed.

Lemma acts_export_default_self x d :
  acts x (λ o, Some (or_default d o)) (export_default x d).
Proof. intros sh. cbn. apply lookup_insert_eq. Qed.

Lemma acts_when x c cmd : acts x id cmd -> acts x id (when c cmd).
Proof. intros H sh. unfold when. destruct (c sh); [apply H|reflexivity]. Qed.

Lemma acts_run_nil x : acts x id (run_cmds []).
Proof. intros sh. reflexivity. Qed.

Lemma acts_run_cons x f g cmd cmds :
  acts x f cmd -> acts x g (run_cmds cmds) ->
  acts x (λ o, g (f o)) (run_cmds (cmd :: cmds)).
Proof.
  intros Hf Hg sh. change (run_cmds (cmd :: cmds) sh) with (run_cmds cmds (cmd sh)).
  rewrite Hg, Hf. reflexivity.
Qed.

Lemma run_cmds_app l1 l2 sh : run_cmds (l1 ++ l2) sh = run_cmds l2 (run_cmds l1 sh).
Proof. unfold run_cmds. apply fold_left_app. Qed.

Lemma cmd_mono_assign y e : cmd_mono (assign y e).
Proof. intros sh. reflexivity. Qed.

Lemma cmd_mono_export y e : cmd_mono (export y e).
Proof. intros sh. cbn. set_solver. Qed.

Lemma cmd_mono_when c cmd : cmd_mono cmd -> cmd_mono (when c cmd).
Proof. intros H sh. unfold when. destruct (c sh); [apply H|reflexivity]. Qed.

Lemma cmd_mono_run cmds : Forall cmd_mono cmds -> cmd_mono (run_cmds cmds).
Proof.
  induction 1 as [|cmd cmds Hc _ IH]; intros sh; [reflexivity|].
  change (run_cmds (cmd :: cmds) sh) with (run_cmds cmds (cmd sh)).
  etrans; [apply Hc|apply IH].
Qed.

Lemma exported_here x e cmds sh :
  Forall cmd_mono cmds -> x ∈ exported (run_cmds (export x e :: cmds) sh).
Proof.
  intros Hm. change (run_cmds (export x e :: cmds) sh)
    with (run_cmds cmds (export x e sh)).
  apply (cmd_mono_run cmds Hm). cbn. set_solver.
Qed.

Lemma exported_later x cmd cmds sh :
  x ∈ exported (run_cmds cmds (cmd sh)) -> x ∈ exported (run_cmds (cmd :: cmds) sh).
Proof. intros H. exact H. Qed.

Ltac solve_mono :=
  lazymatch goal with
  | |- cmd_mono (assign _ _) => apply cmd_mono_assign
  | |- cmd_mono (export _ _) => apply cmd_mono_export
  | |- cmd_mono (export_default _ _) => apply cmd_mono_export
  | |- cmd_mono (when _ _) => apply cmd_mono_when; solve_mono
  | |- cmd_mono (run_cmds _) =>
      apply cmd_mono_run; repeat (apply Forall_cons; split); try apply Forall_nil_2;
      solve_mono
  | |- cmd_mono Intersection.gpu_adjustment =>
      unfold Intersection.gpu_adjustment; solve_mono
  end.

Ltac solve_acts :=
  lazymatch goal with
  | |- acts _ _ (assign _ _) => apply acts_assign_other; done
  | |- acts ?x _ (export_default ?x _) => apply acts_export_default_self
  | |- acts _ _ (export_default _ _) => apply acts_export_other; done
  | |- acts _ _ (export _ _) => apply acts_export_other; done
  | |- acts _ _ (when _ _) => apply acts_when; solve_acts
  | |- acts _ _ Intersection.gpu_adjustment =>
      unfold Intersection.gpu_adjustment; solve_acts
  | |- acts _ _ (run_cmds []) => apply acts_run_nil
  | |- acts _ _ (run_cmds (_ :: _)) =>
      eapply acts_run_cons; [solve_acts|solve_acts]
  end.

Ltac solve_exported :=
  first [ apply exported_here;
          repeat (apply Forall_cons; split); try apply Forall_nil_2; solve_mono
        | apply exported_later; solve_exported ].

Lemma acts_ext x f g cmd : acts x f cmd -> (∀ o, f o = g o) -> acts x g cmd.
Proof. intros H Hfg sh. rewrite H. apply Hfg. Qed.

Ltac solve_member :=
  repeat first [apply list_elem_of_here | apply list_elem_of_further].

Ltac each_default Hin :=
  repeat (apply elem_of_cons in Hin as [[= -> ->]|Hin]);
  [..|apply elem_of_nil in Hin; contradiction].

(** **** smart-route-planning-agent *)

Lemma route_reached args h sh :
  RoutePlanning.reaches_exports args = true ->
  (RoutePlanning.setup args h sh).2
  = run_cmds (RoutePlanning.exports h) (run_cmds RoutePlanning.preamble sh).
Proof.
  unfold RoutePlanning.reaches_exports, RoutePlanning.setup.
  destruct args as [|verb [|? ?]]; try discriminate.
  intros H. apply negb_true_iff in H. rewrite H. reflexivity.
Qed.

Lemma route_turned_away args h sh :
  RoutePlanning.reaches_exports args = false ->
  (RoutePlanning.setup args h sh).2 = run_cmds RoutePlanning.preamble sh.
Proof.
  unfold RoutePlanning.reaches_exports, RoutePlanning.setup.
  destruct args as [|verb [|? ?]]; [reflexivity| |].
  - intros H. apply negb_false_iff in H. rewrite H. reflexivity.
  - intros _. destruct (String.eqb verb "help"); reflexivity.
Qed.

Lemma route_defaults x d h :
  (x, d) ∈ RoutePlanning.defaults ->
  acts x id (run_cmds RoutePlanning.preamble)
  ∧ acts x (λ o, Some (or_default d o)) (run_cmds (RoutePlanning.exports h))
  ∧ (∀ sh, x ∈ exported (run_cmds (RoutePlanning.exports h) sh)).
Proof.
  intros Hin. unfold RoutePlanning.defaults in Hin.
  unfold RoutePlanning.preamble, colour_codes, RoutePlanning.exports.
  cbn [app].
  each_default Hin.
  all: split; [eapply acts_ext; [solve_acts|intros o; reflexivity]|].
  all: split; [eapply acts_ext; [solve_acts|intros o; reflexivity]|].
  all: intros sh; unfold export_default; solve_exported.
Qed.

(** **** smart-traffic-intersection-agent *)

Lemma intersection_reached args h sh :
  Intersection.reaches_exports args h = true ->
  (Intersection.setup args h sh).2
  = run_cmds (Intersection.exports h)
      (run_cmds (Intersection.host_ip h) (run_cmds colour_codes sh)).
Proof.
  unfold Intersection.reaches_exports, Intersection.setup.
  destruct (Intersection.rejected args); [discriminate|].
  destruct args as [|o rest]; [discriminate|].
  intros H. apply andb_true_iff in H as [H Hp].
  apply andb_true_iff in H as [Hs Hc].
  apply negb_true_iff in Hs, Hc. rewrite Hs, Hc.
  apply orb_true_iff in Hp as [Hp|Hp]; rewrite Hp; cbn [negb andb];
    rewrite ?andb_false_r; reflexivity.
Qed.

Lemma intersection_turned_away x d args h sh :
  (x, d) ∈ Intersection.defaults ->
  Intersection.reaches_exports args h = false ->
  vars (Intersection.setup args h sh).2 !! x = vars sh !! x.
Proof.
  intros Hin Hr.
  assert (Hcol : acts x id (run_cmds colour_codes)
                 ∧ acts x id (run_cmds (Intersection.host_ip h))
                 ∧ acts x id (assign "EDGE_AI_SUITES_DIR" (lit "edge-ai-suites"))).
  { unfold Intersection.defaults in Hin.
    unfold colour_codes, Intersection.host_ip.
    each_default Hin.
    all: split; [eapply acts_ext; [solve_acts|intros o; reflexivity]|].
    all: split; [eapply acts_ext; [solve_acts|intros o; reflexivity]|].
    all: solve_acts. }
  destruct Hcol as (Hcol & Hip & Hed).
  revert Hr. unfold Intersection.reaches_exports, Intersection.setup.
  destruct (Intersection.rejected args) as [status|]; [intros _; apply Hcol|].
  destruct args as [|o rest]; [intros _; apply Hcol|].
  destruct (String.eqb o "--stop").
  { intros _. cbn [snd]. destruct (down_ok h); [rewrite Hed|]; apply Hcol. }
  destruct (String.eqb o "--clean").
  { intros _. cbn [snd]. rewrite Hed. apply Hcol. }
  cbn [negb andb]. intros Hp. apply orb_false_iff in Hp as [Hp1 Hp2].
  rewrite Hp1, Hp2. cbn [negb andb snd]. rewrite Hip. apply Hcol.
Qed.

Lemma intersection_defaults x d h :
  (x, d) ∈ Intersection.defaults ->
  Intersection.gpu_forced x = false ->
  acts x (λ o, Some (or_default d o))
       (λ sh, run_cmds (Intersection.exports h)
                (run_cmds (Intersection.host_ip h) (run_cmds colour_codes sh)))
  ∧ (∀ sh, x ∈ exported (run_cmds (Intersection.exports h) sh)).
Proof.
  intros Hin Hg. unfold Intersection.defaults in Hin.
  assert (Hother : acts x id (run_cmds colour_codes)
                   ∧ acts x id (run_cmds (Intersection.host_ip h))
                   ∧ acts x (λ o, Some (or_default d o))
                       (run_cmds (Intersection.exports h))
                   ∧ (∀ sh, x ∈ exported (run_cmds (Intersection.exports h) sh))).
  { unfold colour_codes, Intersection.host_ip, Intersection.exports,
      Intersection.exports_before_gpu, Intersection.exports_after_gpu.
    cbn [app].
    each_default Hin; try discriminate Hg.
    all: split; [eapply acts_ext; [solve_acts|intros o; reflexivity]|].
    all: split; [eapply acts_ext; [solve_acts|intros o; reflexivity]|].
    all: split; [eapply acts_ext; [solve_acts|intros o; reflexivity]|].
    all: intros sh; unfold export_default; solve_exported. }
  destruct Hother as (Hcol & Hip & Hex & Hexp).
  split; [|exact Hexp].
  intros sh. rewrite Hex, Hip, Hcol. reflexivity.
Qed.

Lemma intersection_device h sh :
  value (run_cmds (Intersection.exports_before_gpu h)
           (run_cmds (Intersection.host_ip h) (run_cmds colour_codes sh)))
        "VLM_DEVICE"
  = value_or sh "VLM_DEVICE" "CPU".
Proof.
  assert (H : acts "VLM_DEVICE" (λ o, Some (or_default "CPU" o))
                (λ sh, run_cmds (Intersection.exports_before_gpu h)
                         (run_cmds (Intersection.host_ip h)
                            (run_cmds colour_codes sh)))).
  { assert (H1 : acts "VLM_DEVICE" id (run_cmds colour_codes))
      by (unfold colour_codes; eapply acts_ext; [solve_acts|intros o; reflexivity]).
    assert (H2 : acts "VLM_DEVICE" id (run_cmds (Intersection.host_ip h)))
      by (unfold Intersection.host_ip;
          eapply acts_ext; [solve_acts|intros o; reflexivity]).
    assert (H3 : acts "VLM_DEVICE" (λ o, Some (or_default "CPU" o))
                   (run_cmds (Intersection.exports_before_gpu h)))
      by (unfold Intersection.exports_before_gpu;
          eapply acts_ext; [solve_acts|intros o; reflexivity]).
    intros sh'. rewrite H3, H2, H1. reflexivity. }
  unfold value, value_or. rewrite (H sh). reflexivity.
Qed.

Lemma intersection_split h sh :
  run_cmds (Intersection.exports h) sh
  = run_cmds Intersection.exports_after_gpu
      (Intersection.gpu_adjustment
         (run_cmds (Intersection.exports_before_gpu h) sh)).
Proof. unfold Intersection.exports. rewrite !run_cmds_app. reflexivity. Qed.

Lemma intersection_forced x d h sh :
  (x, d) ∈ Intersection.defaults ->
  Intersection.gpu_forced x = true ->
  value_or sh "VLM_DEVICE" "CPU" ≠ "GPU" ->
  let out := run_cmds (Intersection.exports h)
               (run_cmds (Intersection.host_ip h) (run_cmds colour_codes sh)) in
  vars out !! x = Some (or_default d (vars sh !! x)) ∧ x ∈ exported out.
Proof.
  intros Hin Hg Hdev out. subst out. rewrite intersection_split.
  assert (Hskip : ∀ s, value s "VLM_DEVICE" = value_or sh "VLM_DEVICE" "CPU" ->
                       Intersection.gpu_adjustment s = s).
  { intros s Hs. unfold Intersection.gpu_adjustment, when. rewrite Hs.
    apply String.eqb_neq in Hdev. rewrite Hdev. reflexivity. }
  rewrite Hskip by apply intersection_device. clear Hskip.
  unfold Intersection.defaults in Hin.
  assert (H : acts x id (run_cmds colour_codes)
              ∧ acts x id (run_cmds (Intersection.host_ip h))
              ∧ acts x (λ o, Some (or_default d o))
                  (run_cmds (Intersection.exports_before_gpu h))
              ∧ acts x id (run_cmds Intersection.exports_after_gpu)
              ∧ (∀ sh, x ∈ exported (run_cmds (Intersection.exports_before_gpu h) sh))
              ∧ cmd_mono (run_cmds Intersection.exports_after_gpu)).
  { unfold colour_codes, Intersection.host_ip, Intersection.exports_before_gpu,
      Intersection.exports_after_gpu.
    each_default Hin; try discriminate Hg.
    all: split; [eapply acts_ext; [solve_acts|intros o; reflexivity]|].
    all: split; [eapply acts_ext; [solve_acts|intros o; reflexivity]|].
    all: split; [eapply acts_ext; [solve_acts|intros o; reflexivity]|].
    all: split; [eapply acts_ext; [solve_acts|intros o; reflexivity]|].
    all: split; [intros sh'; unfold export_default; solve_exported|].
    all: solve_mono. }
  destruct H as (H1 & H2 & H3 & H4 & H5 & H6).
  split.
  - rewrite H4, H3, H2, H1. reflexivity.
  - apply H6, H5.
Qed.

Lemma intersection_gpu h sh :
  value_or sh "VLM_DEVICE" "CPU" = "GPU" ->
  let out := run_cmds (Intersection.exports h)
               (run_cmds (Intersection.host_ip h) (run_cmds colour_codes sh)) in
  vars out !! "VLM_WORKERS" = Some "1"
  ∧ vars out !! "VLM_COMPRESSION_WEIGHT_FORMAT" = Some "int4".
Proof.
  intros Hdev out. subst out. rewrite intersection_split.
  assert (Hforce : ∀ s, value s "VLM_DEVICE" = "GPU" ->
            Intersection.gpu_adjustment s
            = export "VLM_WORKERS" (lit "1")
                (export "VLM_COMPRESSION_WEIGHT_FORMAT" (lit "int4") s)).
  { intros s Hs. unfold Intersection.gpu_adjustment, when. rewrite Hs. reflexivity. }
  rewrite Hforce by (rewrite intersection_device; exact Hdev). clear Hforce.
  assert (H1 : acts "VLM_WORKERS" id (run_cmds Intersection.exports_after_gpu))
    by (unfold Intersection.exports_after_gpu;
        eapply acts_ext; [solve_acts|intros o; reflexivity]).
  assert (H2 : acts "VLM_COMPRESSION_WEIGHT_FORMAT" id
                 (run_cmds Intersection.exports_after_gpu))
    by (unfold Intersection.exports_after_gpu;
        eapply acts_ext; [solve_acts|intros o; reflexivity]).
  rewrite H1, H2. unfold id, export, lit. cbn [vars]. split.
  - apply lookup_insert_eq.
  - rewrite lookup_insert_ne by done. apply lookup_insert_eq.
Qed.

(** **** The claims on the bootstrap scripts *)

(** C6, as the code has it. An invocation of the intersection-agent
    script that runs the export section exports [VLM_WORKERS] as 1 when
    the variable was unset: the default of line 283 is 1. With
    [VLM_DEVICE] being GPU it exports 1 whatever was set, and the weight
    format int4. *)
Theorem vlm_workers_unset_exports_one args h sh :
  Intersection.reaches_exports args h = true ->
  let out := (Intersection.setup args h sh).2 in
  (vars sh !! "VLM_WORKERS" = None -> vars out !! "VLM_WORKERS" = Some "1")
  ∧ (value_or sh "VLM_DEVICE" "CPU" = "GPU" ->
     vars out !! "VLM_WORKERS" = Some "1"
     ∧ vars out !! "VLM_COMPRESSION_WEIGHT_FORMAT" = Some "int4").
Proof.
  intros Hr out. subst out. rewrite (intersection_reached _ _ _ Hr).
  split; [|apply intersection_gpu].
  intros Hunset.
  destruct (String.eqb (value_or sh "VLM_DEVICE" "CPU") "GPU") eqn:E.
  - apply String.eqb_eq in E. apply (intersection_gpu h sh E).
  - apply String.eqb_neq in E.
    destruct (intersection_forced "VLM_WORKERS" "1" h sh) as [Hv _];
      [unfold Intersection.defaults; solve_member|reflexivity|exact E|].
    rewrite Hv, Hunset. reflexivity.
Qed.

Lemma vlm_workers_unset_exports_one_witness :
  vars (Intersection.setup ["--setenv"] sample_host fresh_shell).2 !! "VLM_WORKERS"
  = Some "1".
Proof.
  destruct (vlm_workers_unset_exports_one ["--setenv"] sample_host fresh_shell)
    as [Hunset _].
  - reflexivity.
  - apply Hunset. reflexivity.
Defined.

(** C6, as stated, fails: with [VLM_WORKERS] and [VLM_DEVICE] unset the
    script exports [VLM_WORKERS] as 1, not as 4. *)
Lemma vlm_workers_default_is_not_four :
  vars fresh_shell !! "VLM_WORKERS" = None
  ∧ vars fresh_shell !! "VLM_DEVICE" = None
  ∧ Intersection.reaches_exports ["--setenv"] sample_host = true
  ∧ vars (Intersection.setup ["--setenv"] sample_host fresh_shell).2 !! "VLM_WORKERS"
    = Some "1"
  ∧ vars (Intersection.setup ["--setenv"] sample_host fresh_shell).2 !! "VLM_WORKERS"
    ≠ Some "4".
Proof.
  assert (H : vars (Intersection.setup ["--setenv"] sample_host fresh_shell).2
                !! "VLM_WORKERS" = Some "1").
  { rewrite (intersection_reached ["--setenv"] sample_host fresh_shell eq_refl).
    destruct (intersection_forced "VLM_WORKERS" "1" sample_host fresh_shell) as [Hv _];
      [unfold Intersection.defaults; solve_member|reflexivity|discriminate|].
    rewrite Hv. reflexivity. }
  split; [reflexivity|]. split; [reflexivity|]. split; [reflexivity|].
  split; [exact H|]. rewrite H. discriminate.
Qed.

(** C7, as the code has it. For either script and every variable it
    gives a default: an invocation that runs the export section exports
    the variable with the value it had when that value is set and not
    empty, and with the default when it is unset or set to the empty
    string; an invocation turned away earlier leaves the variable as it
    was. In the intersection-agent script this holds for
    [VLM_WORKERS] and [VLM_COMPRESSION_WEIGHT_FORMAT] when [VLM_DEVICE]
    is not GPU. *)
Theorem defaults_keep_nonempty_values x d args h sh :
  ((x, d) ∈ RoutePlanning.defaults ->
     let out := (RoutePlanning.setup args h sh).2 in
     (RoutePlanning.reaches_exports args = true ->
        x ∈ exported out
        ∧ (∀ v, vars sh !! x = Some v -> v ≠ "" -> vars out !! x = Some v)
        ∧ (vars sh !! x = None ∨ vars sh !! x = Some "" -> vars out !! x = Some d))
     ∧ (RoutePlanning.reaches_exports args = false ->
        vars out !! x = vars sh !! x))
  ∧ ((x, d) ∈ Intersection.defaults ->
     let out := (Intersection.setup args h sh).2 in
     (Intersection.reaches_exports args h = true ->
      (Intersection.gpu_forced x = true -> value_or sh "VLM_DEVICE" "CPU" ≠ "GPU") ->
        x ∈ exported out
        ∧ (∀ v, vars sh !! x = Some v -> v ≠ "" -> vars out !! x = Some v)
        ∧ (vars sh !! x = None ∨ vars sh !! x = Some "" -> vars out !! x = Some d))
     ∧ (Intersection.reaches_exports args h = false ->
        vars out !! x = vars sh !! x)).
Proof.
  assert (Hcases : ∀ out : Shell,
            vars out !! x = Some (or_default d (vars sh !! x)) ->
            (∀ v, vars sh !! x = Some v -> v ≠ "" -> vars out !! x = Some v)
            ∧ (vars sh !! x = None ∨ vars sh !! x = Some "" -> vars out !! x = Some d)).
  { intros out Hout. split.
    - intros v Hv Hne. rewrite Hout, Hv. cbn.
      apply String.eqb_neq in Hne. rewrite Hne. reflexivity.
    - intros [Hv|Hv]; rewrite Hout, Hv; reflexivity. }
  split; intros Hin out; subst out; split.
  - intros Hr. rewrite (route_reached _ _ _ Hr).
    destruct (route_defaults x d h Hin) as (Hpre & Hexp & Hmark).
    split; [apply Hmark|]. apply Hcases. rewrite Hexp, Hpre. reflexivity.
  - intros Hr. rewrite (route_turned_away _ _ _ Hr).
    destruct (route_defaults x d h Hin) as (Hpre & _). apply Hpre.
  - intros Hr Hgpu. rewrite (intersection_reached _ _ _ Hr).
    destruct (Intersection.gpu_forced x) eqn:Eg.
    + destruct (intersection_forced x d h sh Hin Eg (Hgpu eq_refl)) as [Hv He].
      split; [exact He|]. apply Hcases. exact Hv.
    + destruct (intersection_defaults x d h Hin Eg) as [Hv He].
      split; [apply He|]. apply Hcases. apply Hv.
  - intros Hr. apply (intersection_turned_away x d); assumption.
Qed.

Lemma defaults_keep_nonempty_values_witness :
  vars (RoutePlanning.setup ["up"] sample_host (shell_with "LOG_LEVEL" "DEBUG")).2
    !! "LOG_LEVEL" = Some "DEBUG"
  ∧ vars (Intersection.setup ["--run"] sample_host (shell_with "LOG_LEVEL" "DEBUG")).2
      !! "LOG_LEVEL" = Some "DEBUG".
Proof.
  assert (Hset : vars (shell_with "LOG_LEVEL" "DEBUG") !! "LOG_LEVEL" = Some "DEBUG")
    by (vm_compute; reflexivity).
  assert (Hne : "DEBUG" ≠ "") by discriminate.
  assert (HinR : ("LOG_LEVEL", "INFO") ∈ RoutePlanning.defaults)
    by (unfold RoutePlanning.defaults; solve_member).
  assert (HinI : ("LOG_LEVEL", "INFO") ∈ Intersection.defaults)
    by (unfold Intersection.defaults; solve_member).
  destruct (defaults_keep_nonempty_values "LOG_LEVEL" "INFO" ["up"] sample_host
              (shell_with "LOG_LEVEL" "DEBUG")) as [HR _].
  destruct (defaults_keep_nonempty_values "LOG_LEVEL" "INFO" ["--run"] sample_host
              (shell_with "LOG_LEVEL" "DEBUG")) as [_ HI].
  destruct (HR HinR) as [HR1 _].
  destruct (HI HinI) as [HI1 _].
  destruct (HR1 eq_refl) as (_ & HRv & _).
  assert (Hgpu : Intersection.gpu_forced "LOG_LEVEL" = true ->
                 value_or (shell_with "LOG_LEVEL" "DEBUG") "VLM_DEVICE" "CPU" ≠ "GPU")
    by (intros Hf; discriminate Hf).
  destruct (HI1 eq_refl Hgpu) as (_ & HIv & _).
  split.
  - exact (HRv "DEBUG" Hset Hne).
  - exact (HIv "DEBUG" Hset Hne).
Defined.

(** C7, as stated, fails: [LOG_LEVEL] set to the empty string is
    replaced by INFO in both scripts, and eight workers asked for on a
    GPU become one. *)
Lemma set_values_replaced :
  vars (shell_with "LOG_LEVEL" "") !! "LOG_LEVEL" = Some ""
  ∧ vars (RoutePlanning.setup ["up"] sample_host (shell_with "LOG_LEVEL" "")).2
      !! "LOG_LEVEL" = Some "INFO"
  ∧ vars (Intersection.setup ["--run"] sample_host (shell_with "LOG_LEVEL" "")).2
      !! "LOG_LEVEL" = Some "INFO"
  ∧ vars gpu_shell !! "VLM_WORKERS" = Some "8"
  ∧ vars (Intersection.setup ["--run"] sample_host gpu_shell).2
      !! "VLM_WORKERS" = Some "1".
Proof. repeat split; vm_compute; reflexivity. Qed.

End BootstrapProofs.

Module UIProofs.
Import UI.

(** **** [resetFlow] *)

(** C9. [resetFlow] leaves [hasAudioDevices], [audioDevicesLoading],
    [frontCamera], [backCamera] and [boardCamera] as they were; every
    other field gets its value of [initialState], except the two status
    fields, which are derived from the preserved fields: the audio status
    is checking while the device probe runs, else ready with a microphone
    and no-devices without; the video status is ready when a camera is
    configured and no-config otherwise. *)
Theorem resetFlow_preserves_devices (state : UIState) :
  frontCamera (resetFlow state) = frontCamera state
  ∧ backCamera (resetFlow state) = backCamera state
  ∧ boardCamera (resetFlow state) = boardCamera state
  ∧ hasAudioDevices (resetFlow state) = hasAudioDevices state
  ∧ audioDevicesLoading (resetFlow state) = audioDevicesLoading state
  ∧ aiProcessing (resetFlow state) = aiProcessing initialState
  ∧ summaryEnabled (resetFlow state) = summaryEnabled initialState
  ∧ summaryLoading (resetFlow state) = summaryLoading initialState
  ∧ mindmapEnabled (resetFlow state) = mindmapEnabled initialState
  ∧ mindmapLoading (resetFlow state) = mindmapLoading initialState
  ∧ activeTab (resetFlow state) = activeTab initialState
  ∧ autoSwitched (resetFlow state) = autoSwitched initialState
  ∧ autoSwitchedToMindmap (resetFlow state) = autoSwitchedToMindmap initialState
  ∧ sessionId (resetFlow state) = sessionId initialState
  ∧ videoSessionId (resetFlow state) = videoSessionId initialState
  ∧ uploadedAudioPath (resetFlow state) = uploadedAudioPath initialState
  ∧ shouldStartSummary (resetFlow state) = shouldStartSummary initialState
  ∧ shouldStartMindmap (resetFlow state) = shouldStartMindmap initialState
  ∧ projectLocation (resetFlow state) = projectLocation initialState
  ∧ frontCameraStream (resetFlow state) = frontCameraStream initialState
  ∧ backCameraStream (resetFlow state) = backCameraStream initialState
  ∧ boardCameraStream (resetFlow state) = boardCameraStream initialState
  ∧ activeStream (resetFlow state) = activeStream initialState
  ∧ videoAnalyticsLoading (resetFlow state) = videoAnalyticsLoading initialState
  ∧ videoAnalyticsActive (resetFlow state) = videoAnalyticsActive initialState
  ∧ processingMode (resetFlow state) = processingMode initialState
  ∧ isRecording (resetFlow state) = isRecording initialState
  ∧ justStoppedRecording (resetFlow state) = justStoppedRecording initialState
  ∧ videoAnalyticsStopping (resetFlow state) = videoAnalyticsStopping initialState
  ∧ hasUploadedVideoFiles (resetFlow state) = hasUploadedVideoFiles initialState
  ∧ audioStatus (resetFlow state)
    = (if audioDevicesLoading state then AudioStatus.checking
       else if hasAudioDevices state then AudioStatus.ready
       else AudioStatus.no_devices)
  ∧ videoStatus (resetFlow state)
    = (if truthy (trim (frontCamera state)) || truthy (trim (backCamera state))
          || truthy (trim (boardCamera state))
       then VideoStatus.ready else VideoStatus.no_config).
Proof. repeat split. Qed.

(** **** The record control *)

Lemma no_video_capability (v : Header.View) :
  Header.hasVideoCapability v = false
  <-> trim (frontCamera (Header.ui v)) = ""
      ∧ trim (backCamera (Header.ui v)) = ""
      ∧ trim (boardCamera (Header.ui v)) = ""
      ∧ hasUploadedVideoFiles (Header.ui v) = false.
Proof.
  unfold Header.hasVideoCapability, truthy.
  rewrite !orb_false_iff, !negb_false_iff, !String.eqb_eq. tauto.
Qed.

Lemma video_capability (v : Header.View) :
  trim (frontCamera (Header.ui v)) ≠ ""
  ∨ trim (backCamera (Header.ui v)) ≠ ""
  ∨ trim (boardCamera (Header.ui v)) ≠ ""
  ∨ hasUploadedVideoFiles (Header.ui v) = true ->
  Header.hasVideoCapability v = true.
Proof.
  intros H. destruct (Header.hasVideoCapability v) eqn:E; [reflexivity|].
  apply no_video_capability in E as (Hf & Hb & Hc & Hu).
  destruct H as [H|[H|[H|H]]]; congruence.
Qed.

(** C5. While no recording is in progress: without audio devices and
    without video capability (no front, back or board camera configured,
    a setting of white space only counting as none, and no uploaded
    video files) the record control is disabled, and a click on it does
    nothing; with a microphone, a camera setting that is not blank or
    uploaded video files, and none of the other disabling conditions in
    flight (device probe, processing, transcript streaming, summary
    loading, a mind-map enabled but not ready, video analytics stopping
    or starting), it is enabled. *)
Theorem record_control_needs_a_source (v : Header.View) :
  isRecording (Header.ui v) = false ->
  (hasAudioDevices (Header.ui v) = false ->
   trim (frontCamera (Header.ui v)) = "" ->
   trim (backCamera (Header.ui v)) = "" ->
   trim (boardCamera (Header.ui v)) = "" ->
   hasUploadedVideoFiles (Header.ui v) = false ->
     Header.isRecordingDisabled v = true
     ∧ ∀ b w, Header.handleRecordingToggle b v w = (Returned (), w))
  ∧ (hasAudioDevices (Header.ui v) = true
     ∨ trim (frontCamera (Header.ui v)) ≠ ""
     ∨ trim (backCamera (Header.ui v)) ≠ ""
     ∨ trim (boardCamera (Header.ui v)) ≠ ""
     ∨ hasUploadedVideoFiles (Header.ui v) = true ->
     audioDevicesLoading (Header.ui v) = false ->
     aiProcessing (Header.ui v) = false ->
     Header.transcriptStatus v ≠ "streaming" ->
     summaryLoading (Header.ui v) = false ->
     (mindmapEnabled (Header.ui v) = false
      ∨ (mindmapLoading (Header.ui v) = false
         ∧ Header.isLoading (Header.mindmapState v) = false
         ∧ truthy_opt (Header.finalText (Header.mindmapState v)) = true)) ->
     videoAnalyticsStopping (Header.ui v) = false ->
     videoAnalyticsLoading (Header.ui v) = false ->
     Header.isRecordingDisabled v = false).
Proof.
  intros Hrec. split.
  - intros Hmic Hf Hb Hc Hu.
    assert (Hcap : Header.hasVideoCapability v = false)
      by (apply no_video_capability; auto).
    assert (Hdis : Header.isRecordingDisabled v = true).
    { unfold Header.isRecordingDisabled, Header.hasNothingToRecord.
      rewrite Hrec, Hmic, Hcap. cbn [negb andb].
      rewrite orb_true_r. reflexivity. }
    split; [exact Hdis|].
    intros b w. unfold Header.handleRecordingToggle. rewrite Hdis. reflexivity.
  - intros Hsrc Hprobe Hbusy Hts Hsum Hmm Hstop Hstart.
    unfold Header.isRecordingDisabled, Header.hasNothingToRecord.
    rewrite Hrec, Hprobe, Hbusy, Hsum, Hstop, Hstart.
    apply String.eqb_neq in Hts. rewrite Hts.
    assert (Hnone : negb (hasAudioDevices (Header.ui v))
                    && negb (Header.hasVideoCapability v) = false).
    { destruct Hsrc as [-> | Hvideo]; [reflexivity|].
      rewrite (video_capability v Hvideo). apply andb_false_r. }
    rewrite Hnone.
    destruct Hmm as [-> | (-> & -> & ->)]; cbn [orb andb negb];
      rewrite ?andb_false_r; reflexivity.
Qed.

Lemma record_control_needs_a_source_witness :
  Header.isRecordingDisabled (Header.render "idle" no_mindmap nothing_to_record) = true
  ∧ Header.isRecordingDisabled (Header.render "idle" no_mindmap blank_camera_only) = true
  ∧ Header.isRecordingDisabled (Header.render "idle" no_mindmap microphone_only) = false
  ∧ Header.isRecordingDisabled (Header.render "idle" no_mindmap camera_only) = false
  ∧ Header.isRecordingDisabled (Header.render "idle" no_mindmap uploaded_video_only)
    = false.
Proof.
  destruct (record_control_needs_a_source
              (Header.render "idle" no_mindmap nothing_to_record) eq_refl)
    as [Hnothing _].
  destruct (record_control_needs_a_source
              (Header.render "idle" no_mindmap blank_camera_only) eq_refl)
    as [Hblank _].
  destruct (record_control_needs_a_source
              (Header.render "idle" no_mindmap microphone_only) eq_refl)
    as [_ Hmicrophone].
  destruct (record_control_needs_a_source
              (Header.render "idle" no_mindmap camera_only) eq_refl)
    as [_ Hcamera].
  destruct (record_control_needs_a_source
              (Header.render "idle" no_mindmap uploaded_video_only) eq_refl)
    as [_ Huploaded].
  split; [|split; [|split; [|split]]].
  - apply Hnothing; reflexivity.
  - apply Hblank; reflexivity.
  - apply Hmicrophone; try reflexivity.
    + left. reflexivity.
    + discriminate.
    + left. reflexivity.
  - apply Hcamera; try reflexivity.
    + right. left. discriminate.
    + discriminate.
    + left. reflexivity.
  - apply Huploaded; try reflexivity.
    + right. right. right. right. reflexivity.
    + discriminate.
    + left. reflexivity.
Defined.

(** **** The upload form *)



(** With a file selected the same click does create a session. *)
Lemma apply_with_a_file_creates_a_session :
  trace (UploadFilesModal.click_apply ok_backend
           (modal_world (Some {| name := "lecture.wav" |}) None)).2
  = [ResetTranscript; ResetSummary; ClearMindmap; CreateSession;
     StartMonitoring "session-1"; SetTimeout 2700000 StopMonitoringLater;
     UploadAudio {| name := "lecture.wav" |};
     StreamTranscript "/uploads/lecture.wav" "session-1"; OnClose].
Proof. vm_compute. reflexivity. Qed.

(** **** Handlers that leave the audio status alone *)

Section Frames.
Context {L : Type}.

Lemma bind_returned {A B} (m : Handler L A) (k : A → Handler L B) w a w' :
  m w = (Returned a, w') -> (m ≫= k) w = k a w'.
Proof. intros H. unfold mbind, handler_bind. rewrite H. reflexivity. Qed.

Lemma bind_thrown {A B} (m : Handler L A) (k : A → Handler L B) w w' :
  m w = (Thrown, w') -> (m ≫= k) w = (Thrown, w').
Proof. intros H. unfold mbind, handler_bind. rewrite H. reflexivity. Qed.

Lemma bind_dispatch {B} action (k : unit → Handler L B) w :
  (dispatch action ≫= k) w
  = k () (Build_World (action (store w)) (local w) (trace w)).
Proof. reflexivity. Qed.

Lemma bind_set_local {B} f (k : unit → Handler L B) w :
  (set_local f ≫= k) w = k () (Build_World (store w) (f (local w)) (trace w)).
Proof. reflexivity. Qed.

Lemma quiet_dispatch action : keeps_audioStatus action -> quiet (L:=L) (dispatch action).
Proof. intros H w. eexists. split; [reflexivity|]. apply H. Qed.

Lemma quiet_skip : quiet (L:=L) skip.
Proof. intros w. exists w. split; reflexivity. Qed.

Lemma quiet_set_local f : quiet (L:=L) (set_local f).
Proof. intros w. eexists. split; reflexivity. Qed.

Lemma quiet_bind (m : Handler L unit) (k : unit → Handler L unit) :
  quiet m -> (∀ a, quiet (k a)) -> quiet (m ≫= k).
Proof.
  intros Hm Hk w. destruct (Hm w) as (w1 & E1 & A1).
  destruct (Hk () w1) as (w2 & E2 & A2).
  exists w2. split; [|congruence].
  rewrite (bind_returned _ _ _ _ _ E1). exact E2.
Qed.

Lemma quiet_if (c : bool) (h1 h2 : Handler L unit) :
  quiet h1 -> quiet h2 -> quiet (if c then h1 else h2).
Proof. destruct c; auto. Qed.

Lemma hushed_quiet (h : Handler L unit) : quiet h -> hushed h.
Proof. intros H w. destruct (H w) as (w' & E & A). rewrite E. exact A. Qed.

Lemma hushed_await {A} call (response : option A) : hushed (L:=L) (await call response).
Proof. intros w. destruct response; reflexivity. Qed.

Lemma hushed_bind {A B} (m : Handler L A) (k : A → Handler L B) :
  hushed m -> (∀ a, hushed (k a)) -> hushed (m ≫= k).
Proof.
  intros Hm Hk w. specialize (Hm w).
  destruct (m w) as [[a|] w1] eqn:E.
  - rewrite (bind_returned _ _ _ _ _ E). rewrite Hk. exact Hm.
  - rewrite (bind_thrown _ _ _ _ E). exact Hm.
Qed.

Lemma quiet_try_catch (body handler : Handler L unit) :
  hushed body -> quiet handler -> quiet (try_catch body handler).
Proof.
  intros Hb Hh w. specialize (Hb w). unfold try_catch.
  destruct (body w) as [[[]|] w1] eqn:E.
  - exists w1. split; [reflexivity|exact Hb].
  - destruct (Hh w1) as (w2 & E2 & A2). exists w2. split; [exact E2|].
    cbn in Hb. congruence.
Qed.

Lemma quiet_finally (body cleanup : Handler L unit) :
  quiet body -> quiet cleanup -> quiet (finally body cleanup).
Proof.
  intros Hb Hc w. destruct (Hb w) as (w1 & E1 & A1).
  destruct (Hc w1) as (w2 & E2 & A2).
  exists w2. unfold finally. rewrite E1, E2. split; [reflexivity|congruence].
Qed.

End Frames.

Lemma keeps_setIsRecording_false : keeps_audioStatus (setIsRecording false).
Proof. intros s. reflexivity. Qed.

Lemma keeps_setJustStoppedRecording p : keeps_audioStatus (setJustStoppedRecording p).
Proof. intros s. reflexivity. Qed.

Lemma keeps_setVideoAnalyticsStopping p : keeps_audioStatus (setVideoAnalyticsStopping p).
Proof. intros s. destruct p; reflexivity. Qed.

Lemma keeps_setFrontCameraStream p : keeps_audioStatus (setFrontCameraStream p).
Proof. intros s. reflexivity. Qed.

Lemma keeps_setBackCameraStream p : keeps_audioStatus (setBackCameraStream p).
Proof. intros s. reflexivity. Qed.

Lemma keeps_setBoardCameraStream p : keeps_audioStatus (setBoardCameraStream p).
Proof. intros s. reflexivity. Qed.

Lemma keeps_setActiveStream p : keeps_audioStatus (setActiveStream p).
Proof. intros s. reflexivity. Qed.

Lemma keeps_setVideoAnalyticsActive_false : keeps_audioStatus (setVideoAnalyticsActive false).
Proof.
  intros s. unfold setVideoAnalyticsActive. cbn.
  destruct (videoAnalyticsLoading s); reflexivity.
Qed.

Lemma keeps_setVideoStatus p : keeps_audioStatus (setVideoStatus p).
Proof. intros s. reflexivity. Qed.

Lemma keeps_setProcessingMode p : keeps_audioStatus (setProcessingMode p).
Proof. intros s. reflexivity. Qed.

Lemma keeps_setUploadedAudioPath_empty : keeps_audioStatus (setUploadedAudioPath "").
Proof. intros s. reflexivity. Qed.

Create HintDb frames.

#[local] Hint Resolve quiet_dispatch quiet_skip quiet_set_local quiet_bind quiet_if
  quiet_try_catch quiet_finally hushed_quiet hushed_await hushed_bind
  keeps_setIsRecording_false keeps_setJustStoppedRecording
  keeps_setVideoAnalyticsStopping keeps_setFrontCameraStream
  keeps_setBackCameraStream keeps_setBoardCameraStream keeps_setActiveStream
  keeps_setVideoAnalyticsActive_false keeps_setVideoStatus keeps_setProcessingMode
  keeps_setUploadedAudioPath_empty : frames.

(** **** Stopping a recording *)

Lemma quiet_clear_streams : quiet Header.clear_streams.
Proof. unfold Header.clear_streams. auto 10 with frames. Qed.

Lemma quiet_stop_video b v : quiet (Header.stop_video b v).
Proof.
  unfold Header.stop_video. cbv zeta.
  pose proof quiet_clear_streams.
  repeat apply quiet_if; auto 20 with frames.
Qed.

Lemma quiet_stop_resets v : quiet (Header.stop_resets v).
Proof.
  unfold Header.stop_resets. apply quiet_bind; [|intros _];
    repeat apply quiet_if; auto with frames.
Qed.

Lemma stop_failed_audioStatus v (w : World Header.Local) :
  ∃ w', Header.stop_failed v w = (Returned (), w')
        ∧ audioStatus (store w')
          = if hasAudioDevices (Header.ui v) then AudioStatus.ready
            else AudioStatus.no_devices.
Proof. eexists. split; reflexivity. Qed.

Lemma try_body_returns (first rest handler : Handler Header.Local unit) w a :
  (∃ w1, first w = (Returned (), w1) ∧ audioStatus (store w1) = a) ->
  quiet rest ->
  audioStatus (store (try_catch (first;; rest) handler w).2) = a.
Proof.
  intros (w1 & E & A1) Hrest. unfold try_catch.
  rewrite (bind_returned _ _ _ _ _ E).
  destruct (Hrest w1) as (w2 & E2 & A2). rewrite E2. cbn [snd]. congruence.
Qed.

Lemma is_string_true o lit : is_string o lit = true <-> o = Some lit.
Proof.
  destruct o as [x|]; cbn; [|split; discriminate].
  rewrite String.eqb_eq. split; congruence.
Qed.

Lemma stopRecording_audioStatus b v (w : World Header.Local) :
  audioStatus (store (Header.stopRecording b v w).2)
  = if truthy_opt (sessionId (Header.ui v)) && Header.wasRecordingAudio v
    then (if stopMicrophone_ok b then audioStatus (store w) else AudioStatus.ready)
    else if negb (hasAudioDevices (Header.ui v)) then AudioStatus.no_devices
    else match audioStatus (Header.ui v) with
         | AudioStatus.recording => AudioStatus.ready
         | _ => audioStatus (store w)
         end.
Proof.
  assert (Hrest : quiet (Header.stop_video b v;; Header.stop_resets v)).
  { apply quiet_bind; [apply quiet_stop_video|intros _; apply quiet_stop_resets]. }
  unfold Header.stopRecording.
  rewrite !bind_dispatch.
  set (w2 := Build_World _ _ _).
  assert (A2 : audioStatus (store w2) = audioStatus (store w)) by reflexivity.
  clearbody w2. rewrite <- A2. clear A2 w.
  unfold Header.stop_audio.
  destruct (truthy_opt (sessionId (Header.ui v)) && Header.wasRecordingAudio v) eqn:Emic.
  - destruct (stopMicrophone_ok b).
    + apply try_body_returns; [eexists; split; reflexivity|exact Hrest].
    + unfold try_catch.
      rewrite (bind_thrown
                 (await (StopMicrophone (default "" (sessionId (Header.ui v))))
                        (fulfilled false)) _ w2 _ eq_refl).
      destruct (stop_failed_audioStatus v (Build_World (store w2) (local w2)
                  (trace w2 ++ [StopMicrophone (default "" (sessionId (Header.ui v)))])))
        as (w3 & E3 & A3).
      rewrite E3. cbn [snd]. rewrite A3.
      apply andb_true_iff in Emic as [_ Hwas]. unfold Header.wasRecordingAudio in Hwas.
      apply andb_true_iff in Hwas as [-> _]. reflexivity.
  - destruct (hasAudioDevices (Header.ui v)); cbn [negb].
    + destruct (audioStatus (Header.ui v));
        (apply try_body_returns; [eexists; split; reflexivity|exact Hrest]).
    + apply try_body_returns; [eexists; split; reflexivity|exact Hrest].
Qed.

(** C3, as the code has it. When a recording is toggled off: with a
    session id, audio devices and the microphone sentinel as audio path,
    the microphone is stopped and the audio status stays as it is if that
    call succeeds (it becomes ready if the call fails); without audio
    devices the audio status becomes no-devices; otherwise (audio devices
    present, and the path is not the sentinel or there is no session id)
    the audio status becomes ready if it was recording and stays as it is
    in every other case. *)
Theorem stop_recording_audio_status (b : Backend) (transcriptStatus : string)
    (mindmapState : Header.MindmapState) (w : World Header.Local) :
  isRecording (store w) = true ->
  let s := store w in
  let s' := store (Header.click_record b transcriptStatus mindmapState w).2 in
  (truthy_opt (sessionId s) = true -> hasAudioDevices s = true ->
   uploadedAudioPath s = Some "MICROPHONE" ->
     audioStatus s' = if stopMicrophone_ok b then audioStatus s else AudioStatus.ready)
  ∧ (hasAudioDevices s = false -> audioStatus s' = AudioStatus.no_devices)
  ∧ (hasAudioDevices s = true ->
     uploadedAudioPath s ≠ Some "MICROPHONE" ∨ truthy_opt (sessionId s) = false ->
     audioStatus s' = match audioStatus s with
                      | AudioStatus.recording => AudioStatus.ready
                      | a => a
                      end).
Proof.
  intros Hrec s s'. subst s s'.
  unfold Header.click_record, Header.handleRecordingToggle.
  set (v := Header.render transcriptStatus mindmapState w).
  assert (Hui : Header.ui v = store w) by reflexivity.
  assert (Hen : Header.isRecordingDisabled v = false)
    by (unfold Header.isRecordingDisabled; rewrite Hui, Hrec; reflexivity).
  rewrite Hen, Hui, Hrec. cbn [negb].
  rewrite bind_set_local.
  rewrite stopRecording_audioStatus.
  unfold Header.wasRecordingAudio. rewrite Hui. cbn [store].
  repeat split.
  - intros Hs Hd Hp. apply is_string_true in Hp. rewrite Hs, Hd, Hp. reflexivity.
  - intros Hd. rewrite Hd. cbn [andb negb]. rewrite andb_false_r. reflexivity.
  - intros Hd Hor. rewrite Hd.
    assert (Hno : truthy_opt (sessionId (store w))
                  && (true && is_string (uploadedAudioPath (store w)) "MICROPHONE")
                  = false).
    { destruct Hor as [Hp | ->]; [|reflexivity].
      destruct (is_string (uploadedAudioPath (store w)) "MICROPHONE") eqn:E.
      - apply is_string_true in E. contradiction.
      - rewrite andb_false_r. reflexivity. }
    rewrite Hno. cbn [negb].
    destruct (audioStatus (store w)); reflexivity.
Qed.

Lemma stop_recording_audio_status_witness :
  audioStatus (store (Header.click_record ok_backend "idle" no_mindmap
                        recording_microphone).2)
  = audioStatus (store recording_microphone).
Proof.
  destruct (stop_recording_audio_status ok_backend "idle" no_mindmap
              recording_microphone eq_refl) as [Hmic _].
  exact (Hmic eq_refl eq_refl eq_refl).
Defined.

(** C3, as stated, fails on both counts. A recording started from the
    microphone keeps the audio status recording when it is stopped; a
    recording whose audio path is an uploaded file has its audio status
    reset to no-devices on a page without microphone, and from recording
    to ready on a page with one. *)
Lemma stop_recording_resets_or_keeps :
  (uploadedAudioPath (store recording_microphone) = Some "MICROPHONE"
   ∧ hasAudioDevices (store recording_microphone) = true
   ∧ audioStatus (store recording_microphone) = AudioStatus.recording
   ∧ audioStatus (store (Header.click_record ok_backend "idle" no_mindmap
                           recording_microphone).2) = AudioStatus.recording)
  ∧ (uploadedAudioPath (store recording_upload_no_microphone)
       = Some "/uploads/lecture.wav"
     ∧ audioStatus (store recording_upload_no_microphone) = AudioStatus.processing
     ∧ audioStatus (store (Header.click_record ok_backend "idle" no_mindmap
                             recording_upload_no_microphone).2)
         = AudioStatus.no_devices)
  ∧ (uploadedAudioPath (store recording_upload_microphone)
       = Some "/uploads/lecture.wav"
     ∧ audioStatus (store recording_upload_microphone) = AudioStatus.recording
     ∧ audioStatus (store (Header.click_record ok_backend "idle" no_mindmap
                             recording_upload_microphone).2)
         = AudioStatus.ready).
Proof. vm_compute. repeat split; reflexivity. Qed.

End UIProofs.

Module ImageSyncMore.
Import ImageSync ImageSyncProofs.

(** **** Backlog on one stream only *)

Lemma resolve_step_None s :
  resolve_step s = None -> queue_rgb s = [] ∨ queue_depth s = [].
Proof.
  unfold resolve_step.
  destruct (queue_rgb s) as [|[t1 k1] q1]; [left; reflexivity|].
  destruct (queue_depth s) as [|[t2 k2] q2]; [right; reflexivity|].
  destruct (within_tolerance t1 t2); [|destruct (t1 <? t2)]; discriminate.
Qed.

(** X1. Whatever state the synchronizer is in, after an ingest at most
    one of the two streams has frames waiting: one of the queues is
    empty. *)
Theorem ingest_leaves_a_queue_empty (s : State) (op : Ingest) :
  queue_rgb (ingest s op) = [] ∨ queue_depth (ingest s op) = [].
Proof.
  apply resolve_step_None.
  destruct op; cbn [ingest]; unfold callback_rgb, callback_depth, store_rgb, store_depth;
    apply resolve_exits.
Qed.

(** **** No more pairs than frames *)

Lemma pairs_app lg1 lg2 : pairs (lg1 ++ lg2) = (pairs lg1 + pairs lg2)%nat.
Proof. unfold pairs. rewrite filter_app, length_app. reflexivity. Qed.

Lemma resolve_step_pairs s s' :
  resolve_step s = Some s' ->
  (pairs (log s') + length (queue_rgb s') <= pairs (log s) + length (queue_rgb s))%nat
  ∧ (pairs (log s') + length (queue_depth s')
     <= pairs (log s) + length (queue_depth s))%nat.
Proof.
  unfold resolve_step.
  destruct (queue_rgb s) as [|[t1 k1] q1] eqn:E1; [discriminate|].
  destruct (queue_depth s) as [|[t2 k2] q2] eqn:E2; [discriminate|].
  destruct (within_tolerance t1 t2); [|destruct (t1 <? t2)];
    stepped; cbn [queue_rgb queue_depth log];
    rewrite ?E1, ?E2, ?pairs_app, ?length_pq_pop;
    try change (pairs [Paired (rgb_map s !! k1) (depth_map s !! k2)]) with 1%nat;
    cbn [length]; unfold value_type; lia.
Qed.

Lemma resolve_loop_pairs fuel : forall s,
  (pairs (log (resolve_loop fuel s)) + length (queue_rgb (resolve_loop fuel s))
   <= pairs (log s) + length (queue_rgb s))%nat
  ∧ (pairs (log (resolve_loop fuel s)) + length (queue_depth (resolve_loop fuel s))
     <= pairs (log s) + length (queue_depth s))%nat.
Proof.
  induction fuel as [|fuel IH]; intros s; cbn [resolve_loop]; [lia|].
  destruct (resolve_step s) as [s'|] eqn:E; [|lia].
  apply resolve_step_pairs in E. specialize (IH s'). lia.
Qed.

Lemma resolve_pairs s :
  (pairs (log (resolve s)) + length (queue_rgb (resolve s))
   <= pairs (log s) + length (queue_rgb s))%nat
  ∧ (pairs (log (resolve s)) + length (queue_depth (resolve s))
     <= pairs (log s) + length (queue_depth s))%nat.
Proof.
  unfold resolve, while_loop.
  pose proof (resolve_loop_pairs
                (length (queue_rgb (leak_check s)) + length (queue_depth (leak_check s)))
                (leak_check s)) as H.
  assert (Hl : pairs (log (leak_check s)) = pairs (log s)
               ∧ queue_rgb (leak_check s) = queue_rgb s
               ∧ queue_depth (leak_check s) = queue_depth s).
  { unfold leak_check. destruct (_ || _); cbn [log queue_rgb queue_depth];
      rewrite ?pairs_app; try change (pairs [MemoryLeakWarning]) with 0%nat;
      repeat split; lia. }
  destruct Hl as (Hl1 & Hl2 & Hl3). rewrite Hl1, Hl2, Hl3 in H.
  cbv zeta. rewrite Hl2, Hl3. exact H.
Qed.

Lemma rgb_count_snoc ops op :
  rgb_count (ops ++ [op]) = (rgb_count ops + if is_rgb op then 1 else 0)%nat.
Proof.
  unfold rgb_count. rewrite filter_app, length_app.
  destruct op; reflexivity.
Qed.

Lemma depth_count_snoc ops op :
  depth_count (ops ++ [op]) = (depth_count ops + if is_rgb op then 0 else 1)%nat.
Proof.
  unfold depth_count. rewrite filter_app, length_app.
  destruct op; reflexivity.
Qed.

Lemma run_snoc ops op : run (ops ++ [op]) = ingest (run ops) op.
Proof. unfold run. rewrite fold_left_app. reflexivity. Qed.

(** X4. The callback is invoked at most once per frame: after any
    sequence of ingests, the invocations so far plus the frames still
    waiting on a stream do not exceed the frames ingested on that stream;
    in particular there are no more pairs than colour frames and no more
    than depth frames. *)
Theorem no_more_pairs_than_frames (ops : list Ingest) :
  (pairs (log (run ops)) + length (queue_rgb (run ops)) <= rgb_count ops)%nat
  ∧ (pairs (log (run ops)) + length (queue_depth (run ops)) <= depth_count ops)%nat.
Proof.
  induction ops as [|op ops IH] using rev_ind; [cbn; lia|].
  rewrite run_snoc, rgb_count_snoc, depth_count_snoc.
  destruct op as [msg|msg]; cbn [ingest is_rgb];
    unfold callback_rgb, callback_depth, store_rgb, store_depth;
    match goal with |- context [resolve ?s] => pose proof (resolve_pairs s) as H end;
    cbn [queue_rgb queue_depth log] in H; rewrite ?length_pq_push in H; lia.
Qed.

(** **** What the callback is handed *)

Lemma entries_stored_mono seen seen' mk q m :
  entries_stored seen mk q m -> seen ⊆ seen' -> entries_stored seen' mk q m.
Proof.
  intros H Hsub t k Hin. destruct (H t k Hin) as (img & ? & ? & ?).
  exists img. auto.
Qed.

Lemma log_sound_mono seen seen' lg :
  log_sound seen lg -> seen ⊆ seen' -> log_sound seen' lg.
Proof.
  intros H Hsub e He. destruct (H e He) as [->|(c & d & -> & ? & ? & ?)];
    [left; reflexivity|right]. exists c, d. auto.
Qed.

Lemma elem_of_seqs t k q : (t, k) ∈ q -> k ∈ seqs q.
Proof. intros H. unfold seqs. apply list_elem_of_fmap. exists (t, k). auto. Qed.

Lemma entries_stored_pop seen mk n t k q m :
  stream_inv n ((t, k) :: q) m ->
  entries_stored seen mk ((t, k) :: q) m ->
  entries_stored seen mk (pq_pop ((t, k) :: q)) (delete k m).
Proof.
  intros (Hnd & _ & _) H t' k' Hin. rewrite pq_pop_perm in Hin.
  destruct (H t' k') as (img & Hm & Hs & Hseen); [right; exact Hin|].
  exists img. split; [|auto].
  rewrite lookup_delete_ne; [exact Hm|].
  cbn in Hnd. apply NoDup_cons in Hnd as [Hk _].
  intros ->. apply Hk. eapply elem_of_seqs. exact Hin.
Qed.

Lemma entries_stored_push seen mk n msg q m :
  stream_inv n q m ->
  entries_stored seen mk q m ->
  entries_stored (seen ++ [mk msg]) mk
    (pq_push (stamp_nanoseconds msg, n) q) (<[n := msg]> m).
Proof.
  intros (_ & _ & Hlt) H t k Hin.
  rewrite pq_push_perm in Hin. apply elem_of_cons in Hin as [Heq|Hin].
  - injection Heq as -> ->. exists msg. rewrite lookup_insert_eq. repeat split.
    apply elem_of_app. right. apply list_elem_of_here.
  - destruct (H t k Hin) as (img & Hm & Hs & Hseen).
    exists img. split; [|split; [exact Hs|apply elem_of_app; left; exact Hseen]].
    rewrite lookup_insert_ne; [exact Hm|].
    intros <-. apply elem_of_seqs, Hlt in Hin. lia.
Qed.

Lemma resolve_step_sound seen n s s' :
  Inv n s ->
  entries_stored seen Rgb (queue_rgb s) (rgb_map s) ->
  entries_stored seen Depth (queue_depth s) (depth_map s) ->
  log_sound seen (log s) ->
  resolve_step s = Some s' ->
  entries_stored seen Rgb (queue_rgb s') (rgb_map s')
  ∧ entries_stored seen Depth (queue_depth s') (depth_map s')
  ∧ log_sound seen (log s').
Proof.
  intros (_ & Hr & Hd) Er Ed Hl. unfold resolve_step.
  destruct (queue_rgb s) as [|[t1 k1] q1] eqn:E1; [discriminate|].
  destruct (queue_depth s) as [|[t2 k2] q2] eqn:E2; [discriminate|].
  destruct (within_tolerance t1 t2) eqn:W; [|destruct (t1 <? t2)];
    stepped; cbn [queue_rgb queue_depth rgb_map depth_map log];
    rewrite ?E1, ?E2.
  - split; [eapply entries_stored_pop; eassumption|].
    split; [eapply entries_stored_pop; eassumption|].
    intros e He. apply elem_of_app in He as [He|He]; [apply Hl, He|].
    apply list_elem_of_singleton in He as ->. right.
    destruct (Er t1 k1) as (c & Hc & Hsc & Hinc); [left|].
    destruct (Ed t2 k2) as (d & Hd' & Hsd & Hind); [left|].
    exists c, d. rewrite Hc, Hd', Hsc, Hsd. auto.
  - split; [eapply entries_stored_pop; eassumption|]. auto.
  - split; [exact Er|]. split; [eapply entries_stored_pop; eassumption|exact Hl].
Qed.

Lemma resolve_loop_sound seen n fuel : forall s,
  Inv n s ->
  entries_stored seen Rgb (queue_rgb s) (rgb_map s) ->
  entries_stored seen Depth (queue_depth s) (depth_map s) ->
  log_sound seen (log s) ->
  entries_stored seen Rgb (queue_rgb (resolve_loop fuel s)) (rgb_map (resolve_loop fuel s))
  ∧ entries_stored seen Depth (queue_depth (resolve_loop fuel s))
      (depth_map (resolve_loop fuel s))
  ∧ log_sound seen (log (resolve_loop fuel s)).
Proof.
  induction fuel as [|fuel IH]; intros s HI Er Ed Hl; cbn [resolve_loop]; [auto|].
  destruct (resolve_step s) as [s'|] eqn:E; [|auto].
  destruct (resolve_step_sound seen n s s' HI Er Ed Hl E) as (Er' & Ed' & Hl').
  apply IH; [eapply resolve_step_Inv; eassumption|assumption..].
Qed.

Lemma resolve_sound seen n s :
  Inv n s ->
  entries_stored seen Rgb (queue_rgb s) (rgb_map s) ->
  entries_stored seen Depth (queue_depth s) (depth_map s) ->
  log_sound seen (log s) ->
  entries_stored seen Rgb (queue_rgb (resolve s)) (rgb_map (resolve s))
  ∧ entries_stored seen Depth (queue_depth (resolve s)) (depth_map (resolve s))
  ∧ log_sound seen (log (resolve s)).
Proof.
  intros HI Er Ed Hl. unfold resolve, while_loop. cbv zeta.
  apply (resolve_loop_sound seen n); [apply leak_check_Inv, HI|..];
    unfold leak_check; destruct (_ || _);
    cbn [queue_rgb queue_depth rgb_map depth_map log]; try assumption.
  intros e He. apply elem_of_app in He as [He|He]; [apply Hl, He|].
  apply list_elem_of_singleton in He as ->. left. reflexivity.
Qed.

Lemma ingest_sound seen n s op :
  Inv n s -> 0 <= n -> n + 1 < 2 ^ 32 ->
  entries_stored seen Rgb (queue_rgb s) (rgb_map s) ->
  entries_stored seen Depth (queue_depth s) (depth_map s) ->
  log_sound seen (log s) ->
  entries_stored (seen ++ [op]) Rgb (queue_rgb (ingest s op)) (rgb_map (ingest s op))
  ∧ entries_stored (seen ++ [op]) Depth (queue_depth (ingest s op))
      (depth_map (ingest s op))
  ∧ log_sound (seen ++ [op]) (log (ingest s op)).
Proof.
  intros HI Hn0 Hn Er Ed Hl.
  pose proof (ingest_Inv n s op HI Hn0 Hn) as HI'.
  destruct HI as (Hc & Hr & Hd).
  assert (Hsub : seen ⊆ seen ++ [op]) by set_solver.
  destruct op as [msg|msg]; cbn [ingest] in *;
    unfold callback_rgb, callback_depth, store_rgb, store_depth in *.
  - apply (resolve_sound _ (n + 1)).
    + split; [|split]; cbn [counter queue_rgb queue_depth rgb_map depth_map].
      * unfold wrap_u32. rewrite Hc. apply Z.mod_small. lia.
      * rewrite Hc. apply stream_inv_push; [assumption|lia|lia].
      * eapply stream_inv_mono; [eassumption|lia].
    + cbn [queue_rgb rgb_map]. rewrite Hc.
      apply (entries_stored_push seen Rgb n); assumption.
    + cbn [queue_depth depth_map]. eapply entries_stored_mono; eassumption.
    + cbn [log]. eapply log_sound_mono; eassumption.
  - apply (resolve_sound _ (n + 1)).
    + split; [|split]; cbn [counter queue_rgb queue_depth rgb_map depth_map].
      * unfold wrap_u32. rewrite Hc. apply Z.mod_small. lia.
      * eapply stream_inv_mono; [eassumption|lia].
      * rewrite Hc. apply stream_inv_push; [assumption|lia|lia].
    + cbn [queue_rgb rgb_map]. eapply entries_stored_mono; eassumption.
    + cbn [queue_depth depth_map]. rewrite Hc.
      apply (entries_stored_push seen Depth n); assumption.
    + cbn [log]. eapply log_sound_mono; eassumption.
Qed.

Lemma run_sound ops :
  Z.of_nat (length ops) < 2 ^ 32 ->
  Inv (Z.of_nat (length ops)) (run ops)
  ∧ entries_stored ops Rgb (queue_rgb (run ops)) (rgb_map (run ops))
  ∧ entries_stored ops Depth (queue_depth (run ops)) (depth_map (run ops))
  ∧ log_sound ops (log (run ops)).
Proof.
  induction ops as [|op ops IH] using rev_ind; intros Hlen.
  - split; [apply init_Inv|].
    split; [|split]; [intros t k Hin|intros t k Hin|intros e Hin]; cbn in Hin;
      apply elem_of_nil in Hin; contradiction.
  - rewrite length_app in Hlen. cbn [length] in Hlen.
    destruct IH as (HI & Er & Ed & Hl); [lia|].
    rewrite run_snoc, length_app. cbn [length].
    replace (Z.of_nat (length ops + 1)) with (Z.of_nat (length ops) + 1) by lia.
    split; [apply ingest_Inv; [exact HI|lia|lia]|].
    apply (ingest_sound ops (Z.of_nat (length ops))); try assumption; lia.
Qed.

(** X2. Before the counter wraps (fewer than 2^32 ingests), every
    invocation of the callback is handed two stored images, never a null
    pointer: a colour frame and a depth frame that were ingested, and
    whose timestamps pass the tolerance test of the loop (so they differ
    by less than 1e7 ns whenever the difference fits a [long]). *)
Theorem callback_receives_ingested_pairs (ops : list Ingest) :
  Z.of_nat (length ops) < 2 ^ 32 ->
  ∀ rgb depth, Paired rgb depth ∈ log (run ops) ->
    ∃ color_img depth_img,
      rgb = Some color_img ∧ depth = Some depth_img
      ∧ Rgb color_img ∈ ops ∧ Depth depth_img ∈ ops
      ∧ within_tolerance (stamp_nanoseconds color_img) (stamp_nanoseconds depth_img)
        = true
      ∧ (Z.abs (stamp_nanoseconds color_img - stamp_nanoseconds depth_img) < 2 ^ 63 ->
         Z.abs (stamp_nanoseconds color_img - stamp_nanoseconds depth_img)
         < acceptable_synchronization_error_nanoseconds).
Proof.
  intros Hlen rgb depth Hin.
  destruct (run_sound ops Hlen) as (_ & _ & _ & Hl).
  destruct (Hl _ Hin) as [Hbad|(c & d & [= -> ->] & Hc & Hd & Hw)]; [discriminate|].
  exists c, d. repeat split; try assumption.
  intros Hfit. rewrite within_tolerance_spec in Hw by exact Hfit.
  apply Z.ltb_lt in Hw. exact Hw.
Qed.

Lemma callback_receives_ingested_pairs_witness :
  ∃ color_img depth_img,
    Some color0 = Some color_img ∧ Some depth_5ms = Some depth_img
    ∧ Rgb color_img ∈ [Rgb color0; Depth depth_5ms]
    ∧ Depth depth_img ∈ [Rgb color0; Depth depth_5ms]
    ∧ within_tolerance (stamp_nanoseconds color_img) (stamp_nanoseconds depth_img)
      = true
    ∧ (Z.abs (stamp_nanoseconds color_img - stamp_nanoseconds depth_img) < 2 ^ 63 ->
       Z.abs (stamp_nanoseconds color_img - stamp_nanoseconds depth_img)
       < acceptable_synchronization_error_nanoseconds).
Proof.
  apply (callback_receives_ingested_pairs [Rgb color0; Depth depth_5ms]).
  - vm_compute. reflexivity.
  - vm_compute. apply list_elem_of_here.
Defined.

(** **** One stream alone *)

Lemma resolve_loop_idle fuel s :
  queue_rgb s = [] ∨ queue_depth s = [] -> resolve_loop fuel s = s.
Proof.
  intros H. destruct fuel as [|fuel]; [reflexivity|]. cbn [resolve_loop].
  unfold resolve_step. destruct H as [-> | H]; [reflexivity|].
  rewrite H. destruct (queue_rgb s) as [|[t k] q]; reflexivity.
Qed.

Lemma resolve_idle s :
  queue_rgb s = [] ∨ queue_depth s = [] ->
  queue_rgb (resolve s) = queue_rgb s
  ∧ queue_depth (resolve s) = queue_depth s
  ∧ rgb_map (resolve s) = rgb_map s
  ∧ depth_map (resolve s) = depth_map s
  ∧ pairs (log (resolve s)) = pairs (log s).
Proof.
  intros H. unfold resolve, while_loop. cbv zeta.
  rewrite resolve_loop_idle
    by (unfold leak_check; destruct (_ || _); cbn [queue_rgb queue_depth]; exact H).
  unfold leak_check. destruct (_ || _);
    cbn [queue_rgb queue_depth rgb_map depth_map log]; repeat split.
  rewrite pairs_app. change (pairs [MemoryLeakWarning]) with 0%nat. lia.
Qed.

(** X5. Frames of one stream alone are never released: while only colour
    frames arrive, the callback is not invoked, the depth queue stays
    empty and every frame received so far is still queued, whatever its
    age and however many there are. *)
Theorem colour_frames_alone_pile_up (ops : list Ingest) :
  Forall (λ op, is_rgb op = true) ops ->
  queue_depth (run ops) = []
  ∧ depth_map (run ops) = ∅
  ∧ length (queue_rgb (run ops)) = length ops
  ∧ pairs (log (run ops)) = 0%nat.
Proof.
  induction ops as [|op ops IH] using rev_ind; intros Hall.
  - repeat split.
  - apply Forall_app in Hall as [Hops Hop].
    apply Forall_cons in Hop as [Hop _].
    destruct (IH Hops) as (Hqd & Hdm & Hlen & Hp).
    rewrite run_snoc, length_app. cbn [length].
    destruct op as [msg|msg]; [|discriminate].
    cbn [ingest]. unfold callback_rgb, store_rgb. cbv zeta.
    match goal with |- context [resolve ?s] =>
      destruct (resolve_idle s) as (Eq & Ed & Em & Edm & Ep);
        [right; exact Hqd|] end.
    rewrite Eq, Ed, Edm, Ep.
    cbn [queue_rgb queue_depth depth_map log].
    rewrite length_pq_push. repeat split; [assumption..|lia|assumption].
Qed.

Lemma colour_frames_alone_pile_up_witness :
  queue_depth (run [Rgb color0; Rgb color_1s]) = []
  ∧ depth_map (run [Rgb color0; Rgb color_1s]) = ∅
  ∧ length (queue_rgb (run [Rgb color0; Rgb color_1s])) = length [Rgb color0; Rgb color_1s]
  ∧ pairs (log (run [Rgb color0; Rgb color_1s])) = 0%nat.
Proof.
  apply (colour_frames_alone_pile_up [Rgb color0; Rgb color_1s]).
  repeat (apply Forall_cons; split; [reflexivity|]). apply Forall_nil_2.
Defined.

(** **** Two frames, in either order of arrival *)

Lemma resolve_small s :
  (size (rgb_map s) <= 1000)%nat -> (size (depth_map s) <= 1000)%nat ->
  resolve s = resolve_loop (length (queue_rgb s) + length (queue_depth s)) s.
Proof.
  intros Hr Hd. unfold resolve, while_loop, leak_check.
  assert (E1 : (1000 <? Z.of_nat (size (rgb_map s))) = false) by (apply Z.ltb_ge; lia).
  assert (E2 : (1000 <? Z.of_nat (size (depth_map s))) = false) by (apply Z.ltb_ge; lia).
  rewrite E1, E2. reflexivity.
Qed.

Lemma one_pair_resolved n k_rgb k_depth color depth :
  let t_color := stamp_nanoseconds color in
  let t_depth := stamp_nanoseconds depth in
  let s := resolve {| counter := n;
                      rgb_map := {[ k_rgb := color ]};
                      depth_map := {[ k_depth := depth ]};
                      queue_rgb := [(t_color, k_rgb)];
                      queue_depth := [(t_depth, k_depth)];
                      log := [] |} in
  log s = (if within_tolerance t_color t_depth
           then [Paired (Some color) (Some depth)] else [])
  ∧ (queue_rgb s).*1 = (if within_tolerance t_color t_depth then []
                        else if t_color <? t_depth then [] else [t_color])
  ∧ (queue_depth s).*1 = (if within_tolerance t_color t_depth then []
                          else if t_color <? t_depth then [t_depth] else []).
Proof.
  intros t_color t_depth s. subst s. clearbody t_color t_depth.
  rewrite resolve_small
    by (cbn [rgb_map depth_map]; rewrite map_size_singleton; lia).
  cbn [queue_rgb queue_depth length Nat.add resolve_loop].
  unfold resolve_step. cbn [queue_rgb queue_depth rgb_map depth_map log counter].
  rewrite !lookup_singleton_eq, !pq_pop_singleton.
  destruct (within_tolerance t_color t_depth); [|destruct (t_color <? t_depth)];
    cbn [queue_rgb queue_depth log app fmap list_fmap fst]; repeat split.
Qed.

(** X6. For one colour and one depth frame on a fresh synchronizer the
    outcome does not depend on which of the two arrives first: the
    callback receives the same pair or is not invoked in both orders, and
    the same timestamps stay queued. *)
Theorem arrival_order_of_a_pair_is_irrelevant (color depth : Image) :
  let colour_first := callback_depth depth (callback_rgb color init) in
  let depth_first := callback_rgb color (callback_depth depth init) in
  log colour_first = log depth_first
  ∧ (queue_rgb colour_first).*1 = (queue_rgb depth_first).*1
  ∧ (queue_depth colour_first).*1 = (queue_depth depth_first).*1
  ∧ log colour_first
    = if within_tolerance (stamp_nanoseconds color) (stamp_nanoseconds depth)
      then [Paired (Some color) (Some depth)] else [].
Proof.
  intros colour_first depth_first.
  assert (Hc : callback_rgb color init
               = {| counter := 1; rgb_map := {[ 0 := color ]}; depth_map := ∅;
                    queue_rgb := [(stamp_nanoseconds color, 0)];
                    queue_depth := []; log := [] |}).
  { unfold callback_rgb, store_rgb, init. cbv zeta.
    cbn [rgb_map depth_map queue_rgb queue_depth counter log].
    rewrite pq_push_nil, insert_empty.
    rewrite resolve_small
      by (cbn [rgb_map depth_map];
          rewrite ?map_size_singleton, ?map_size_empty; lia).
    reflexivity. }
  assert (Hd : callback_depth depth init
               = {| counter := 1; rgb_map := ∅; depth_map := {[ 0 := depth ]};
                    queue_rgb := [];
                    queue_depth := [(stamp_nanoseconds depth, 0)]; log := [] |}).
  { unfold callback_depth, store_depth, init. cbv zeta.
    cbn [rgb_map depth_map queue_rgb queue_depth counter log].
    rewrite pq_push_nil, insert_empty.
    rewrite resolve_small
      by (cbn [rgb_map depth_map];
          rewrite ?map_size_singleton, ?map_size_empty; lia).
    reflexivity. }
  subst colour_first depth_first. rewrite Hc, Hd.
  unfold callback_depth at 1 2 3. unfold callback_rgb. unfold store_rgb, store_depth. cbv zeta.
  cbn [rgb_map depth_map queue_rgb queue_depth counter log].
  rewrite !pq_push_nil, !insert_empty.
  change (wrap_u32 (1 + 1)) with 2.
  destruct (one_pair_resolved 2 0 1 color depth) as (L1 & R1 & D1).
  destruct (one_pair_resolved 2 1 0 color depth) as (L2 & R2 & D2).
  cbv zeta in L1, R1, D1, L2, R2, D2.
  split; [|split; [|split]].
  - etrans; [exact L1|symmetry; exact L2].
  - etrans; [exact R1|symmetry; exact R2].
  - etrans; [exact D1|symmetry; exact D2].
  - exact L1.
Qed.

End ImageSyncMore.

Module ImageSyncPairing.
Import ImageSync ImageSyncProofs ImageSyncMore.

(** **** An ingest runs the loop *)




(** **** Two frames on a fresh synchronizer *)

Lemma two_frames_resolved n k_rgb k_depth color depth :
  resolve {| counter := n;
             rgb_map := {[ k_rgb := color ]};
             depth_map := {[ k_depth := depth ]};
             queue_rgb := [(stamp_nanoseconds color, k_rgb)];
             queue_depth := [(stamp_nanoseconds depth, k_depth)];
             log := [] |}
  = if within_tolerance (stamp_nanoseconds color) (stamp_nanoseconds depth)
    then {| counter := n; rgb_map := ∅; depth_map := ∅;
            queue_rgb := []; queue_depth := [];
            log := [Paired (Some color) (Some depth)] |}
    else if stamp_nanoseconds color <? stamp_nanoseconds depth
    then {| counter := n; rgb_map := ∅; depth_map := {[ k_depth := depth ]};
            queue_rgb := []; queue_depth := [(stamp_nanoseconds depth, k_depth)];
            log := [] |}
    else {| counter := n; rgb_map := {[ k_rgb := color ]}; depth_map := ∅;
            queue_rgb := [(stamp_nanoseconds color, k_rgb)]; queue_depth := [];
            log := [] |}.
Proof.
  rewrite resolve_small
    by (cbn [rgb_map depth_map]; rewrite map_size_singleton; lia).
  cbn [queue_rgb queue_depth length Nat.add resolve_loop].
  unfold resolve_step. cbn [queue_rgb queue_depth rgb_map depth_map log counter].
  rewrite !lookup_singleton_eq, !delete_singleton_eq, !pq_pop_singleton.
  destruct (within_tolerance _ _); [|destruct (_ <? _)]; reflexivity.
Qed.

Lemma run_colour_first color depth :
  run [Rgb color; Depth depth]
  = resolve {| counter := 2;
               rgb_map := {[ 0 := color ]};
               depth_map := {[ 1 := depth ]};
               queue_rgb := [(stamp_nanoseconds color, 0)];
               queue_depth := [(stamp_nanoseconds depth, 1)];
               log := [] |}.
Proof.
  unfold run. cbn [fold_left ingest].
  assert (Hc : callback_rgb color init
               = {| counter := 1; rgb_map := {[ 0 := color ]}; depth_map := ∅;
                    queue_rgb := [(stamp_nanoseconds color, 0)];
                    queue_depth := []; log := [] |}).
  { unfold callback_rgb, store_rgb, init. cbv zeta.
    cbn [rgb_map depth_map queue_rgb queue_depth counter log].
    rewrite pq_push_nil, insert_empty.
    rewrite resolve_small
      by (cbn [rgb_map depth_map];
          rewrite ?map_size_singleton, ?map_size_empty; lia).
    reflexivity. }
  rewrite Hc. unfold callback_depth, store_depth. cbv zeta.
  cbn [rgb_map depth_map queue_rgb queue_depth counter log].
  rewrite pq_push_nil, insert_empty. reflexivity.
Qed.

Lemma run_depth_first color depth :
  run [Depth depth; Rgb color]
  = resolve {| counter := 2;
               rgb_map := {[ 1 := color ]};
               depth_map := {[ 0 := depth ]};
               queue_rgb := [(stamp_nanoseconds color, 1)];
               queue_depth := [(stamp_nanoseconds depth, 0)];
               log := [] |}.
Proof.
  unfold run. cbn [fold_left ingest].
  assert (Hd : callback_depth depth init
               = {| counter := 1; rgb_map := ∅; depth_map := {[ 0 := depth ]};
                    queue_rgb := [];
                    queue_depth := [(stamp_nanoseconds depth, 0)]; log := [] |}).
  { unfold callback_depth, store_depth, init. cbv zeta.
    cbn [rgb_map depth_map queue_rgb queue_depth counter log].
    rewrite pq_push_nil, insert_empty.
    rewrite resolve_small
      by (cbn [rgb_map depth_map];
          rewrite ?map_size_singleton, ?map_size_empty; lia).
    reflexivity. }
  rewrite Hd. unfold callback_rgb, store_rgb. cbv zeta.
  cbn [rgb_map depth_map queue_rgb queue_depth counter log].
  rewrite pq_push_nil, insert_empty. reflexivity.
Qed.

(** The stored stamps of two valid messages are as far apart as the
    header stamps, up to 256 ns. *)
Lemma stamps_apart color depth :
  valid_stamp color -> valid_stamp depth ->
  0 <= stamp_nanoseconds color < 2 ^ 62
  ∧ 0 <= stamp_nanoseconds depth < 2 ^ 62
  ∧ (header_nanoseconds color - header_nanoseconds depth) - 256
    <= stamp_nanoseconds color - stamp_nanoseconds depth
    <= (header_nanoseconds color - header_nanoseconds depth) + 256.
Proof.
  intros Hc Hd.
  destruct (stamp_nanoseconds_valid color Hc) as (Bc & Cc & _).
  destruct (stamp_nanoseconds_valid depth Hd) as (Bd & Cd & _).
  lia.
Qed.

(** **** The claims on pairing *)



(** C2, as the code has it. The timestamp kept for a frame is its header
    stamp (seconds * 1e9 + nanoseconds) rounded to double precision: the
    header stamp itself below 2^53 ns, at most 128 ns off it for any
    stamp a message can carry, and a multiple of 256 ns from 2^60 ns on
    (since 2006). Before the counter wraps, the callback is only ever
    handed a colour and a depth frame whose kept timestamps differ by
    strictly less than the tolerance of 1e7 ns. For a colour and a depth
    frame on a fresh synchronizer, in either order of arrival: when the
    kept timestamps differ by strictly less than 1e7 ns the callback
    receives the pair and nothing stays stored; when they differ by
    1e7 ns or more the callback is not invoked, the older of the two
    frames is dropped and the newer one stays queued. *)
Theorem paired_strictly_within_tolerance (ops : list Ingest) (color depth : Image) :
  (Z.of_nat (length ops) < 2 ^ 32 -> Forall valid_ingest ops ->
   ∀ rgb_img depth_img, Paired rgb_img depth_img ∈ log (run ops) ->
     ∃ c d, rgb_img = Some c ∧ depth_img = Some d
            ∧ Rgb c ∈ ops ∧ Depth d ∈ ops
            ∧ Z.abs (stamp_nanoseconds c - stamp_nanoseconds d)
              < acceptable_synchronization_error_nanoseconds)
  ∧ (valid_stamp color -> valid_stamp depth ->
     (Z.abs (stamp_nanoseconds color - stamp_nanoseconds depth)
        < acceptable_synchronization_error_nanoseconds ->
        run [Rgb color; Depth depth]
        = {| counter := 2; rgb_map := ∅; depth_map := ∅;
             queue_rgb := []; queue_depth := [];
             log := [Paired (Some color) (Some depth)] |}
        ∧ run [Depth depth; Rgb color]
          = {| counter := 2; rgb_map := ∅; depth_map := ∅;
               queue_rgb := []; queue_depth := [];
               log := [Paired (Some color) (Some depth)] |})
     ∧ (acceptable_synchronization_error_nanoseconds
          <= stamp_nanoseconds depth - stamp_nanoseconds color ->
        run [Rgb color; Depth depth]
        = {| counter := 2; rgb_map := ∅; depth_map := {[ 1 := depth ]};
             queue_rgb := []; queue_depth := [(stamp_nanoseconds depth, 1)];
             log := [] |}
        ∧ run [Depth depth; Rgb color]
          = {| counter := 2; rgb_map := ∅; depth_map := {[ 0 := depth ]};
               queue_rgb := []; queue_depth := [(stamp_nanoseconds depth, 0)];
               log := [] |})
     ∧ (acceptable_synchronization_error_nanoseconds
          <= stamp_nanoseconds color - stamp_nanoseconds depth ->
        run [Rgb color; Depth depth]
        = {| counter := 2; rgb_map := {[ 0 := color ]}; depth_map := ∅;
             queue_rgb := [(stamp_nanoseconds color, 0)]; queue_depth := [];
             log := [] |}
        ∧ run [Depth depth; Rgb color]
          = {| counter := 2; rgb_map := {[ 1 := color ]}; depth_map := ∅;
               queue_rgb := [(stamp_nanoseconds color, 1)]; queue_depth := [];
               log := [] |})
     ∧ header_nanoseconds color - 128 <= stamp_nanoseconds color
       <= header_nanoseconds color + 128
     ∧ (header_nanoseconds color < 2 ^ 53 ->
        stamp_nanoseconds color = header_nanoseconds color)
     ∧ (2 ^ 60 <= header_nanoseconds color -> stamp_nanoseconds color mod 256 = 0)).
Proof.
  split.
  - intros Hlen Hvalid rgb_img depth_img Hin.
    destruct (run_sound ops Hlen) as (_ & _ & _ & Hl).
    destruct (Hl _ Hin) as [Hbad|(c & d & [= -> ->] & Hc & Hd & Hw)]; [discriminate|].
    exists c, d. repeat split; try assumption.
    rewrite Forall_forall in Hvalid.
    pose proof (Hvalid _ Hc) as Vc. pose proof (Hvalid _ Hd) as Vd.
    cbn [valid_ingest] in Vc, Vd.
    rewrite within_tolerance_valid in Hw by assumption.
    apply Z.ltb_lt in Hw. exact Hw.
  - intros Hc Hd.
    destruct (stamps_apart color depth Hc Hd) as (Bc & Bd & _).
    destruct (stamp_nanoseconds_valid color Hc) as (_ & Hnear & Hexact & Hgrid).
    rewrite run_colour_first, run_depth_first, !two_frames_resolved.
    rewrite within_tolerance_valid by assumption.
    unfold acceptable_synchronization_error_nanoseconds.
    split; [|split; [|split; [|split; [exact Hnear|split; [exact Hexact|exact Hgrid]]]]].
    + intros Hlt.
      assert (E : (Z.abs (stamp_nanoseconds color - stamp_nanoseconds depth)
                   <? 10000000) = true) by (apply Z.ltb_lt; lia).
      rewrite E. split; reflexivity.
    + intros Hge.
      assert (E : (Z.abs (stamp_nanoseconds color - stamp_nanoseconds depth)
                   <? 10000000) = false) by (apply Z.ltb_ge; lia).
      assert (L : (stamp_nanoseconds color <? stamp_nanoseconds depth) = true)
        by (apply Z.ltb_lt; lia).
      rewrite E, L. split; reflexivity.
    + intros Hge.
      assert (E : (Z.abs (stamp_nanoseconds color - stamp_nanoseconds depth)
                   <? 10000000) = false) by (apply Z.ltb_ge; lia).
      assert (L : (stamp_nanoseconds color <? stamp_nanoseconds depth) = false)
        by (apply Z.ltb_ge; lia).
      rewrite E, L. split; reflexivity.
Qed.

Lemma paired_strictly_within_tolerance_witness :
  (∃ c d, Some color0 = Some c ∧ Some depth_5ms = Some d
          ∧ Rgb c ∈ [Rgb color0; Depth depth_5ms]
          ∧ Depth d ∈ [Rgb color0; Depth depth_5ms]
          ∧ Z.abs (stamp_nanoseconds c - stamp_nanoseconds d)
            < acceptable_synchronization_error_nanoseconds)
  ∧ run [Rgb color_2023; Depth depth_2023_10ms]
    = {| counter := 2; rgb_map := ∅; depth_map := ∅;
         queue_rgb := []; queue_depth := [];
         log := [Paired (Some color_2023) (Some depth_2023_10ms)] |}
  ∧ run [Depth depth_10ms; Rgb color0]
    = {| counter := 2; rgb_map := ∅; depth_map := {[ 0 := depth_10ms ]};
         queue_rgb := []; queue_depth := [(stamp_nanoseconds depth_10ms, 0)];
         log := [] |}.
Proof.
  destruct (paired_strictly_within_tolerance [Rgb color0; Depth depth_5ms]
              color_2023 depth_2023_10ms) as [Hhanded Hnow].
  destruct (paired_strictly_within_tolerance [] color0 depth_10ms) as [_ Hsmall].
  split; [|split].
  - apply Hhanded.
    + vm_compute. reflexivity.
    + repeat (apply Forall_cons; split; [split; vm_compute; split; congruence|]).
      apply Forall_nil_2.
    + vm_compute. apply list_elem_of_here.
  - apply Hnow.
    + split; vm_compute; split; congruence.
    + split; vm_compute; split; congruence.
    + vm_compute. reflexivity.
  - apply Hsmall.
    + split; vm_compute; split; congruence.
    + split; vm_compute; split; congruence.
    + vm_compute. discriminate.
Defined.

(** At present-day stamps the kept timestamps are multiples of 256 ns:
    two frames whose header stamps are exactly 1e7 ns apart are paired
    (the kept ones being 9999872 ns apart), and two whose header stamps
    are 9999999 ns apart are not (10000128 ns). *)
Example present_day_stamps_are_rounded :
  stamp_nanoseconds color_2023 = 1700000000000000000
  ∧ stamp_nanoseconds depth_2023_10ms = 1700000000009999872
  ∧ log (run [Rgb color_2023; Depth depth_2023_10ms])
    = [Paired (Some color_2023) (Some depth_2023_10ms)]
  ∧ header_nanoseconds depth_2023_10000126ns - header_nanoseconds color_2023_127ns
    = 9999999
  ∧ stamp_nanoseconds depth_2023_10000126ns - stamp_nanoseconds color_2023_127ns
    = 10000128
  ∧ log (run [Rgb color_2023_127ns; Depth depth_2023_10000126ns]) = [].
Proof. vm_compute. repeat split; reflexivity. Qed.

End ImageSyncPairing.

Module BootstrapMore.
Import Bootstrap BootstrapProofs.

(** **** More on strings *)

Lemma prefix_app n b : String.prefix n (n +:+ b) = true.
Proof. induction n as [|c n IH]; [destruct b; reflexivity|]. 
  change (String c n +:+ b) with (String c (n +:+ b)). cbn [String.prefix].
  destruct (ascii_dec c c); [exact IH|contradiction].
Qed.

Lemma contains_here n b : contains n (n +:+ b) = true.
Proof.
  destruct (n +:+ b) eqn:E; cbn [contains]; rewrite <- E, prefix_app; reflexivity.
Qed.

Lemma contains_app a n b : contains n (a +:+ n +:+ b) = true.
Proof.
  induction a as [|c a IH]; [exact (contains_here n b)|].
  change (String c a +:+ n +:+ b) with (String c (a +:+ n +:+ b)).
  cbn [contains]. rewrite IH. apply orb_true_r.
Qed.

Lemma contains_suffix a n : contains n (a +:+ n) = true.
Proof.
  pose proof (contains_app a n "") as H.
  replace (n +:+ "") with n in H; [exact H|].
  clear. induction n as [|c n IH]; [reflexivity|].
  change (String c n +:+ "") with (String c (n +:+ "")). rewrite <- IH. reflexivity.
Qed.

Lemma contains_append_l a n b : contains n b = true -> contains n (a +:+ b) = true.
Proof.
  intros H. induction a as [|c a IH]; [exact H|].
  change (String c a +:+ b) with (String c (a +:+ b)).
  cbn [contains]. rewrite IH. apply orb_true_r.
Qed.

Lemma ends_with_slash_app_slash s : ends_with_slash (s +:+ "/") = true.
Proof.
  induction s as [|c s IH]; [reflexivity|].
  change (String c s +:+ "/") with (String c (s +:+ "/")).
  cbn [ends_with_slash]. destruct (s +:+ "/") eqn:E; [|exact IH].
  destruct s; discriminate.
Qed.

Lemma or_default_nonempty d o : d ≠ "" -> or_default d o ≠ "".
Proof.
  intros Hd. destruct o as [v|]; cbn; [|exact Hd].
  destruct (String.eqb v "") eqn:E; [exact Hd|]. apply String.eqb_neq, E.
Qed.

(** **** Host address and proxy exemption *)

Lemma value_export_self x e sh : value (export x e sh) x = e sh.
Proof. unfold value, export. cbn [vars]. rewrite lookup_insert_eq. reflexivity. Qed.

Lemma value_export_other x y e sh : x ≠ y -> value (export y e sh) x = value sh x.
Proof.
  intros H. unfold value, export. cbn [vars].
  rewrite lookup_insert_ne by congruence. reflexivity.
Qed.


Lemma host_ip_commands h sh :
  let out := when (λ sh, negb (nonempty (value sh "HOST_IP")))
               (export "HOST_IP" (lit "127.0.0.1"))
               (export "HOST_IP" (lit (ip_route_output h)) sh) in
  vars out !! "HOST_IP" = Some (detected_ip h)
  ∧ "HOST_IP" ∈ exported out
  ∧ (∀ x, x ≠ "HOST_IP" -> vars out !! x = vars sh !! x).
Proof.
  intros out. subst out. unfold when, detected_ip.
  rewrite value_export_self. unfold lit.
  destruct (nonempty (ip_route_output h)); cbn [negb]; unfold export; cbn [vars exported].
  - split; [apply lookup_insert_eq|]. split; [set_solver|].
    intros x Hx. apply lookup_insert_ne. congruence.
  - split; [apply lookup_insert_eq|]. split; [set_solver|].
    intros x Hx. rewrite !lookup_insert_ne by congruence. reflexivity.
Qed.

Lemma route_rest_frames h :
  let rest := drop 3 (RoutePlanning.exports h) in
  acts "HOST_IP" id (run_cmds rest)
  ∧ acts "no_proxy" id (run_cmds rest)
  ∧ cmd_mono (run_cmds rest)
  ∧ acts "HOST_IP" id (run_cmds RoutePlanning.preamble)
  ∧ acts "no_proxy" id (run_cmds RoutePlanning.preamble).
Proof.
  unfold RoutePlanning.exports, RoutePlanning.preamble, colour_codes.
  cbn [drop app].
  split; [eapply acts_ext; [solve_acts|intros o; reflexivity]|].
  split; [eapply acts_ext; [solve_acts|intros o; reflexivity]|].
  split; [solve_mono|].
  split; (eapply acts_ext; [solve_acts|intros o; reflexivity]).
Qed.

Lemma route_exports_split h sh :
  run_cmds (RoutePlanning.exports h) sh
  = run_cmds (drop 3 (RoutePlanning.exports h))
      (when (λ sh, negb (contains (value sh "HOST_IP") (value sh "no_proxy")))
         (export "no_proxy" (λ sh, value sh "no_proxy" +:+ "," +:+ value sh "HOST_IP"))
         (when (λ sh, negb (nonempty (value sh "HOST_IP")))
            (export "HOST_IP" (lit "127.0.0.1"))
            (export "HOST_IP" (lit (ip_route_output h)) sh))).
Proof. reflexivity. Qed.

Lemma route_host_state h sh :
  let out := run_cmds (RoutePlanning.exports h) sh in
  vars out !! "HOST_IP" = Some (detected_ip h)
  ∧ "HOST_IP" ∈ exported out
  ∧ contains (detected_ip h) (value out "no_proxy") = true
  ∧ (contains (detected_ip h) (value sh "no_proxy") = true ->
     vars out !! "no_proxy" = vars sh !! "no_proxy").
Proof.
  intros out. subst out.
  destruct (route_rest_frames h) as (Rip & Rnp & Rmono & _ & _).
  cbv zeta in Rip, Rnp, Rmono.
  rewrite route_exports_split.
  destruct (host_ip_commands h sh) as (Hip & Hexp & Hoth).
  cbv zeta in Hip, Hexp, Hoth.
  set (s2 := when _ _ (export "HOST_IP" _ sh)) in *.
  assert (Hv2 : value s2 "HOST_IP" = detected_ip h)
    by (unfold value; rewrite Hip; reflexivity).
  assert (Hn2 : value s2 "no_proxy" = value sh "no_proxy")
    by (unfold value; rewrite Hoth by done; reflexivity).
  set (s3 := when _ _ s2).
  assert (H3 : vars s3 !! "HOST_IP" = Some (detected_ip h)
               ∧ "HOST_IP" ∈ exported s3
               ∧ contains (detected_ip h) (value s3 "no_proxy") = true
               ∧ (contains (detected_ip h) (value sh "no_proxy") = true ->
                  vars s3 !! "no_proxy" = vars sh !! "no_proxy")).
  { subst s3. unfold when. rewrite Hv2, Hn2.
    destruct (contains (detected_ip h) (value sh "no_proxy")) eqn:Ec; cbn [negb].
    - rewrite Hn2. repeat split; try assumption.
      intros _. apply Hoth. done.
    - split; [unfold export; cbn [vars]; rewrite lookup_insert_ne by done; exact Hip|].
      split; [unfold export; cbn [exported]; apply elem_of_union; right; exact Hexp|].
      split; [|discriminate].
      rewrite value_export_self, Hv2, Hn2.
      apply contains_append_l. exact (contains_suffix "," (detected_ip h)). }
  destruct H3 as (Hip3 & Hexp3 & Hc3 & Hkeep3).
  split; [rewrite Rip; exact Hip3|].
  split; [apply Rmono, Hexp3|].
  split.
  - unfold value. rewrite Rnp. exact Hc3.
  - intros Hc. rewrite Rnp. apply Hkeep3, Hc.
Qed.



(** **** The registry prefix the route-planning script exports *)

Lemma ends_with_slash_app a b :
  b ≠ "" -> ends_with_slash (a +:+ b) = ends_with_slash b.
Proof.
  intros Hb. induction a as [|c a IH]; [reflexivity|].
  change (String c a +:+ b) with (String c (a +:+ b)).
  cbn [ends_with_slash]. destruct (a +:+ b) eqn:E; [|exact IH].
  destruct a; [cbn in E; contradiction|discriminate].
Qed.

Lemma or_default_empty o : or_default "" o = default "" o.
Proof. destruct o as [v|]; cbn; [|reflexivity]. destruct (String.eqb_spec v ""); congruence. Qed.

Lemma route_registry_inputs h :
  let before := take 6 (RoutePlanning.exports h) in
  let after := drop 7 (RoutePlanning.exports h) in
  acts "REGISTRY_URL" id (run_cmds RoutePlanning.preamble)
  ∧ acts "PROJECT_NAME" id (run_cmds RoutePlanning.preamble)
  ∧ acts "REGISTRY_URL" (λ o, Some (or_default "intel" o)) (run_cmds before)
  ∧ acts "PROJECT_NAME" (λ o, Some (or_default "" o)) (run_cmds before)
  ∧ acts "REGISTRY" id (run_cmds after)
  ∧ acts "REGISTRY_URL" id (run_cmds after)
  ∧ acts "PROJECT_NAME" id (run_cmds after)
  ∧ cmd_mono (run_cmds after).
Proof.
  unfold RoutePlanning.exports, RoutePlanning.preamble, colour_codes.
  cbn [take drop app].
  split; [eapply acts_ext; [solve_acts|intros o; reflexivity]|].
  split; [eapply acts_ext; [solve_acts|intros o; reflexivity]|].
  split; [eapply acts_ext; [solve_acts|intros o; reflexivity]|].
  split; [eapply acts_ext; [solve_acts|intros o; reflexivity]|].
  split; [eapply acts_ext; [solve_acts|intros o; reflexivity]|].
  split; [eapply acts_ext; [solve_acts|intros o; reflexivity]|].
  split; [eapply acts_ext; [solve_acts|intros o; reflexivity]|].
  solve_mono.
Qed.

Lemma route_registry_split h sh :
  run_cmds (RoutePlanning.exports h) sh
  = run_cmds (drop 7 (RoutePlanning.exports h))
      (export "REGISTRY"
         (λ sh, RoutePlanning.compose_registry
                  (value sh "REGISTRY_URL") (value sh "PROJECT_NAME"))
         (run_cmds (take 6 (RoutePlanning.exports h)) sh)).
Proof. reflexivity. Qed.

Lemma route_registry_state h sh :
  let out := run_cmds (RoutePlanning.exports h) sh in
  vars out !! "REGISTRY"
  = Some (RoutePlanning.compose_registry
            (value_or sh "REGISTRY_URL" "intel") (value sh "PROJECT_NAME"))
  ∧ value out "REGISTRY_URL" = value_or sh "REGISTRY_URL" "intel"
  ∧ value out "PROJECT_NAME" = value sh "PROJECT_NAME"
  ∧ "REGISTRY" ∈ exported out.
Proof.
  intros out. subst out.
  destruct (route_registry_inputs h) as (_ & _ & Bu & Bp & Ar & Au & Ap & Am).
  cbv zeta in Bu, Bp, Ar, Au, Ap, Am.
  rewrite route_registry_split.
  set (s6 := run_cmds (take 6 (RoutePlanning.exports h)) sh).
  assert (Hu : value s6 "REGISTRY_URL" = value_or sh "REGISTRY_URL" "intel").
  { unfold value, s6. rewrite Bu. reflexivity. }
  assert (Hp : value s6 "PROJECT_NAME" = value sh "PROJECT_NAME").
  { unfold value, s6. rewrite Bp. cbn [default]. apply or_default_empty. }
  split.
  { rewrite Ar. unfold id, export. cbn [vars].
    rewrite lookup_insert_eq, Hu, Hp. reflexivity. }
  split.
  { unfold value at 1. rewrite Au. unfold id, export. cbn [vars].
    rewrite lookup_insert_ne by done. exact Hu. }
  split.
  { unfold value at 1. rewrite Ap. unfold id, export. cbn [vars].
    rewrite lookup_insert_ne by done. exact Hp. }
  apply Am. unfold export. cbn [exported]. apply elem_of_union. left.
  apply elem_of_singleton. reflexivity.
Qed.

(** X8. The registry prefix exported by the route-planning script is
    never empty and always ends in a slash: [REGISTRY_URL] has fallen
    back to intel by the time the prefix is composed, so of the four
    branches of lines 83-95 only the first two are ever taken. *)
Theorem route_registry_is_never_empty (args : list string) (h : Host) (sh : Shell) :
  RoutePlanning.reaches_exports args = true ->
  let out := (RoutePlanning.setup args h sh).2 in
  let url := value_or sh "REGISTRY_URL" "intel" in
  let project := value sh "PROJECT_NAME" in
  value out "REGISTRY"
  = (if nonempty project
     then strip_slash url +:+ "/" +:+ strip_slash project +:+ "/"
     else strip_slash url +:+ "/")
  ∧ ends_with_slash (value out "REGISTRY") = true
  ∧ value out "REGISTRY" ≠ ""
  ∧ "REGISTRY" ∈ exported out.
Proof.
  intros Hr out url project. subst out. rewrite (route_reached args h sh Hr).
  destruct (route_registry_inputs h) as (Pu & Pp & _).
  destruct (route_registry_state h (run_cmds RoutePlanning.preamble sh))
    as (Hreg & _ & _ & Hexp).
  cbv zeta in Hreg, Hexp.
  assert (Hne : nonempty url = true).
  { apply nonempty_true. apply or_default_nonempty. discriminate. }
  assert (Hv : value (run_cmds (RoutePlanning.exports h)
                        (run_cmds RoutePlanning.preamble sh)) "REGISTRY"
               = if nonempty project
                 then strip_slash url +:+ "/" +:+ strip_slash project +:+ "/"
                 else strip_slash url +:+ "/").
  { assert (Eu : value_or (run_cmds RoutePlanning.preamble sh) "REGISTRY_URL" "intel"
                 = url)
      by (unfold url, value_or; rewrite (Pu sh); reflexivity).
    assert (Ep : value (run_cmds RoutePlanning.preamble sh) "PROJECT_NAME" = project)
      by (unfold project, value; rewrite (Pp sh); reflexivity).
    unfold value at 1. rewrite Hreg, Eu, Ep. cbn [default].
    unfold RoutePlanning.compose_registry. rewrite Hne.
    destruct (nonempty project); reflexivity. }
  rewrite Hv. split; [reflexivity|].
  assert (He : ends_with_slash
                 (if nonempty project
                  then strip_slash url +:+ "/" +:+ strip_slash project +:+ "/"
                  else strip_slash url +:+ "/") = true).
  { destruct (nonempty project); [|apply ends_with_slash_app_slash].
    rewrite ends_with_slash_app by discriminate.
    change ("/" +:+ strip_slash project +:+ "/")
      with (String "/" (strip_slash project +:+ "/")).
    cbn [ends_with_slash].
    destruct (strip_slash project +:+ "/") eqn:E;
      [destruct (strip_slash project); discriminate|].
    rewrite <- E. apply ends_with_slash_app_slash. }
  split; [exact He|]. split; [|exact Hexp].
  intros Hempty. rewrite Hempty in He. discriminate.
Qed.

Lemma route_registry_is_never_empty_witness :
  value (RoutePlanning.setup ["build"] sample_host
           (shell_with "PROJECT_NAME" "metro/")).2 "REGISTRY"
  = (if nonempty (value (shell_with "PROJECT_NAME" "metro/") "PROJECT_NAME")
     then strip_slash (value_or (shell_with "PROJECT_NAME" "metro/") "REGISTRY_URL" "intel")
          +:+ "/"
          +:+ strip_slash (value (shell_with "PROJECT_NAME" "metro/") "PROJECT_NAME")
          +:+ "/"
     else strip_slash (value_or (shell_with "PROJECT_NAME" "metro/") "REGISTRY_URL" "intel")
          +:+ "/")
  ∧ ends_with_slash
      (value (RoutePlanning.setup ["build"] sample_host
                (shell_with "PROJECT_NAME" "metro/")).2 "REGISTRY") = true
  ∧ value (RoutePlanning.setup ["build"] sample_host
             (shell_with "PROJECT_NAME" "metro/")).2 "REGISTRY" ≠ ""
  ∧ "REGISTRY" ∈ exported (RoutePlanning.setup ["build"] sample_host
                             (shell_with "PROJECT_NAME" "metro/")).2.
Proof.
  apply (route_registry_is_never_empty ["build"] sample_host
           (shell_with "PROJECT_NAME" "metro/")).
  reflexivity.
Defined.

(** **** Doubled slashes in the registry prefix *)

Lemma app_string_assoc a b c : (a +:+ b) +:+ c = a +:+ b +:+ c.
Proof.
  induction a as [|x a IH]; [reflexivity|].
  change ((String x a +:+ b) +:+ c) with (String x ((a +:+ b) +:+ c)).
  rewrite IH. reflexivity.
Qed.

Lemma strip_slash_trailing s :
  ends_with_slash s = true -> strip_slash s +:+ "/" = s.
Proof.
  induction s as [|c s IH]; [discriminate|].
  cbn [ends_with_slash strip_slash]. destruct s as [|c' s].
  - intros E. rewrite E. apply Ascii.eqb_eq in E. subst c. reflexivity.
  - intros E.
    change (String c (strip_slash (String c' s)) +:+ "/")
      with (String c (strip_slash (String c' s) +:+ "/")).
    rewrite (IH E). reflexivity.
Qed.

(** Taking one trailing slash off and putting one back neither removes
    nor adds a doubled slash. *)
Lemma has_double_slash_restored s :
  has_double_slash (strip_slash s +:+ "/") = has_double_slash s.
Proof.
  destruct (ends_with_slash s) eqn:E.
  - rewrite (strip_slash_trailing s E). reflexivity.
  - rewrite (strip_slash_no_trailing s E), has_double_slash_app, E.
    cbn. rewrite !orb_false_r. reflexivity.
Qed.

Lemma starts_with_slash_restored s :
  s ≠ "" -> starts_with_slash (strip_slash s +:+ "/") = starts_with_slash s.
Proof.
  destruct s as [|c s]; [contradiction|]. intros _.
  cbn [strip_slash]. destruct s as [|c' s].
  - destruct (Ascii.eqb c "/"%char) eqn:E.
    + change (true = Ascii.eqb c "/"%char). rewrite E. reflexivity.
    + reflexivity.
  - reflexivity.
Qed.

Lemma compose_registry_double_slash url project :
  url ≠ "" ->
  has_double_slash (RoutePlanning.compose_registry url project)
  = has_double_slash url
    || (nonempty project && (has_double_slash project || starts_with_slash project)).
Proof.
  intros Hu. unfold RoutePlanning.compose_registry.
  apply nonempty_true in Hu. rewrite Hu. cbn [andb].
  destruct (nonempty project) eqn:Ep; cbn [andb].
  - apply nonempty_true in Ep.
    rewrite <- app_string_assoc, has_double_slash_app.
    rewrite !has_double_slash_restored, ends_with_slash_app_slash.
    rewrite (starts_with_slash_restored project Ep). cbn [andb].
    rewrite orb_assoc. reflexivity.
  - rewrite has_double_slash_restored, orb_false_r. reflexivity.
Qed.

Lemma route_registry_value args h sh :
  RoutePlanning.reaches_exports args = true ->
  vars (RoutePlanning.setup args h sh).2 !! "REGISTRY"
  = Some (RoutePlanning.compose_registry
            (value_or sh "REGISTRY_URL" "intel") (value sh "PROJECT_NAME")).
Proof.
  intros Hr. rewrite (route_reached args h sh Hr).
  destruct (route_registry_inputs h) as (Pu & Pp & _).
  destruct (route_registry_state h (run_cmds RoutePlanning.preamble sh))
    as (Hreg & _).
  cbv zeta in Hreg. rewrite Hreg.
  unfold value_or, value. rewrite (Pu sh), (Pp sh). reflexivity.
Qed.

(** C8 against the code. An invocation of the route-planning script
    that runs the export section exports as [REGISTRY] what lines 83-95
    compose from [REGISTRY_URL], intel when unset or empty, and
    [PROJECT_NAME]: one trailing slash is taken off each value, no more,
    and nothing is taken off the head of the project name. The exported
    prefix therefore holds a doubled slash exactly when [REGISTRY_URL]
    holds one, or [PROJECT_NAME] is set and holds one or begins with a
    slash; a [REGISTRY_URL] that ends in two slashes is, without project
    name, exported as it is, and a project name that begins with a slash
    follows the registry after two slashes. *)
Theorem registry_export_keeps_doubled_slashes
    (args : list string) (h : Host) (sh : Shell) :
  RoutePlanning.reaches_exports args = true ->
  let out := (RoutePlanning.setup args h sh).2 in
  let url := value_or sh "REGISTRY_URL" "intel" in
  let project := value sh "PROJECT_NAME" in
  value out "REGISTRY"
  = (if nonempty project
     then strip_slash url +:+ "/" +:+ strip_slash project +:+ "/"
     else strip_slash url +:+ "/")
  ∧ has_double_slash (value out "REGISTRY")
    = has_double_slash url
      || (nonempty project && (has_double_slash project || starts_with_slash project))
  ∧ (∀ u, url = u +:+ "//" -> project = "" -> value out "REGISTRY" = u +:+ "//")
  ∧ (∀ p, p ≠ "" -> project = "/" +:+ p ->
     value out "REGISTRY" = strip_slash url +:+ "//" +:+ strip_slash p +:+ "/").
Proof.
  intros Hr out url project.
  assert (Hne : url ≠ "") by (apply or_default_nonempty; discriminate).
  assert (Hv : value out "REGISTRY" = RoutePlanning.compose_registry url project).
  { unfold value, out. rewrite (route_registry_value args h sh Hr). reflexivity. }
  rewrite Hv.
  split; [|split; [|split]].
  - unfold RoutePlanning.compose_registry.
    apply nonempty_true in Hne. rewrite Hne.
    destruct (nonempty project); reflexivity.
  - apply compose_registry_double_slash, Hne.
  - intros u Eu Ep. unfold RoutePlanning.compose_registry.
    apply nonempty_true in Hne. rewrite Hne, Ep. cbn [nonempty String.eqb negb andb].
    rewrite Eu.
    change (u +:+ "//") with (u +:+ "/" +:+ "/").
    rewrite <- (app_string_assoc u "/" "/"), strip_slash_app_slash.
    reflexivity.
  - intros p Hp Ep. unfold RoutePlanning.compose_registry.
    apply nonempty_true in Hne. rewrite Hne, Ep. cbn [andb].
    change (nonempty ("/" +:+ p)) with true. cbv iota.
    destruct p as [|c p]; [contradiction|reflexivity].
Qed.

Lemma registry_export_keeps_doubled_slashes_witness :
  has_double_slash
    (value (RoutePlanning.setup ["build"] sample_host
              (shell_with "REGISTRY_URL" "registry.local//")).2 "REGISTRY")
  = has_double_slash (value_or (shell_with "REGISTRY_URL" "registry.local//")
                        "REGISTRY_URL" "intel")
    || (nonempty (value (shell_with "REGISTRY_URL" "registry.local//") "PROJECT_NAME")
        && (has_double_slash
              (value (shell_with "REGISTRY_URL" "registry.local//") "PROJECT_NAME")
            || starts_with_slash
                 (value (shell_with "REGISTRY_URL" "registry.local//") "PROJECT_NAME")))
  ∧ value (RoutePlanning.setup ["build"] sample_host
             (shell_with "REGISTRY_URL" "registry.local//")).2 "REGISTRY"
    = "registry.local" +:+ "//".
Proof.
  destruct (registry_export_keeps_doubled_slashes ["build"] sample_host
              (shell_with "REGISTRY_URL" "registry.local//") eq_refl)
    as (_ & Hdouble & Hkept & _).
  split; [exact Hdouble|].
  apply Hkept; reflexivity.
Defined.

(** With [REGISTRY_URL=registry.local//] the images are looked for under
    registry.local//, and with [PROJECT_NAME=/apps] under intel//apps/. *)
Example registry_with_doubled_slashes :
  value (RoutePlanning.setup ["build"] sample_host
           (shell_with "REGISTRY_URL" "registry.local//")).2 "REGISTRY"
  = "registry.local//"
  ∧ value (RoutePlanning.setup ["build"] sample_host
             (shell_with "PROJECT_NAME" "/apps")).2 "REGISTRY"
    = "intel//apps/".
Proof.
  unfold value.
  rewrite !route_registry_value by reflexivity.
  split; reflexivity.
Qed.

(** **** Sourcing the route-planning script a second time *)

Lemma run_fixed cmds (sh : Shell) :
  Forall (λ cmd : Cmd, cmd sh = sh) cmds -> run_cmds cmds sh = sh.
Proof.
  induction 1 as [|cmd cmds Hc _ IH]; [reflexivity|].
  change (run_cmds (cmd :: cmds) sh) with (run_cmds cmds (cmd sh)).
  rewrite Hc. exact IH.
Qed.

Lemma assign_fixed x e sh : vars sh !! x = Some (e sh) -> assign x e sh = sh.
Proof.
  intros H. unfold assign. destruct sh as [m ex]. cbn [vars exported] in *.
  f_equal. apply insert_id, H.
Qed.

Lemma export_fixed x e sh :
  vars sh !! x = Some (e sh) -> x ∈ exported sh -> export x e sh = sh.
Proof.
  intros H Hx. unfold export. destruct sh as [m ex]. cbn [vars exported] in *.
  f_equal; [apply insert_id, H|].
  apply subseteq_union_1_L, singleton_subseteq_l, Hx.
Qed.

Lemma or_default_idem d o : or_default d (Some (or_default d o)) = or_default d o.
Proof.
  cbn. destruct (String.eqb_spec (or_default d o) "") as [E|E]; [|reflexivity].
  rewrite E. destruct o as [v|]; cbn in E; [|exact E].
  destruct (String.eqb_spec v ""); [exact E|contradiction].
Qed.

Lemma export_default_fixed x d o sh :
  vars sh !! x = Some (or_default d o) -> x ∈ exported sh ->
  export_default x d sh = sh.
Proof.
  intros H Hx. apply export_fixed; [|exact Hx].
  unfold value_or. rewrite H at 2. rewrite or_default_idem. exact H.
Qed.

Lemma route_preamble_fixed sh :
  vars sh !! "RED" = Some "\033[0;31m" ->
  vars sh !! "GREEN" = Some "\033[0;32m" ->
  vars sh !! "YELLOW" = Some "\033[0;33m" ->
  vars sh !! "BLUE" = Some "\033[0;34m" ->
  vars sh !! "NC" = Some "\033[0m" ->
  vars sh !! "SOURCE" = Some "src" ->
  vars sh !! "SECRETS_DIR" = Some "src/secrets" ->
  vars sh !! "DOCKER_DIR" = Some "docker" ->
  vars sh !! "COMPOSE_MAIN" = Some "docker/compose.yaml" ->
  run_cmds RoutePlanning.preamble sh = sh.
Proof.
  intros H1 H2 H3 H4 H5 H6 H7 H8 H9. apply run_fixed.
  unfold RoutePlanning.preamble, colour_codes. cbn [app].
  repeat (apply Forall_cons; split); try apply Forall_nil_2;
    apply assign_fixed; unfold lit, value;
    first [assumption | rewrite H6; exact H7 | rewrite H8; exact H9].
Qed.

Lemma route_preamble_values sh :
  let out := run_cmds RoutePlanning.preamble sh in
  vars out !! "RED" = Some "\033[0;31m"
  ∧ vars out !! "GREEN" = Some "\033[0;32m"
  ∧ vars out !! "YELLOW" = Some "\033[0;33m"
  ∧ vars out !! "BLUE" = Some "\033[0;34m"
  ∧ vars out !! "NC" = Some "\033[0m"
  ∧ vars out !! "SOURCE" = Some "src"
  ∧ vars out !! "SECRETS_DIR" = Some "src/secrets"
  ∧ vars out !! "DOCKER_DIR" = Some "docker"
  ∧ vars out !! "COMPOSE_MAIN" = Some "docker/compose.yaml".
Proof.
  intros out. subst out.
  unfold RoutePlanning.preamble, colour_codes, run_cmds. cbn [app fold_left].
  unfold assign, lit, value. cbn [vars].
  repeat split;
    repeat first [rewrite lookup_insert_eq | rewrite lookup_insert_ne by done];
    reflexivity.
Qed.

Lemma route_preamble_kept h :
  acts "RED" id (run_cmds (RoutePlanning.exports h))
  ∧ acts "GREEN" id (run_cmds (RoutePlanning.exports h))
  ∧ acts "YELLOW" id (run_cmds (RoutePlanning.exports h))
  ∧ acts "BLUE" id (run_cmds (RoutePlanning.exports h))
  ∧ acts "NC" id (run_cmds (RoutePlanning.exports h))
  ∧ acts "SOURCE" id (run_cmds (RoutePlanning.exports h))
  ∧ acts "SECRETS_DIR" id (run_cmds (RoutePlanning.exports h))
  ∧ acts "DOCKER_DIR" id (run_cmds (RoutePlanning.exports h))
  ∧ acts "COMPOSE_MAIN" id (run_cmds (RoutePlanning.exports h)).
Proof.
  unfold RoutePlanning.exports.
  repeat split; (eapply acts_ext; [solve_acts|intros o; reflexivity]).
Qed.

Lemma host_ip_fixed h sh :
  vars sh !! "HOST_IP" = Some (detected_ip h) -> "HOST_IP" ∈ exported sh ->
  when (λ sh, negb (nonempty (value sh "HOST_IP")))
    (export "HOST_IP" (lit "127.0.0.1"))
    (export "HOST_IP" (lit (ip_route_output h)) sh) = sh.
Proof.
  intros Hip Hexp. unfold when. rewrite value_export_self. unfold lit.
  revert Hip. unfold detected_ip.
  destruct (nonempty (ip_route_output h)); cbn [negb]; intros Hip.
  - apply export_fixed; assumption.
  - unfold export. destruct sh as [m ex]. cbn [vars exported] in *.
    f_equal.
    + rewrite insert_insert_eq. apply insert_id, Hip.
    + rewrite (assoc_L (∪)), union_idemp_L.
      apply subseteq_union_1_L, singleton_subseteq_l, Hexp.
Qed.

Lemma route_exports_fixed h sh0 sh :
  vars sh !! "HOST_IP" = Some (detected_ip h) -> "HOST_IP" ∈ exported sh ->
  contains (detected_ip h) (value sh "no_proxy") = true ->
  (∀ x d, (x, d) ∈ RoutePlanning.defaults ->
     vars sh !! x = Some (or_default d (vars sh0 !! x)) ∧ x ∈ exported sh) ->
  vars sh !! "REGISTRY"
  = Some (RoutePlanning.compose_registry
            (value sh "REGISTRY_URL") (value sh "PROJECT_NAME")) ->
  "REGISTRY" ∈ exported sh ->
  run_cmds (RoutePlanning.exports h) sh = sh.
Proof.
  intros Hip Hexp Hc Hdef Hreg Hregx.
  rewrite route_exports_split, host_ip_fixed by assumption.
  assert (Hskip : when (λ sh, negb (contains (value sh "HOST_IP") (value sh "no_proxy")))
                    (export "no_proxy"
                       (λ sh, value sh "no_proxy" +:+ "," +:+ value sh "HOST_IP")) sh
                  = sh).
  { assert (Hv : value sh "HOST_IP" = detected_ip h)
      by (unfold value; rewrite Hip; reflexivity).
    unfold when. rewrite Hv, Hc. reflexivity. }
  rewrite Hskip. apply run_fixed.
  unfold RoutePlanning.exports. cbn [drop].
  assert (Hd : ∀ x d, (x, d) ∈ RoutePlanning.defaults -> export_default x d sh = sh).
  { intros x d Hin. destruct (Hdef x d Hin) as [Hv Hx].
    eapply export_default_fixed; eassumption. }
  repeat (apply Forall_cons; split); try apply Forall_nil_2.
  all: try (apply Hd; unfold RoutePlanning.defaults; solve_member).
  apply export_fixed; assumption.
Qed.

(** X9. Sourcing the route-planning script a second time with the same
    arguments on the same host changes nothing: the shell it leaves -
    variables and export marks - is a fixed point of the script. *)
Theorem route_setup_twice_changes_nothing
    (args : list string) (h : Host) (sh : Shell) :
  (RoutePlanning.setup args h (RoutePlanning.setup args h sh).2).2
  = (RoutePlanning.setup args h sh).2.
Proof.
  destruct (route_preamble_values sh) as (P1 & P2 & P3 & P4 & P5 & P6 & P7 & P8 & P9).
  cbv zeta in P1, P2, P3, P4, P5, P6, P7, P8, P9.
  destruct (RoutePlanning.reaches_exports args) eqn:Hr.
  - rewrite !(route_reached args h _ Hr).
    set (s0 := run_cmds RoutePlanning.preamble sh) in *.
    set (out := run_cmds (RoutePlanning.exports h) s0).
    destruct (route_preamble_kept h) as (K1 & K2 & K3 & K4 & K5 & K6 & K7 & K8 & K9).
    assert (Hpre : run_cmds RoutePlanning.preamble out = out).
    { apply route_preamble_fixed; unfold out;
        [rewrite K1|rewrite K2|rewrite K3|rewrite K4|rewrite K5|rewrite K6
        |rewrite K7|rewrite K8|rewrite K9]; assumption. }
    rewrite Hpre.
    destruct (route_host_state h s0) as (Hip & Hexp & Hc & _).
    destruct (route_registry_state h s0) as (Hreg & Hu & Hp & Hregx).
    cbv zeta in Hip, Hexp, Hc, Hreg, Hu, Hp, Hregx. fold out in Hip, Hexp, Hc, Hreg, Hu, Hp, Hregx.
    apply (route_exports_fixed h s0); try assumption.
    + intros x d Hin. destruct (route_defaults x d h Hin) as (_ & Hv & Hx).
      split; [apply Hv|apply Hx].
    + rewrite Hu, Hp. exact Hreg.
  - rewrite !(route_turned_away args h _ Hr).
    apply route_preamble_fixed; assumption.
Qed.

(** **** A command the route-planning script does not know *)

(** X10. The route-planning script looks at its command only after
    the exports: a single argument that is none of its commands makes it
    return 1, yet every variable with a default has been exported by
    then. The intersection script turns an unknown option away at once:
    it returns 1 with nothing set but the colour codes and nothing
    exported. *)
Theorem unknown_command_is_noticed_late (verb : string) (h : Host) (sh : Shell) :
  verb ∉ ["setup"; "build"; "up"; "down"; "restart"; "help"] ->
  Intersection.known_option verb = false ->
  ((RoutePlanning.setup [verb] h sh).1 = 1
   ∧ ∀ x d, (x, d) ∈ RoutePlanning.defaults ->
       x ∈ exported (RoutePlanning.setup [verb] h sh).2)
  ∧ Intersection.setup [verb] h sh = (1, run_cmds colour_codes sh)
  ∧ exported (Intersection.setup [verb] h sh).2 = exported sh.
Proof.
  intros Hverb Hopt.
  assert (Hne : ∀ known, known ∈ ["setup"; "build"; "up"; "down"; "restart"; "help"] ->
                  String.eqb verb known = false).
  { intros known Hin. apply String.eqb_neq. intros ->. contradiction. }
  split; [split|split].
  - unfold RoutePlanning.setup, RoutePlanning.dispatch. cbn [length Nat.ltb Nat.leb].
    rewrite !Hne by solve_member. cbn [fst].
    destruct (docker_available h); reflexivity.
  - intros x d Hin.
    rewrite (route_reached [verb] h sh)
      by (cbn; rewrite Hne by solve_member; reflexivity).
    destruct (route_defaults x d h Hin) as (_ & _ & Hx). apply Hx.
  - unfold Intersection.setup, Intersection.rejected.
    assert (Hhelp : String.eqb verb "--help" = false).
    { unfold Intersection.known_option in Hopt.
      repeat (apply orb_false_iff in Hopt as [Hopt ?]). exact Hopt. }
    rewrite Hhelp, Hopt. reflexivity.
  - unfold Intersection.setup, Intersection.rejected.
    assert (Hhelp : String.eqb verb "--help" = false).
    { unfold Intersection.known_option in Hopt.
      repeat (apply orb_false_iff in Hopt as [Hopt ?]). exact Hopt. }
    rewrite Hhelp, Hopt. reflexivity.
Qed.

Lemma unknown_command_is_noticed_late_witness :
  ((RoutePlanning.setup ["start"] sample_host fresh_shell).1 = 1
   ∧ ∀ x d, (x, d) ∈ RoutePlanning.defaults ->
       x ∈ exported (RoutePlanning.setup ["start"] sample_host fresh_shell).2)
  ∧ Intersection.setup ["start"] sample_host fresh_shell
    = (1, run_cmds colour_codes fresh_shell)
  ∧ exported (Intersection.setup ["start"] sample_host fresh_shell).2
    = exported fresh_shell.
Proof.
  apply (unknown_command_is_noticed_late "start" sample_host fresh_shell).
  - intros Hin. repeat (apply elem_of_cons in Hin as [Hin|Hin]; [discriminate|]).
    apply elem_of_nil in Hin. exact Hin.
  - reflexivity.
Defined.

(** **** The container entrypoint *)

Lemma entrypoint_split backend_pid ui_pid sh :
  Entrypoint.entrypoint backend_pid ui_pid sh
  = run_cmds (Entrypoint.start_services backend_pid ui_pid)
      (export "API_URL"
         (λ sh, value_or sh "API_URL"
                  ("http://localhost:" +:+ value sh "TRAFFIC_INTERSECTION_AGENT_PORT"
                   +:+ "/api/v1/traffic/current"))
         (run_cmds (take 4 Entrypoint.configuration)
            (run_cmds Entrypoint.colour_codes sh))).
Proof. reflexivity. Qed.

Lemma entrypoint_frames backend_pid ui_pid :
  acts "TRAFFIC_INTERSECTION_AGENT_PORT" id (run_cmds Entrypoint.colour_codes)
  ∧ acts "API_URL" id (run_cmds Entrypoint.colour_codes)
  ∧ acts "TRAFFIC_INTERSECTION_AGENT_PORT" (λ o, Some (or_default "8081" o))
      (run_cmds (take 4 Entrypoint.configuration))
  ∧ acts "API_URL" id (run_cmds (take 4 Entrypoint.configuration))
  ∧ acts "TRAFFIC_INTERSECTION_AGENT_PORT" id
      (run_cmds (Entrypoint.start_services backend_pid ui_pid))
  ∧ acts "API_URL" id (run_cmds (Entrypoint.start_services backend_pid ui_pid))
  ∧ cmd_mono (run_cmds (Entrypoint.start_services backend_pid ui_pid)).
Proof.
  unfold Entrypoint.colour_codes, Entrypoint.configuration, Entrypoint.start_services.
  cbn [take].
  repeat (split; [eapply acts_ext; [solve_acts|intros o; reflexivity]|]).
  solve_mono.
Qed.

(** X11. The entrypoint of the intersection agent builds the default
    of [API_URL] from the port it has just settled: whatever the
    environment holds, the port exported is the given one or 8081 and is
    never empty, and an [API_URL] that was unset or empty ends as the
    address of that very port on localhost; an [API_URL] that was given
    is kept. *)
Theorem entrypoint_api_url_follows_the_port (backend_pid ui_pid : string) (sh : Shell) :
  let out := Entrypoint.entrypoint backend_pid ui_pid sh in
  let port := value out "TRAFFIC_INTERSECTION_AGENT_PORT" in
  port = value_or sh "TRAFFIC_INTERSECTION_AGENT_PORT" "8081"
  ∧ port ≠ ""
  ∧ value out "API_URL"
    = value_or sh "API_URL"
        ("http://localhost:" +:+ port +:+ "/api/v1/traffic/current")
  ∧ value out "API_URL" ≠ ""
  ∧ "API_URL" ∈ exported out.
Proof.
  intros out port. subst port out. rewrite entrypoint_split.
  destruct (entrypoint_frames backend_pid ui_pid)
    as (Cp & Cu & Fp & Fu & Sp & Su & Sm).
  set (s4 := run_cmds (take 4 Entrypoint.configuration)
               (run_cmds Entrypoint.colour_codes sh)).
  assert (Hp4 : value s4 "TRAFFIC_INTERSECTION_AGENT_PORT"
                = value_or sh "TRAFFIC_INTERSECTION_AGENT_PORT" "8081").
  { unfold value, s4. rewrite Fp, Cp. reflexivity. }
  assert (Hu4 : vars s4 !! "API_URL" = vars sh !! "API_URL").
  { unfold s4. rewrite Fu, Cu. reflexivity. }
  assert (Hport : value (run_cmds (Entrypoint.start_services backend_pid ui_pid)
                    (export "API_URL"
                       (λ sh, value_or sh "API_URL"
                                ("http://localhost:"
                                 +:+ value sh "TRAFFIC_INTERSECTION_AGENT_PORT"
                                 +:+ "/api/v1/traffic/current")) s4))
                    "TRAFFIC_INTERSECTION_AGENT_PORT"
                  = value_or sh "TRAFFIC_INTERSECTION_AGENT_PORT" "8081").
  { unfold value at 1. rewrite Sp. unfold id, export. cbn [vars].
    rewrite lookup_insert_ne by done. exact Hp4. }
  assert (Hurl : value (run_cmds (Entrypoint.start_services backend_pid ui_pid)
                    (export "API_URL"
                       (λ sh, value_or sh "API_URL"
                                ("http://localhost:"
                                 +:+ value sh "TRAFFIC_INTERSECTION_AGENT_PORT"
                                 +:+ "/api/v1/traffic/current")) s4))
                    "API_URL"
                 = value_or sh "API_URL"
                     ("http://localhost:"
                      +:+ value_or sh "TRAFFIC_INTERSECTION_AGENT_PORT" "8081"
                      +:+ "/api/v1/traffic/current")).
  { unfold value at 1. rewrite Su. unfold id, export. cbn [vars].
    rewrite lookup_insert_eq. cbn [default]. rewrite Hp4.
    unfold value_or. rewrite Hu4. reflexivity. }
  rewrite Hport, Hurl.
  split; [reflexivity|].
  split; [apply or_default_nonempty; discriminate|].
  split; [reflexivity|].
  split; [apply or_default_nonempty; discriminate|].
  apply Sm. unfold export. cbn [exported]. apply elem_of_union. left.
  apply elem_of_singleton. reflexivity.
Qed.

End BootstrapMore.

Module VideoStreamProofs.
Import UI UI.VideoStream.

Lemma status_cases v :
  getStreamStatus v = "loading" ∨ getStreamStatus v = "active"
  ∨ getStreamStatus v = "video_failed" ∨ getStreamStatus v = "audio_only"
  ∨ getStreamStatus v = "inactive".
Proof.
  unfold getStreamStatus.
  destruct (videoAnalyticsLoading (ui v)); [auto|].
  destruct (videoAnalyticsActive (ui v) && hasValidStreams v); [auto|].
  cbv zeta.
  destruct (match videoStatus (ui v) with
            | VideoStatus.starting | VideoStatus.streaming => true
            | _ => false
            end); [auto|].
  repeat match goal with |- context [if ?c then _ else _] => destruct c end; auto 10.
Qed.

Lemma status_active v :
  getStreamStatus v = "active" ->
  videoAnalyticsLoading (ui v) = false
  ∧ videoAnalyticsActive (ui v) = true ∧ hasValidStreams v = true.
Proof.
  unfold getStreamStatus.
  destruct (videoAnalyticsLoading (ui v)); [discriminate|].
  destruct (videoAnalyticsActive (ui v) && hasValidStreams v) eqn:E.
  - intros _. apply andb_true_iff in E. tauto.
  - cbv zeta.
    repeat match goal with |- context [if ?c then _ else _] => destruct c end;
      discriminate.
Qed.

(** X12. The body of the room view always shows one of its five
    proper blocks: [getStreamStatus] answers one of loading, active,
    video_failed, audio_only and inactive, and answers active only when a
    stream is valid, so the closing placeholder of the render (lines
    382-398) is never shown. *)
Theorem closing_placeholder_is_never_shown (v : View) :
  body v ≠ ConfigureCameras
  ∧ (getStreamStatus v = "active" -> hasValidStreams v = true)
  ∧ getStreamStatus v ∈ ["loading"; "active"; "video_failed"; "audio_only"; "inactive"].
Proof.
  split; [|split].
  - unfold body. cbv zeta.
    destruct (status_cases v) as [E|[E|[E|[E|E]]]]; rewrite E;
      try (cbn; discriminate).
    destruct (status_active v E) as (_ & _ & ->). cbn. discriminate.
  - intros E. apply (status_active v E).
  - destruct (status_cases v) as [E|[E|[E|[E|E]]]]; rewrite E;
      repeat first [apply list_elem_of_here | apply list_elem_of_further].
Qed.

(** **** The stream the layout plays *)

Lemma valid_is_truthy url : isValidStream url = true -> truthy url = true.
Proof.
  unfold isValidStream. intros H.
  apply andb_true_iff in H as [H _]. apply andb_true_iff in H as [H _]. exact H.
Qed.

Lemma player_valid v pipeline :
  isValidStream (streams v pipeline) = true ->
  player v pipeline = [(pipeline, streams v pipeline)].
Proof.
  intros H. unfold player. rewrite (valid_is_truthy _ H), H. reflexivity.
Qed.

(** The selected label stands for a valid stream. *)
Lemma selected_plays v :
  match activeStream (ui v) with
  | Some Stream.all => hasValidStreams v = true
  | Some pipeline => isValidStream (streams v pipeline) = true
  | None => False
  end ->
  players v ≠ [].
Proof.
  unfold players. destruct (activeStream (ui v)) as [[| | |]|]; try contradiction.
  - intros H. rewrite (player_valid _ _ H). discriminate.
  - intros H. rewrite (player_valid _ _ H). discriminate.
  - intros H. rewrite (player_valid _ _ H). discriminate.
  - unfold hasValidStreams. intros H.
    destruct (isValidStream (streams v Stream.front)) eqn:Ef;
      [rewrite (player_valid _ _ Ef); discriminate|].
    destruct (isValidStream (streams v Stream.back)) eqn:Eb;
      [rewrite (player_valid _ _ Eb); intros Hn; apply app_eq_nil in Hn as [_ Hn];
       discriminate|].
    destruct (isValidStream (streams v Stream.content)) eqn:Ec; [|discriminate].
    rewrite (player_valid _ _ Ec). intros Hn.
    apply app_eq_nil in Hn as [_ Hn]. apply app_eq_nil in Hn as [_ Hn]. discriminate.
Qed.

Lemma selection_after_effect ts (w : World Local) :
  let v := render ts (after_effect ts w) in
  videoAnalyticsActive (ui v) = true -> hasValidStreams v = true ->
  match activeStream (ui v) with
  | Some Stream.all => hasValidStreams v = true
  | Some pipeline => isValidStream (streams v pipeline) = true
  | None => False
  end.
Proof.
  unfold after_effect, syncActiveStream, getAvailableStreams, hasValidStreams,
    render, streams. cbn [ui].
  destruct (isValidStream (frontCameraStream (store w))) eqn:Ef,
    (isValidStream (backCameraStream (store w))) eqn:Eb,
    (isValidStream (boardCameraStream (store w))) eqn:Ec,
    (videoAnalyticsActive (store w)) eqn:Ea;
    cbn; rewrite ?Ef, ?Eb, ?Ec, ?Ea; cbn; congruence.
Qed.

Lemma selection_after_click ts pipeline (w : World Local) :
  let v := render ts w in
  let v' := render ts (click_label v pipeline w).2 in
  (videoAnalyticsActive (ui v) = true -> hasValidStreams v = true ->
   match activeStream (ui v) with
   | Some Stream.all => hasValidStreams v = true
   | Some pipeline => isValidStream (streams v pipeline) = true
   | None => False
   end) ->
  (videoAnalyticsActive (ui v') = true -> hasValidStreams v' = true ->
   match activeStream (ui v') with
   | Some Stream.all => hasValidStreams v' = true
   | Some pipeline => isValidStream (streams v' pipeline) = true
   | None => False
   end)
  ∧ videoAnalyticsActive (ui v') = videoAnalyticsActive (ui v)
  ∧ hasValidStreams v' = hasValidStreams v.
Proof.
  unfold click_label, handleStreamClick, hasValidStreams, render, streams.
  cbn [ui]. intros H.
  destruct (videoAnalyticsLoading (store w)); cbn [negb andb]; [auto|].
  destruct pipeline; cbn [negb].
  - destruct (isValidStream (frontCameraStream (store w))) eqn:E; cbn;
      rewrite ?E; repeat split; auto.
  - destruct (isValidStream (backCameraStream (store w))) eqn:E; cbn;
      rewrite ?E; repeat split; auto.
  - destruct (isValidStream (boardCameraStream (store w))) eqn:E; cbn;
      rewrite ?E; repeat split; auto.
  - destruct (isValidStream (frontCameraStream (store w))
              || isValidStream (backCameraStream (store w))
              || isValidStream (boardCameraStream (store w))) eqn:E; cbn;
      rewrite ?E; repeat split; auto.
Qed.

Lemma selection_after_clicks ts pipelines : forall (w : World Local),
  (let v := render ts w in
   videoAnalyticsActive (ui v) = true -> hasValidStreams v = true ->
   match activeStream (ui v) with
   | Some Stream.all => hasValidStreams v = true
   | Some pipeline => isValidStream (streams v pipeline) = true
   | None => False
   end) ->
  let v' := render ts (after_clicks ts pipelines w) in
  videoAnalyticsActive (ui v') = true -> hasValidStreams v' = true ->
  match activeStream (ui v') with
  | Some Stream.all => hasValidStreams v' = true
  | Some pipeline => isValidStream (streams v' pipeline) = true
  | None => False
  end.
Proof.
  induction pipelines as [|pipeline pipelines IH]; intros w H; [exact H|].
  unfold after_clicks. cbn [fold_left].
  apply (IH (click_label (render ts w) pipeline w).2).
  apply (selection_after_click ts pipeline w H).
Qed.

(** X13. Once the effect that follows the streams has run, whatever
    stream labels are clicked afterwards, a room view that shows the
    streams layout plays at least one stream: the selected label always
    stands for a valid stream address. *)
Theorem streams_layout_plays_a_stream
    (ts : string) (pipelines : list Stream.t) (w : World Local)
    (shown : list (Stream.t * string)) :
  body (render ts (after_clicks ts pipelines (after_effect ts w))) = StreamsLayout shown ->
  shown ≠ [].
Proof.
  set (v := render ts (after_clicks ts pipelines (after_effect ts w))).
  unfold body. cbv zeta.
  destruct (status_cases v) as [E|[E|[E|[E|E]]]]; rewrite E; try (cbn; discriminate).
  destruct (status_active v E) as (_ & Ha & Hv). rewrite Hv. cbn.
  intros [= <-]. apply selected_plays.
  apply (selection_after_clicks ts pipelines (after_effect ts w)); [|exact Ha|exact Hv].
  apply selection_after_effect.
Qed.

Lemma streams_layout_plays_a_stream_witness :
  body (render "idle" (after_clicks "idle" [Stream.back] (after_effect "idle" front_playing)))
  = StreamsLayout [(Stream.front, "http://hls/front")]
  ∧ [(Stream.front, "http://hls/front")] ≠ [].
Proof.
  split; [vm_compute; reflexivity|].
  apply (streams_layout_plays_a_stream "idle" [Stream.back] front_playing).
  vm_compute. reflexivity.
Defined.

End VideoStreamProofs.

Module TranscriptStreamProofs.
Import UI UI.UploadFilesModal.

Lemma audioStatus_transcriptionComplete s :
  audioStatus (transcriptionComplete s) = AudioStatus.summarizing.
Proof. unfold transcriptionComplete. cbn. destruct (autoSwitched s); reflexivity. Qed.

Lemma consume_close pre ev post r :
  Forall (λ e, closes e = false) pre -> closes ev = true ->
  consume (pre ++ ev :: post) r = consume (pre ++ [ev]) r
  ∧ (consume (pre ++ [ev]) r).1 = true.
Proof.
  intros Hpre Hev. revert r.
  induction Hpre as [|e pre He _ IH]; intros r.
  - destruct ev; try discriminate; split; reflexivity.
  - destruct e; try discriminate; cbn [app consume]; apply IH.
Qed.

(** X14. The transcript loop stops at the first error or done event:
    the events that follow it in the stream, and the way the stream
    ends, change nothing - neither the store nor the actions on the
    transcript. *)
Theorem transcript_stream_stops_at_close
    (pre post : list StreamEvent) (ev : StreamEvent) (ending ending' : StreamEnd)
    (state : UIState) :
  Forall (λ e, closes e = false) pre -> closes ev = true ->
  run (pre ++ ev :: post) ending state = run (pre ++ [ev]) ending' state.
Proof.
  intros Hpre Hev. unfold run.
  destruct (consume_close pre ev post
              {| ui_state := state; transcript := []; sentFirst := false |} Hpre Hev)
    as [-> Hb].
  destruct (consume (pre ++ [ev]) _) as [b r]. cbn in Hb. subst b. reflexivity.
Qed.

Lemma transcript_stream_stops_at_close_witness :
  run ([TranscriptToken "Good"] ++ StreamDone :: [TranscriptToken "late"]) Failed
      initialState
  = run ([TranscriptToken "Good"] ++ [StreamDone]) Exhausted initialState.
Proof.
  apply (transcript_stream_stops_at_close [TranscriptToken "Good"]
           [TranscriptToken "late"] StreamDone Failed Exhausted initialState).
  - apply Forall_cons; split; [reflexivity|apply Forall_nil_2].
  - reflexivity.
Defined.

Lemma consume_actions events : forall r,
  let out := consume events r in
  out.1 = bool_decide (is_Some (closing_event events))
  ∧ transcript out.2
    = transcript r
      ++ (if sentFirst r then [] else
            match tokens_read events with [] => [] | _ => [StartTranscript] end)
      ++ (AppendTranscript <$> tokens_read events)
      ++ (if out.1 then [FinishTranscript] else [])
  ∧ audioStatus (ui_state out.2)
    = match closing_event events with
      | Some StreamDone => AudioStatus.summarizing
      | Some _ => AudioStatus.error
      | None =>
          if sentFirst r then audioStatus (ui_state r)
          else match tokens_read events with
               | [] => audioStatus (ui_state r)
               | _ => AudioStatus.transcribing
               end
      end.
Proof.
  induction events as [|ev events IH]; intros r.
  - cbn. destruct (sentFirst r); rewrite ?app_nil_r; repeat split; reflexivity.
  - destruct ev as [token|message| |].
    + cbn [consume]. cbv zeta. unfold closing_event. cbn [tokens_read].
      rewrite filter_cons_False by (cbn; discriminate).
      fold (closing_event events).
      destruct (sentFirst r) eqn:Es; cbn [negb ui_state transcript sentFirst];
        rewrite ?Es;
        match goal with |- context [consume events ?r1] =>
          destruct (IH r1) as (Hb & Ht & Ha) end;
        cbv zeta in Hb, Ht, Ha; cbn [ui_state transcript sentFirst] in Hb, Ht, Ha;
        rewrite ?Es in Hb, Ht, Ha; rewrite ?Es;
        (split; [exact Hb|]); (split; [rewrite Ht; rewrite <- ?app_assoc; reflexivity|]);
        rewrite Ha; [reflexivity|].
      destruct (closing_event events) as [[]|]; reflexivity.
    + cbn. destruct (sentFirst r); repeat split; reflexivity.
    + cbn. rewrite audioStatus_transcriptionComplete.
      destruct (sentFirst r); repeat split; reflexivity.
    + cbn [consume]. destruct (IH r) as (Hb & Ht & Ha). cbv zeta in Hb, Ht, Ha.
      unfold closing_event in *. cbn [tokens_read].
      rewrite filter_cons_False by (cbn; discriminate).
      auto.
Qed.

(** X15. What the transcript loop does with a stream, in closed
    form. The transcript is started once, before the first token, and
    only if there is a token; the tokens read before the closing event
    are appended in their order; the transcript is finished exactly when
    an error or done event arrives. The audio status ends summarizing
    after done, error after an error event or a failing stream, and
    otherwise transcribing if a token was read and untouched if none
    was. *)
Theorem transcript_actions_follow_the_tokens
    (events : list StreamEvent) (ending : StreamEnd) (state : UIState) :
  let r := run events ending state in
  transcript r
  = match tokens_read events with
    | [] => []
    | tokens => StartTranscript :: (AppendTranscript <$> tokens)
    end
    ++ match closing_event events with
       | Some _ => [FinishTranscript]
       | None => []
       end
  ∧ audioStatus (ui_state r)
    = match closing_event events, ending with
      | Some StreamDone, _ => AudioStatus.summarizing
      | Some _, _ => AudioStatus.error
      | None, Failed => AudioStatus.error
      | None, _ =>
          match tokens_read events with
          | [] => audioStatus state
          | _ => AudioStatus.transcribing
          end
      end.
Proof.
  intros r. subst r. unfold run.
  destruct (consume_actions events
              {| ui_state := state; transcript := []; sentFirst := false |})
    as (Hb & Ht & Ha).
  cbv zeta in Hb, Ht, Ha. cbn [transcript sentFirst ui_state app] in Ht, Ha.
  destruct (consume events _) as [b r]. cbn [fst snd] in Hb, Ht, Ha.
  destruct (closing_event events) as [ev|] eqn:Ec.
  - rewrite bool_decide_eq_true_2 in Hb by eauto. subst b.
    split; [|exact Ha].
    rewrite Ht. destruct (tokens_read events); reflexivity.
  - rewrite bool_decide_eq_false_2 in Hb by (intros [? ?]; discriminate). subst b.
    split.
    + destruct ending; cbn [transcript]; rewrite Ht;
        destruct (tokens_read events); reflexivity.
    + destruct ending; cbn [ui_state]; try exact Ha. reflexivity.
Qed.

End TranscriptStreamProofs.

Module HandlerLogic.
Import UI.

(** **** Rules for [triple] *)

Section Rules.
Context {L : Type}.
Implicit Types P E : World L → Prop.

Lemma triple_consequence {A} P P' (Q Q' : A → World L → Prop) E E' (h : Handler L A) :
  triple P' h Q' E' ->
  (∀ w, P w -> P' w) -> (∀ a w, Q' a w -> Q a w) -> (∀ w, E' w -> E w) ->
  triple P h Q E.
Proof.
  intros H HP HQ HE w Hw. specialize (H w (HP w Hw)).
  destruct (h w) as [[a|] w']; auto.
Qed.

Lemma triple_false {A} (h : Handler L A) Q E : triple (λ _, False) h Q E.
Proof. intros w []. Qed.

Lemma triple_any {A} (h : Handler L A) P : triple P h (λ _ _, True) (λ _, True).
Proof. intros w _. destruct (h w) as [[a|] w']; exact I. Qed.

Lemma triple_ret {A} (a : A) P (Q : A → World L → Prop) E :
  (∀ w, P w -> Q a w) -> triple P (mret a) Q E.
Proof. intros H w Hw. apply H, Hw. Qed.

Lemma triple_skip P (Q : unit → World L → Prop) E :
  (∀ w, P w -> Q () w) -> triple P skip Q E.
Proof. apply triple_ret. Qed.

Lemma triple_throw {A} P (Q : A → World L → Prop) E :
  (∀ w, P w -> E w) -> triple P throw Q E.
Proof. intros H w Hw. apply H, Hw. Qed.

Lemma triple_bind {A B} P (Q' : A → World L → Prop) (Q : B → World L → Prop) E
    (m : Handler L A) (k : A → Handler L B) :
  triple P m Q' E -> (∀ a, triple (Q' a) (k a) Q E) -> triple P (m ≫= k) Q E.
Proof.
  intros Hm Hk w Hw. specialize (Hm w Hw).
  unfold mbind, handler_bind. destruct (m w) as [[a|] w1]; [|exact Hm].
  apply (Hk a w1 Hm).
Qed.

Lemma triple_try_catch {A} P (Q : A → World L → Prop) E E'
    (body handler : Handler L A) :
  triple P body Q E' -> triple E' handler Q E -> triple P (try_catch body handler) Q E.
Proof.
  intros Hb Hh w Hw. specialize (Hb w Hw). unfold try_catch.
  destruct (body w) as [[a|] w1]; [exact Hb|]. apply (Hh w1 Hb).
Qed.

Lemma triple_finally {A} P (Q Q' : A → World L → Prop) E E'
    (body : Handler L A) (cleanup : Handler L unit) :
  triple P body Q' E' ->
  (∀ a, triple (Q' a) cleanup (λ _, Q a) E) ->
  triple E' cleanup (λ _, E) E ->
  triple P (finally body cleanup) Q E.
Proof.
  intros Hb Hq He w Hw. specialize (Hb w Hw). unfold finally.
  destruct (body w) as [[a|] w1].
  - specialize (Hq a w1 Hb). destruct (cleanup w1) as [[[]|] w2]; exact Hq.
  - specialize (He w1 Hb). destruct (cleanup w1) as [[[]|] w2]; exact He.
Qed.

Lemma triple_dispatch P (Q : unit → World L → Prop) E action :
  (∀ w, P w -> Q () (Build_World (action (store w)) (local w) (trace w))) ->
  triple P (dispatch action) Q E.
Proof. intros H w Hw. apply H, Hw. Qed.

Lemma triple_perform P (Q : unit → World L → Prop) E e :
  (∀ w, P w -> Q () (Build_World (store w) (local w) (trace w ++ [e]))) ->
  triple P (perform e) Q E.
Proof. intros H w Hw. apply H, Hw. Qed.

Lemma triple_set_local P (Q : unit → World L → Prop) E f :
  (∀ w, P w -> Q () (Build_World (store w) (f (local w)) (trace w))) ->
  triple P (set_local f) Q E.
Proof. intros H w Hw. apply H, Hw. Qed.

Lemma triple_await {A} P (Q : A → World L → Prop) E call (response : option A) :
  (∀ w a, P w -> response = Some a ->
     Q a (Build_World (store w) (local w) (trace w ++ [call]))) ->
  (∀ w, P w -> response = None ->
     E (Build_World (store w) (local w) (trace w ++ [call]))) ->
  triple P (await call response) Q E.
Proof.
  unfold await. destruct response as [x|]; intros HQ HE w Hw; cbn.
  - apply HQ; [exact Hw|reflexivity].
  - apply HE; [exact Hw|reflexivity].
Qed.

Lemma triple_setTimeout P (Q : Z → World L → Prop) E b ms task :
  (∀ w, P w ->
     Q (timer_id b) (Build_World (store w) (local w) (trace w ++ [SetTimeout ms task]))) ->
  triple P (setTimeout b ms task) Q E.
Proof. intros H w Hw. apply H, Hw. Qed.

Lemma triple_if {A} P (Q : A → World L → Prop) E (c : bool) (h1 h2 : Handler L A) :
  (c = true -> triple P h1 Q E) -> (c = false -> triple P h2 Q E) ->
  triple P (if c then h1 else h2) Q E.
Proof. destruct c; auto. Qed.

Lemma triple_for_each {A} P E (f : A → Handler L unit) l :
  (∀ a, triple P (f a) (λ _, P) E) -> triple P (for_each f l) (λ _, P) E.
Proof.
  intros H. induction l as [|a l IH]; cbn [for_each].
  - apply triple_skip. auto.
  - eapply triple_bind; [apply H|intros ?; exact IH].
Qed.

(** What holds of the world a handler leaves, however it ends. *)
Lemma triple_final {A} P (R : World L → Prop) (h : Handler L A) w :
  triple P h (λ _, R) R -> P w -> R (h w).2.
Proof. intros H Hw. specialize (H w Hw). destruct (h w) as [[a|] w']; exact H. Qed.

Lemma triple_returns {A} P (Q : A → World L → Prop) (h : Handler L A) w :
  triple P h Q (λ _, False) -> P w -> ∃ a w', h w = (Returned a, w') ∧ Q a w'.
Proof.
  intros H Hw. specialize (H w Hw). destruct (h w) as [[a|] w']; [eauto|contradiction].
Qed.

End Rules.

(** Walks a handler with one assertion [I] held throughout: [leaf]
    proves that the steps keep it. With [False] as exceptional
    postcondition the handler is shown not to throw: a [try] may then
    throw anywhere in its body, a [finally] nowhere. *)
Ltac walk_with known leaf :=
  cbv beta zeta;
  first
  [ solve [known]
  | lazymatch goal with
    | |- triple ?I (mbind _ _) _ _ =>
        eapply (triple_bind I (λ _, I));
        [walk_with known leaf|intros ?; walk_with known leaf]
    | |- triple ?I (try_catch _ _) _ ?E =>
        eapply (triple_try_catch I _ E I); [walk_with known leaf|walk_with known leaf]
    | |- triple ?I (finally _ _) _ (λ _, False) =>
        eapply (triple_finally I _ (λ _, I) (λ _, False) (λ _, False));
        [walk_with known leaf|intros ?; walk_with known leaf|apply triple_false]
    | |- triple ?I (finally _ _) _ ?E =>
        eapply (triple_finally I _ (λ _, I) E I);
        [walk_with known leaf|intros ?; walk_with known leaf|walk_with known leaf]
    | |- triple _ (if ?c then _ else _) _ _ => destruct c; walk_with known leaf
    | |- triple _ (match ?x with _ => _ end) _ _ => destruct x; walk_with known leaf
    | |- triple _ (dispatch _) _ _ => apply triple_dispatch; leaf
    | |- triple _ (perform _) _ _ => apply triple_perform; leaf
    | |- triple _ (set_local _) _ _ => apply triple_set_local; leaf
    | |- triple _ (await _ _) _ _ => apply triple_await; leaf
    | |- triple _ (setTimeout _ _ _) _ _ => apply triple_setTimeout; leaf
    | |- triple _ (for_each _ _) _ _ =>
        apply triple_for_each; intros ?; walk_with known leaf
    | |- triple _ skip _ _ => apply triple_skip; leaf
    | |- triple _ (mret _) _ _ => apply triple_ret; leaf
    | |- triple _ throw _ _ => apply triple_throw; leaf
    | |- triple _ ?h _ _ => fail 1000 "no rule for" h
    end ].

Ltac walk leaf := walk_with fail leaf.

(** One step of a sequence, [I] holding before and after it. *)
Ltac seq I leaf := eapply (triple_bind I (λ _, I)); [walk leaf|intros ?; cbv beta].

Create HintDb reducers.

#[export] Hint Unfold startProcessing processingFailed transcriptionComplete
  clearSummaryStartRequest setUploadedAudioPath setSessionId setVideoSessionId
  setActiveStream firstSummaryToken summaryDone mindmapStart mindmapSuccess
  mindmapFailed clearMindmapStartRequest setActiveTab setProjectLocation
  setFrontCamera setBackCamera setBoardCamera setFrontCameraStream
  setBackCameraStream setBoardCameraStream resetStream startStream stopStream
  setVideoAnalyticsLoading setVideoAnalyticsActive setProcessingMode
  loadCameraSettingsFromStorage setAudioStatus setVideoStatus setHasAudioDevices
  setAudioDevicesLoading setIsRecording setJustStoppedRecording
  setVideoAnalyticsStopping startTranscription setHasUploadedVideoFiles
  resetFlow : reducers.

(** A step keeps an assertion on fields of the store and of the local
    state. *)
Ltac kept :=
  intros; cbn [store local trace] in *;
  repeat match goal with H : _ ∧ _ |- _ => destruct H end;
  repeat split;
  try discriminate;
  autounfold with reducers; cbn;
  repeat case_match;
  first [assumption | reflexivity | congruence].

End HandlerLogic.

Module HeaderProofs.
Import UI UI.Header HandlerLogic.

(** **** The record control *)

Lemma startVideoAnalyticsInBackground_returns b v session :
  triple (λ _, True) (startVideoAnalyticsInBackground b v session)
    (λ _ _, True) (λ _, False).
Proof.
  unfold startVideoAnalyticsInBackground, no_video, dispatch_stream.
  walk ltac:(intros; exact I).
Qed.

Lemma startRecording_returns b v :
  triple (λ _, True) (startRecording b v) (λ _ _, True) (λ _, False).
Proof.
  unfold startRecording.
  pose proof (startVideoAnalyticsInBackground_returns b v) as Hvideo.
  walk_with ltac:(eapply triple_consequence; [apply Hvideo|auto|auto|intros ? []])
            ltac:(intros; exact I).
Qed.

Lemma stopRecording_returns b v :
  triple (λ _, True) (stopRecording b v) (λ _ _, True) (λ _, False).
Proof.
  unfold stopRecording, stop_audio, stop_video, stop_resets, stop_failed, clear_streams.
  walk ltac:(intros; exact I).
Qed.

(** X16. A click on the record control never throws, whatever the
    backend answers and whatever the page holds: every call that can be
    rejected sits in a [try] whose handler cannot fail. *)
Theorem record_click_never_throws (b : Backend) (v : View) (w : World Local) :
  ∃ w', handleRecordingToggle b v w = (Returned (), w').
Proof.
  assert (H : triple (λ _, True) (handleRecordingToggle b v) (λ _ _, True) (λ _, False)).
  { unfold handleRecordingToggle.
    pose proof (startRecording_returns b v) as Hstart.
    pose proof (stopRecording_returns b v) as Hstop.
    walk_with ltac:(first [apply Hstart | apply Hstop]) ltac:(intros; exact I). }
  destruct (triple_returns _ _ _ w H I) as ([] & w' & Hw & _). eauto.
Qed.

(** **** The transient flags that lock the control *)

Lemma startVideoAnalyticsInBackground_flags b v session :
  triple (λ w : World Local, videoAnalyticsStopping (store w) = false
                             ∧ videoAnalyticsLoading (store w) = false)
    (startVideoAnalyticsInBackground b v session)
    (λ _ w, videoAnalyticsStopping (store w) = false
            ∧ videoAnalyticsLoading (store w) = false)
    (λ w, videoAnalyticsStopping (store w) = false
          ∧ videoAnalyticsLoading (store w) = false).
Proof.
  unfold startVideoAnalyticsInBackground.
  destruct (negb (videoAnalyticsEnabled (cells v))); [walk kept|].
  eapply (triple_finally _ _
            (λ _ w, videoAnalyticsStopping (store w) = false)
            _ (λ w, videoAnalyticsStopping (store w) = false)).
  - eapply triple_consequence;
      [|intros w [H _]; exact H|intros ? ? H; exact H|intros ? H; exact H].
    unfold no_video, dispatch_stream. walk kept.
  - intros ?. walk kept.
  - walk kept.
Qed.

Lemma stop_video_flags b v :
  triple (λ w : World Local, videoAnalyticsStopping (store w) = false
                             ∧ videoAnalyticsLoading (store w) = false)
    (stop_video b v)
    (λ _ w, videoAnalyticsStopping (store w) = false
            ∧ videoAnalyticsLoading (store w) = false)
    (λ w, videoAnalyticsStopping (store w) = false
          ∧ videoAnalyticsLoading (store w) = false).
Proof.
  unfold stop_video. cbv zeta.
  destruct (_ && truthy_opt _).
  - eapply (triple_finally _ _
              (λ _ w, videoAnalyticsLoading (store w) = false)
              _ (λ w, videoAnalyticsLoading (store w) = false)).
    + eapply triple_consequence;
        [|intros w [_ H]; exact H|intros ? ? H; exact H|intros ? H; exact H].
      walk kept.
    + intros ?. walk kept.
    + walk kept.
  - unfold clear_streams. walk kept.
Qed.

(** X17. A click on the record control leaves neither of the two
    transient flags set that disable the control: if the stopping and
    the loading flag of the video analytics were clear before the click
    they are clear after it, whether the backend calls succeed or
    fail. *)
Theorem record_click_leaves_no_lock
    (b : Backend) (ts : string) (mm : MindmapState) (w : World Local) :
  videoAnalyticsStopping (store w) = false ->
  videoAnalyticsLoading (store w) = false ->
  videoAnalyticsStopping (store (click_record b ts mm w).2) = false
  ∧ videoAnalyticsLoading (store (click_record b ts mm w).2) = false.
Proof.
  intros Hs Hl. unfold click_record.
  apply (triple_final
           (λ w : World Local, videoAnalyticsStopping (store w) = false
                               ∧ videoAnalyticsLoading (store w) = false));
    [|split; assumption].
  generalize (render ts mm w). intros v.
  unfold handleRecordingToggle, startRecording, stopRecording, stop_audio,
    stop_resets, stop_failed.
  pose proof (startVideoAnalyticsInBackground_flags b v) as Hstart.
  pose proof (stop_video_flags b v) as Hstop.
  walk_with ltac:(first [apply Hstart | apply Hstop]) kept.
Qed.

Lemma record_click_leaves_no_lock_witness :
  videoAnalyticsStopping
    (store (click_record ok_backend "idle" no_mindmap microphone_only).2) = false
  ∧ videoAnalyticsLoading
      (store (click_record ok_backend "idle" no_mindmap microphone_only).2) = false.
Proof.
  apply (record_click_leaves_no_lock ok_backend "idle" no_mindmap microphone_only);
    reflexivity.
Defined.

(** **** Starting a recording *)

Lemma startVideoAnalyticsInBackground_recording b v session :
  triple (λ w : World Local, errorMsg (local w) = None ∧ isRecording (store w) = true)
    (startVideoAnalyticsInBackground b v session)
    (λ _ w, errorMsg (local w) = None ∧ isRecording (store w) = true)
    (λ _, False).
Proof.
  unfold startVideoAnalyticsInBackground, no_video, dispatch_stream.
  walk kept.
Qed.

Lemma startRecording_with_session b v session :
  createSession_response b = Some session ->
  triple (λ w : World Local, errorMsg (local w) = None)
    (startRecording b v)
    (λ _ w, errorMsg (local w) = None ∧ isRecording (store w) = true)
    (λ _, False).
Proof.
  intros Hsession. unfold startRecording. rewrite Hsession.
  do 7 seq (λ w : World Local, errorMsg (local w) = None) kept.
  eapply (triple_try_catch _ _ _ (λ _, False)); [|apply triple_false].
  do 4 seq (λ w : World Local, errorMsg (local w) = None) kept.
  eapply (triple_bind _
            (λ _ w, errorMsg (local w) = None ∧ isRecording (store w) = true)).
  { apply triple_dispatch. kept. }
  intros ?.
  pose proof (startVideoAnalyticsInBackground_recording b v) as Hvideo.
  walk_with ltac:(apply Hvideo) kept.
Qed.

Lemma startRecording_without_session b v :
  createSession_response b = None ->
  triple (λ _ : World Local, True)
    (startRecording b v)
    (λ _ w, errorMsg (local w) = Some (t "errors.failedToStartRecording")
            ∧ isRecording (store w) = false
            ∧ audioStatus (store w) = AudioStatus.error
            ∧ videoStatus (store w) = VideoStatus.failed)
    (λ _, False).
Proof.
  intros Hsession. unfold startRecording. rewrite Hsession.
  do 7 seq (λ _ : World Local, True) kept.
  eapply (triple_try_catch _ _ _ (λ _, True)).
  { eapply (triple_bind _ (λ _ _, False)); [|intros ?; apply triple_false].
    apply triple_await; [discriminate|auto]. }
  eapply (triple_bind _
            (λ _ w, errorMsg (local w) = Some (t "errors.failedToStartRecording"))).
  { apply triple_set_local. kept. }
  intros ?.
  eapply (triple_bind _
            (λ _ w, errorMsg (local w) = Some (t "errors.failedToStartRecording")
                    ∧ audioStatus (store w) = AudioStatus.error
                    ∧ videoStatus (store w) = VideoStatus.failed)).
  { apply triple_dispatch. kept. }
  intros ?.
  eapply (triple_bind _
            (λ _ w, errorMsg (local w) = Some (t "errors.failedToStartRecording")
                    ∧ isRecording (store w) = false
                    ∧ audioStatus (store w) = AudioStatus.error
                    ∧ videoStatus (store w) = VideoStatus.failed)).
  { apply triple_dispatch. kept. }
  intros ?. walk kept.
Qed.

(** The cameras are as they were when the handler returns, and the
    flag for uploaded video files is clear: [resetFlow] keeps the former
    and clears the latter, and no later step writes them. *)
Lemma startRecording_sources b v front back board :
  triple (λ w : World Local, frontCamera (store w) = front
                             ∧ backCamera (store w) = back
                             ∧ boardCamera (store w) = board)
    (startRecording b v)
    (λ _ w, frontCamera (store w) = front
            ∧ backCamera (store w) = back
            ∧ boardCamera (store w) = board
            ∧ hasUploadedVideoFiles (store w) = false)
    (λ _, False).
Proof.
  unfold startRecording.
  seq (λ w : World Local, frontCamera (store w) = front
                          ∧ backCamera (store w) = back
                          ∧ boardCamera (store w) = board) kept.
  eapply (triple_bind _
            (λ _ w, frontCamera (store w) = front
                    ∧ backCamera (store w) = back
                    ∧ boardCamera (store w) = board
                    ∧ hasUploadedVideoFiles (store w) = false)).
  { apply triple_dispatch. kept. }
  intros ?.
  unfold startVideoAnalyticsInBackground, no_video, dispatch_stream.
  walk kept.
Qed.

Lemma triple_both {A} (P P' : World Local → Prop) (Q Q' : A → World Local → Prop)
    (E E' : World Local → Prop) (h : Handler Local A) :
  triple P h Q E -> triple P' h Q' E' ->
  triple (λ w, P w ∧ P' w) h (λ a w, Q a w ∧ Q' a w) (λ w, E w ∧ E' w).
Proof.
  intros H H' w [Hw Hw']. specialize (H w Hw). specialize (H' w Hw').
  destruct (h w) as [[a|] w']; split; assumption.
Qed.

(** **** The effect that keeps the video status in step *)

Lemma syncVideoStatus_run v (w : World Local) :
  syncVideoStatus v w
  = (Returned (),
     Build_World
       (if hasVideoCapability v
        then match videoStatus (ui v) with
             | VideoStatus.no_config => setVideoStatus VideoStatus.ready (store w)
             | _ => store w
             end
        else match videoStatus (ui v) with
             | VideoStatus.no_config => store w
             | _ => setVideoStatus VideoStatus.no_config (store w)
             end)
       (local w) (trace w)).
Proof.
  unfold syncVideoStatus. cbv zeta.
  destruct w as [s l tr], (hasVideoCapability v), (videoStatus (ui v)); reflexivity.
Qed.

Lemma setVideoStatus_same (s : UIState) : setVideoStatus (videoStatus s) s = s.
Proof. destruct s. reflexivity. Qed.

(** A run of the effect, in whatever render, writes the video status
    only, and writes ready or no-config if anything. *)
Lemma syncVideoStatus_writes v (w : World Local) :
  ∃ status, (syncVideoStatus v w).2
            = Build_World (setVideoStatus status (store w)) (local w) (trace w)
            ∧ (status = videoStatus (store w) ∨ status = VideoStatus.ready
               ∨ status = VideoStatus.no_config).
Proof.
  rewrite syncVideoStatus_run. cbn [snd].
  destruct (hasVideoCapability v), (videoStatus (ui v)).
  all: first
    [ exists (videoStatus (store w)); split; [rewrite setVideoStatus_same; reflexivity|];
      left; reflexivity
    | exists VideoStatus.ready; split; [reflexivity|right; left; reflexivity]
    | exists VideoStatus.no_config; split; [reflexivity|right; right; reflexivity] ].
Qed.

Lemma syncVideoStatus_runs_write (earlier : list View) : ∀ w : World Local,
  ∃ status, fold_left (λ w v, (syncVideoStatus v w).2) earlier w
            = Build_World (setVideoStatus status (store w)) (local w) (trace w)
            ∧ (status = videoStatus (store w) ∨ status = VideoStatus.ready
               ∨ status = VideoStatus.no_config).
Proof.
  induction earlier as [|v earlier IH]; intros w; cbn [fold_left].
  - exists (videoStatus (store w)). split; [|left; reflexivity].
    rewrite setVideoStatus_same. destruct w; reflexivity.
  - destruct (syncVideoStatus_writes v w) as (st1 & -> & H1).
    destruct (IH (Build_World (setVideoStatus st1 (store w)) (local w) (trace w)))
      as (st2 & -> & H2).
    exists st2. split; [reflexivity|].
    cbn [store] in H2.
    change (videoStatus (setVideoStatus st1 (store w))) with st1 in H2.
    destruct H2 as [->|H2]; [exact H1|right; exact H2].
Qed.

(** A run of the effect in the render of the page it acts on. *)
Lemma syncVideoStatus_here ts mm (w : World Local) :
  (syncVideoStatus (render ts mm w) w).2
  = Build_World
      (if hasVideoCapability (render ts mm w)
       then match videoStatus (store w) with
            | VideoStatus.no_config => setVideoStatus VideoStatus.ready (store w)
            | _ => store w
            end
       else match videoStatus (store w) with
            | VideoStatus.no_config => store w
            | _ => setVideoStatus VideoStatus.no_config (store w)
            end)
      (local w) (trace w).
Proof. rewrite syncVideoStatus_run. reflexivity. Qed.

Lemma hasVideoCapability_status ts mm status s (l : Local) tr tr' :
  hasVideoCapability (render ts mm (Build_World (setVideoStatus status s) l tr))
  = hasVideoCapability (render ts mm (Build_World s l tr')).
Proof. reflexivity. Qed.

(** X18. Whether a click that starts a recording succeeds hinges on
    the session alone. If the session is created the page ends
    recording and without error message, also when the monitoring or the
    video analytics fail to start. If it is not, the handler leaves the
    page not recording, with audio status error, video status failed and
    the message that the recording failed to start; the effect that
    keeps the video status in step with the video capability, run in the
    render of that page, leaves all of this as it is on a page with a
    camera configured and puts the video status to no-config on a page
    without one. *)
Theorem start_hinges_on_the_session
    (b : Backend) (ts : string) (mm : MindmapState) (w : World Local) :
  isRecording (store w) = false ->
  isRecordingDisabled (render ts mm w) = false ->
  let w' := (click_record b ts mm w).2 in
  let settled := (syncVideoStatus (render ts mm w') w').2 in
  let camera := truthy (trim (frontCamera (store w)))
                || truthy (trim (backCamera (store w)))
                || truthy (trim (boardCamera (store w))) in
  (createSession_response b ≠ None ->
     isRecording (store w') = true ∧ errorMsg (local w') = None
     ∧ isRecording (store settled) = true ∧ errorMsg (local settled) = None)
  ∧ (createSession_response b = None ->
     isRecording (store w') = false
     ∧ audioStatus (store w') = AudioStatus.error
     ∧ videoStatus (store w') = VideoStatus.failed
     ∧ errorMsg (local w') = Some (t "errors.failedToStartRecording")
     ∧ isRecording (store settled) = false
     ∧ audioStatus (store settled) = AudioStatus.error
     ∧ errorMsg (local settled) = Some (t "errors.failedToStartRecording")
     ∧ videoStatus (store settled)
       = if camera then VideoStatus.failed else VideoStatus.no_config).
Proof.
  intros Hrec Hen w' settled camera.
  set (v := render ts mm w) in Hen.
  assert (Hclick : w' = ((set_local (λ l, l <| errorMsg := None |>);;
                          startRecording b v) w).2).
  { subst w'. unfold click_record, handleRecordingToggle. fold v. rewrite Hen.
    change (isRecording (ui v)) with (isRecording (store w)).
    rewrite Hrec. reflexivity. }
  assert (Hsettled : ∃ status,
            settled = Build_World (setVideoStatus status (store w')) (local w') (trace w'))
    by (destruct (syncVideoStatus_writes (render ts mm w') w') as (st & H & _); eauto).
  assert (Hhere : settled
            = Build_World
                (if hasVideoCapability (render ts mm w')
                 then match videoStatus (store w') with
                      | VideoStatus.no_config =>
                          setVideoStatus VideoStatus.ready (store w')
                      | _ => store w'
                      end
                 else match videoStatus (store w') with
                      | VideoStatus.no_config => store w'
                      | _ => setVideoStatus VideoStatus.no_config (store w')
                      end)
                (local w') (trace w'))
    by apply syncVideoStatus_here.
  clearbody settled w' v.
  split.
  - destruct (createSession_response b) as [session|] eqn:Hsession; [|congruence].
    intros _.
    assert (H : triple (λ _ : World Local, True)
                  (set_local (λ l, l <| errorMsg := None |>);; startRecording b v)
                  (λ _ w, errorMsg (local w) = None ∧ isRecording (store w) = true)
                  (λ _, False)).
    { eapply (triple_bind _ (λ _ w, errorMsg (local w) = None)).
      - apply triple_set_local. kept.
      - intros ?. apply (startRecording_with_session b v session Hsession). }
    destruct (triple_returns _ _ _ w H I) as ([] & w0 & Hw0 & He & Hr).
    rewrite Hw0 in Hclick. cbn [snd] in Hclick. subst w'.
    destruct Hsettled as (status & ->). cbn [store local].
    repeat split; assumption.
  - intros Hsession.
    assert (H : triple (λ w0 : World Local, True
                          ∧ (frontCamera (store w0) = frontCamera (store w)
                             ∧ backCamera (store w0) = backCamera (store w)
                             ∧ boardCamera (store w0) = boardCamera (store w)))
                  (set_local (λ l, l <| errorMsg := None |>);; startRecording b v)
                  (λ _ w0,
                     (errorMsg (local w0) = Some (t "errors.failedToStartRecording")
                      ∧ isRecording (store w0) = false
                      ∧ audioStatus (store w0) = AudioStatus.error
                      ∧ videoStatus (store w0) = VideoStatus.failed)
                     ∧ (frontCamera (store w0) = frontCamera (store w)
                        ∧ backCamera (store w0) = backCamera (store w)
                        ∧ boardCamera (store w0) = boardCamera (store w)
                        ∧ hasUploadedVideoFiles (store w0) = false))
                  (λ _, False)).
    { eapply (triple_bind _
                (λ _ w0, True
                         ∧ (frontCamera (store w0) = frontCamera (store w)
                            ∧ backCamera (store w0) = backCamera (store w)
                            ∧ boardCamera (store w0) = boardCamera (store w)))).
      - apply triple_set_local. kept.
      - intros ?. eapply triple_consequence.
        + apply (triple_both _ _ _ _ _ _ _
                   (startRecording_without_session b v Hsession)
                   (startRecording_sources b v (frontCamera (store w))
                      (backCamera (store w)) (boardCamera (store w)))).
        + auto.
        + auto.
        + intros ? [[] _]. }
    destruct (triple_returns _ _ _ w H (conj I (conj eq_refl (conj eq_refl eq_refl))))
      as ([] & w0 & Hw0 & (He & Hr & Ha & Hv) & (Hf & Hb & Hc & Hu)).
    rewrite Hw0 in Hclick. cbn [snd] in Hclick. subst w'.
    assert (Hcap : hasVideoCapability (render ts mm w0) = camera).
    { unfold hasVideoCapability, camera. cbn [ui render].
      rewrite Hf, Hb, Hc, Hu. apply orb_false_r. }
    rewrite Hcap, Hv in Hhere. rewrite Hhere.
    destruct camera; cbn [store local]; repeat split; assumption.
Qed.

Lemma start_hinges_on_the_session_witness :
  (isRecording (store (click_record ok_backend "idle" no_mindmap microphone_only).2)
   = true
   ∧ errorMsg (local (click_record ok_backend "idle" no_mindmap microphone_only).2)
     = None)
  ∧ (videoStatus
       (store (click_record no_session_backend "idle" no_mindmap microphone_only).2)
     = VideoStatus.failed
     ∧ videoStatus
         (store (syncVideoStatus
                   (render "idle" no_mindmap
                      (click_record no_session_backend "idle" no_mindmap
                         microphone_only).2)
                   (click_record no_session_backend "idle" no_mindmap
                      microphone_only).2).2)
       = VideoStatus.no_config)
  ∧ videoStatus
      (store (syncVideoStatus
                (render "idle" no_mindmap
                   (click_record no_session_backend "idle" no_mindmap camera_only).2)
                (click_record no_session_backend "idle" no_mindmap camera_only).2).2)
    = VideoStatus.failed.
Proof.
  destruct (start_hinges_on_the_session ok_backend "idle" no_mindmap microphone_only
              eq_refl eq_refl) as [Hcreated _].
  destruct (start_hinges_on_the_session no_session_backend "idle" no_mindmap
              microphone_only eq_refl eq_refl) as [_ Hfailed].
  destruct (start_hinges_on_the_session no_session_backend "idle" no_mindmap
              camera_only eq_refl eq_refl) as [_ Hcamera].
  split; [|split].
  - destruct Hcreated as (Hr & He & _); [discriminate|]. split; assumption.
  - destruct (Hfailed eq_refl) as (_ & _ & Hv & _ & _ & _ & _ & Hs).
    split; [exact Hv|exact Hs].
  - destruct (Hcamera eq_refl) as (_ & _ & _ & _ & _ & _ & _ & Hs). exact Hs.
Defined.

(** **** The effects of the header *)

Lemma mount_sources storedFront storedBack storedBoard devices (w : World Local) :
  let s' := store (mount storedFront storedBack storedBoard devices w).2 in
  frontCamera s' = (if truthy_opt storedFront then default "" storedFront
                    else frontCamera (store w))
  ∧ backCamera s' = (if truthy_opt storedBack then default "" storedBack
                     else backCamera (store w))
  ∧ boardCamera s' = (if truthy_opt storedBoard then default "" storedBoard
                      else boardCamera (store w))
  ∧ hasUploadedVideoFiles s' = hasUploadedVideoFiles (store w).
Proof.
  unfold mount, checkAudioDevices.
  destruct storedFront as [[|? ?]|], storedBack as [[|? ?]|],
    storedBoard as [[|? ?]|], devices as [[?|]|]; cbn; repeat split.
Qed.

Lemma truthy_trim_stored (stored : option string) :
  truthy (trim (if truthy_opt stored then default "" stored else ""))
  = truthy_opt (trim <$> stored).
Proof. destruct stored as [[|? ?]|]; reflexivity. Qed.

(** X19. When the header is mounted, the probe for audio devices
    always comes to an end: the loading flag is cleared, and the audio
    status is ready if the backend reports a device and no-devices if
    it reports none, reports nothing or fails - it is never left at
    checking. The mount effect leaves the video status at ready exactly
    if a stored camera setting is not blank. Once the effect that keeps
    the video status in step has run in the render of the resulting
    page - whatever renders it ran in before - the video status is ready
    exactly if the page has video capability, be it by a stored camera,
    by a camera the store held already or by uploaded video files, and
    the outcome of the probe stands. On a page mounted from the initial
    state the two agree: the page is as the mount effect left it. *)
Theorem mount_settles_the_statuses
    (storedFront storedBack storedBoard : option string)
    (devices : option (option (list string)))
    (ts : string) (mm : MindmapState) (earlier : list View) (w : World Local) :
  let out := mount storedFront storedBack storedBoard devices w in
  let found := match devices with
               | Some (Some l) => (0 <? length l)%nat
               | _ => false
               end in
  let settled :=
    (syncVideoStatus
       (render ts mm (fold_left (λ w v, (syncVideoStatus v w).2) earlier out.2))
       (fold_left (λ w v, (syncVideoStatus v w).2) earlier out.2)).2 in
  out.1 = Returned ()
  ∧ audioDevicesLoading (store out.2) = false
  ∧ hasAudioDevices (store out.2) = found
  ∧ audioStatus (store out.2)
    = (if found then AudioStatus.ready else AudioStatus.no_devices)
  ∧ videoStatus (store out.2)
    = (if truthy_opt (trim <$> storedFront) || truthy_opt (trim <$> storedBack)
          || truthy_opt (trim <$> storedBoard)
       then VideoStatus.ready else VideoStatus.no_config)
  ∧ audioDevicesLoading (store settled) = false
  ∧ hasAudioDevices (store settled) = found
  ∧ audioStatus (store settled)
    = (if found then AudioStatus.ready else AudioStatus.no_devices)
  ∧ hasVideoCapability (render ts mm settled) = hasVideoCapability (render ts mm out.2)
  ∧ videoStatus (store settled)
    = (if hasVideoCapability (render ts mm out.2)
       then VideoStatus.ready else VideoStatus.no_config)
  ∧ (store w = initialState -> settled = out.2).
Proof.
  intros out found settled.
  assert (Hout : out.1 = Returned ()
                 ∧ audioDevicesLoading (store out.2) = false
                 ∧ hasAudioDevices (store out.2) = found
                 ∧ audioStatus (store out.2)
                   = (if found then AudioStatus.ready else AudioStatus.no_devices)
                 ∧ videoStatus (store out.2)
                   = (if truthy_opt (trim <$> storedFront)
                         || truthy_opt (trim <$> storedBack)
                         || truthy_opt (trim <$> storedBoard)
                      then VideoStatus.ready else VideoStatus.no_config)).
  { subst out found. unfold mount, checkAudioDevices.
    destruct devices as [[l|]|]; cbn; repeat split. }
  destruct Hout as (H1 & H2 & H3 & H4 & H5).
  assert (Hfresh : store w = initialState ->
            videoStatus (store out.2)
            = (if hasVideoCapability (render ts mm out.2)
               then VideoStatus.ready else VideoStatus.no_config)).
  { intros Hw. rewrite H5.
    destruct (mount_sources storedFront storedBack storedBoard devices w)
      as (Hf & Hb & Hc & Hu).
    fold out in Hf, Hb, Hc, Hu.
    unfold hasVideoCapability. cbn [ui render].
    rewrite Hf, Hb, Hc, Hu, Hw, !truthy_trim_stored, orb_false_r. reflexivity. }
  assert (Hsettled : settled
            = Build_World
                (setVideoStatus
                   (if hasVideoCapability (render ts mm out.2)
                    then VideoStatus.ready else VideoStatus.no_config)
                   (store out.2))
                (local out.2) (trace out.2)).
  { subst settled.
    destruct (syncVideoStatus_runs_write earlier out.2) as (status & -> & Hstatus).
    rewrite syncVideoStatus_here. cbn [store local trace].
    rewrite (hasVideoCapability_status ts mm status (store out.2) (local out.2)
               (trace out.2) (trace out.2)).
    change (videoStatus (setVideoStatus status (store out.2))) with status.
    replace (render ts mm {| store := store out.2; local := local out.2;
                             trace := trace out.2 |})
      with (render ts mm out.2) by (destruct out.2; reflexivity).
    assert (Hst : status = VideoStatus.ready ∨ status = VideoStatus.no_config).
    { destruct Hstatus as [->|Hstatus]; [|exact Hstatus].
      rewrite H5. destruct (_ || _); [left|right]; reflexivity. }
    destruct (hasVideoCapability (render ts mm out.2)), Hst as [-> | ->]; reflexivity. }
  clearbody settled. subst settled.
  repeat split; try assumption.
  intros Hw. rewrite <- (Hfresh Hw), setVideoStatus_same.
  destruct out.2; reflexivity.
Qed.

Lemma mount_settles_the_statuses_witness :
  (syncVideoStatus
     (render "idle" no_mindmap
        (fold_left (λ w v, (syncVideoStatus v w).2)
           [render "idle" no_mindmap fresh_page]
           (mount (Some "rtsp://camera/front") None None (Some (Some ["microphone"]))
              fresh_page).2))
     (fold_left (λ w v, (syncVideoStatus v w).2)
        [render "idle" no_mindmap fresh_page]
        (mount (Some "rtsp://camera/front") None None (Some (Some ["microphone"]))
           fresh_page).2)).2
  = (mount (Some "rtsp://camera/front") None None (Some (Some ["microphone"]))
       fresh_page).2.
Proof.
  apply (mount_settles_the_statuses (Some "rtsp://camera/front") None None
           (Some (Some ["microphone"])) "idle" no_mindmap
           [render "idle" no_mindmap fresh_page] fresh_page).
  reflexivity.
Defined.

(** In that run the status effect first acts in the render of the page
    before the mount, where it sees no camera and writes no-config over
    the ready of the mount effect; in the next render it writes ready
    again. *)
Example stale_render_is_made_good :
  videoStatus (store (mount (Some "rtsp://camera/front") None None
                        (Some (Some ["microphone"])) fresh_page).2)
  = VideoStatus.ready
  ∧ videoStatus
      (store (syncVideoStatus (render "idle" no_mindmap fresh_page)
                (mount (Some "rtsp://camera/front") None None
                   (Some (Some ["microphone"])) fresh_page).2).2)
    = VideoStatus.no_config.
Proof. split; reflexivity. Qed.

(** X20. The effect that keeps the video status in step with the
    video capability reaches its goal in one run: afterwards the status
    is no-config exactly if the page has no video capability, and a
    second run of the effect, in the new render, changes nothing. *)
Theorem video_status_follows_capability
    (ts : string) (mm : MindmapState) (w : World Local) :
  let w' := (syncVideoStatus (render ts mm w) w).2 in
  let v' := render ts mm w' in
  hasVideoCapability v' = hasVideoCapability (render ts mm w)
  ∧ (videoStatus (store w') = VideoStatus.no_config <-> hasVideoCapability v' = false)
  ∧ syncVideoStatus v' w' = (Returned (), w').
Proof.
  intros w' v'. subst v' w'. destruct w as [s l tr].
  rewrite !syncVideoStatus_run. cbn [snd store local trace].
  change (ui (render ts mm (Build_World s l tr))) with s.
  assert (Hcap : ∀ status,
            hasVideoCapability (render ts mm (Build_World (setVideoStatus status s) l tr))
            = hasVideoCapability (render ts mm (Build_World s l tr))) by reflexivity.
  destruct (hasVideoCapability (render ts mm (Build_World s l tr))) eqn:Ec,
    (videoStatus s) eqn:Es;
    rewrite ?Hcap, ?Ec;
    change (ui (render ts mm (Build_World s l tr))) with s;
    change (ui (render ts mm (Build_World (setVideoStatus VideoStatus.ready s) l tr)))
      with (setVideoStatus VideoStatus.ready s);
    change (ui (render ts mm (Build_World (setVideoStatus VideoStatus.no_config s) l tr)))
      with (setVideoStatus VideoStatus.no_config s);
    rewrite ?Es;
    change (videoStatus (setVideoStatus VideoStatus.ready s)) with VideoStatus.ready;
    change (videoStatus (setVideoStatus VideoStatus.no_config s))
      with VideoStatus.no_config;
    cbn [store];
    (split; [reflexivity|]); (split; [|reflexivity]);
    split; congruence.
Qed.

End HeaderProofs.

Module UploadProofs.
Import UI UI.UploadFilesModal HandlerLogic.

(** **** The apply button with files chosen *)

Lemma files_chosen (v : Local) :
  is_Some (audioFile v) ∨ is_Some (frontCameraPath v)
  ∨ is_Some (rearCameraPath v) ∨ is_Some (boardCameraPath v) ->
  negb (bool_decide (is_Some (audioFile v)))
  && negb (bool_decide (is_Some (frontCameraPath v))
           || bool_decide (is_Some (rearCameraPath v))
           || bool_decide (is_Some (boardCameraPath v))) = false.
Proof.
  intros [H|[H|[H|H]]]; rewrite (bool_decide_eq_true_2 _ H); cbn;
    rewrite ?orb_true_r, ?andb_false_r; reflexivity.
Qed.

Ltac unfold_apply :=
  unfold handleApply, startVideoAnalyticsWithSession,
    startStreamTranscriptAndVideoAnalytics, dispatch_stream.

Lemma handleApply_loading b v :
  is_Some (audioFile v) ∨ is_Some (frontCameraPath v)
  ∨ is_Some (rearCameraPath v) ∨ is_Some (boardCameraPath v) ->
  triple (λ _ : World Local, True) (handleApply b v)
    (λ _ w, loading (local w) = false) (λ _, False).
Proof.
  intros Hfiles. unfold_apply. cbv zeta. rewrite (files_chosen v Hfiles).
  do 9 seq (λ _ : World Local, True) kept.
  eapply (triple_try_catch _ _ _ (λ _, True)).
  - do 12 seq (λ _ : World Local, True) kept.
    eapply (triple_bind _ (λ _ w, loading (local w) = false)).
    + apply triple_set_local. kept.
    + intros ?. apply triple_perform. kept.
  - do 3 seq (λ _ : World Local, True) kept.
    apply triple_set_local. kept.
Qed.

Lemma handleApply_started b v session :
  is_Some (audioFile v) ∨ is_Some (frontCameraPath v)
  ∨ is_Some (rearCameraPath v) ∨ is_Some (boardCameraPath v) ->
  createSession_response b = Some session ->
  audioFile v = None ∨ uploadAudio_response b ≠ None ->
  triple (λ _ : World Local, True) (handleApply b v)
    (λ _ w, error (local w) = None ∧ last (trace w) = Some OnClose)
    (λ _, False).
Proof.
  intros Hfiles Hsession Haudio. unfold_apply. cbv zeta.
  rewrite (files_chosen v Hfiles), Hsession.
  do 8 seq (λ _ : World Local, True) kept.
  eapply (triple_bind _ (λ _ w, error (local w) = None)).
  { apply triple_set_local. kept. }
  intros ?.
  eapply (triple_try_catch _ _ _ (λ _, False)); [|apply triple_false].
  do 4 seq (λ w : World Local, error (local w) = None) kept.
  eapply (triple_bind _ (λ _ w, error (local w) = None)).
  { destruct Haudio as [-> | Hup]; [walk kept|].
    destruct (uploadAudio_response b) as [path|]; [|congruence].
    walk kept. }
  intros ?. cbv beta.
  do 8 seq (λ w : World Local, error (local w) = None) kept.
  apply triple_perform. intros w Hw. cbn [local trace].
  split; [exact Hw|apply last_snoc].
Qed.

Lemma handleApply_failed b v :
  is_Some (audioFile v) ∨ is_Some (frontCameraPath v)
  ∨ is_Some (rearCameraPath v) ∨ is_Some (boardCameraPath v) ->
  createSession_response b = None
  ∨ (is_Some (audioFile v) ∧ uploadAudio_response b = None) ->
  triple (λ _ : World Local, True) (handleApply b v)
    (λ _ w, error (local w) = Some "Failed during processing. Please try again."
            ∧ notification (local w) = ""
            ∧ audioStatus (store w) = AudioStatus.error
            ∧ aiProcessing (store w) = false
            ∧ last (trace w) ≠ Some OnClose)
    (λ _, False).
Proof.
  intros Hfiles Hfail. unfold_apply. cbv zeta. rewrite (files_chosen v Hfiles).
  do 9 seq (λ _ : World Local, True) kept.
  eapply (triple_try_catch _ _ _ (λ w, last (trace w) ≠ Some OnClose)).
  - seq (λ _ : World Local, True) kept.
    destruct (createSession_response b) as [session|] eqn:Hsession.
    + destruct Hfail as [|[[file Hfile] Hup]]; [discriminate|].
      rewrite Hfile, Hup.
      do 3 seq (λ _ : World Local, True) kept.
      eapply (triple_bind _ (λ _ _, False)); [|intros ?; apply triple_false].
      seq (λ _ : World Local, True) kept.
      eapply (triple_bind _ (λ _ _, False)); [|intros ?; apply triple_false].
      apply triple_await; [discriminate|].
      intros w _ _. cbn [trace]. rewrite last_snoc. discriminate.
    + eapply (triple_bind _ (λ _ _, False)); [|intros ?; apply triple_false].
      apply triple_await; [discriminate|].
      intros w _ _. cbn [trace]. rewrite last_snoc. discriminate.
  - eapply (triple_bind _
              (λ _ w, error (local w)
                      = Some "Failed during processing. Please try again."
                      ∧ last (trace w) ≠ Some OnClose)).
    { apply triple_set_local. kept. }
    intros ?.
    eapply (triple_bind _
              (λ _ w, error (local w)
                      = Some "Failed during processing. Please try again."
                      ∧ notification (local w) = ""
                      ∧ last (trace w) ≠ Some OnClose)).
    { apply triple_set_local. kept. }
    intros ?.
    eapply (triple_bind _
              (λ _ w, error (local w)
                      = Some "Failed during processing. Please try again."
                      ∧ notification (local w) = ""
                      ∧ audioStatus (store w) = AudioStatus.error
                      ∧ aiProcessing (store w) = false
                      ∧ last (trace w) ≠ Some OnClose)).
    { apply triple_dispatch. kept. }
    intros ?. apply triple_set_local. kept.
Qed.

(** X21. With at least one file chosen, a click on the apply button
    never throws and always ends with the loading flag cleared. The
    dialog is closed - with no error shown - exactly when the session
    is created and the audio file, if there is one, is uploaded; a
    failure to start the monitoring or the video analytics does not
    prevent it. Otherwise the dialog stays open with the failure
    message, an empty notification and the audio status error. *)
Theorem apply_closes_or_reports (b : Backend) (v : Local) (w : World Local) :
  is_Some (audioFile v) ∨ is_Some (frontCameraPath v)
  ∨ is_Some (rearCameraPath v) ∨ is_Some (boardCameraPath v) ->
  let out := handleApply b v w in
  out.1 = Returned ()
  ∧ loading (local out.2) = false
  ∧ (is_Some (createSession_response b) ->
     audioFile v = None ∨ uploadAudio_response b ≠ None ->
     error (local out.2) = None ∧ last (trace out.2) = Some OnClose)
  ∧ (createSession_response b = None
     ∨ (is_Some (audioFile v) ∧ uploadAudio_response b = None) ->
     error (local out.2) = Some "Failed during processing. Please try again."
     ∧ notification (local out.2) = ""
     ∧ audioStatus (store out.2) = AudioStatus.error
     ∧ aiProcessing (store out.2) = false
     ∧ last (trace out.2) ≠ Some OnClose).
Proof.
  intros Hfiles out. subst out.
  destruct (triple_returns _ _ _ w (handleApply_loading b v Hfiles) I)
    as ([] & w1 & E1 & Hl).
  rewrite E1. cbn [fst snd].
  split; [reflexivity|]. split; [exact Hl|]. split.
  - intros [session Hsession] Haudio.
    destruct (triple_returns _ _ _ w
                (handleApply_started b v session Hfiles Hsession Haudio) I)
      as ([] & w2 & E2 & H2).
    rewrite E1 in E2. injection E2 as <-. exact H2.
  - intros Hfail.
    destruct (triple_returns _ _ _ w (handleApply_failed b v Hfiles Hfail) I)
      as ([] & w2 & E2 & H2).
    rewrite E1 in E2. injection E2 as <-. exact H2.
Qed.

Lemma apply_closes_or_reports_witness :
  (handleApply ok_backend (modal_cells (Some lecture_wav) None)
     (modal_world (Some lecture_wav) None)).1 = Returned ()
  ∧ loading (local (handleApply ok_backend (modal_cells (Some lecture_wav) None)
                      (modal_world (Some lecture_wav) None)).2) = false
  ∧ error (local (handleApply ok_backend (modal_cells (Some lecture_wav) None)
                    (modal_world (Some lecture_wav) None)).2) = None
  ∧ last (trace (handleApply ok_backend (modal_cells (Some lecture_wav) None)
                   (modal_world (Some lecture_wav) None)).2) = Some OnClose.
Proof.
  destruct (apply_closes_or_reports ok_backend (modal_cells (Some lecture_wav) None)
              (modal_world (Some lecture_wav) None)
              (or_introl (ex_intro _ lecture_wav eq_refl)))
    as (Hreturns & Hloading & Hclosed & _).
  split; [exact Hreturns|]. split; [exact Hloading|].
  apply Hclosed; [eexists; reflexivity|right; discriminate].
Defined.

(** **** The paths handed to the video analytics *)

Lemma ascii_not_first c c2 c3 :
  (nat_of_ascii c < 128)%nat -> is_space2 c c2 = false ∧ is_space3 c c2 c3 = false.
Proof.
  unfold is_space2, is_space3, byte_is. intros Hlt.
  assert (E : ∀ n, (128 <= n)%nat -> Nat.eqb (nat_of_ascii c) n = false)
    by (intros n Hn; apply Nat.eqb_neq; lia).
  rewrite !E by lia. split; reflexivity.
Qed.

Lemma ascii_not_second c1 c c3 :
  (nat_of_ascii c < 128)%nat -> is_space2 c1 c = false ∧ is_space3 c1 c c3 = false.
Proof.
  unfold is_space2, is_space3, byte_is. intros Hlt.
  assert (E : ∀ n, (128 <= n)%nat -> Nat.eqb (nat_of_ascii c) n = false)
    by (intros n Hn; apply Nat.eqb_neq; lia).
  rewrite !E by lia. rewrite !andb_false_r. split; reflexivity.
Qed.

Lemma ascii_not_third c1 c2 c :
  (nat_of_ascii c < 128)%nat -> is_space3 c1 c2 c = false.
Proof.
  unfold is_space3, byte_is. intros Hlt.
  assert (E : ∀ n, (128 <= n)%nat -> Nat.eqb (nat_of_ascii c) n = false)
    by (intros n Hn; apply Nat.eqb_neq; lia).
  assert (E' : Nat.leb 128 (nat_of_ascii c) = false) by (apply Nat.leb_gt; lia).
  rewrite !E by lia. rewrite E'. cbn. rewrite !andb_false_r. reflexivity.
Qed.

(** An ASCII character that is not white space is no part of any white
    space, so [trim] stops at it from either side. *)
Lemma trim_start_keeps n : ∀ a c b,
  (String.length a <= n)%nat ->
  (nat_of_ascii c < 128)%nat -> is_space c = false ->
  ∃ a', trim_start (a +:+ String c b) = a' +:+ String c b.
Proof.
  induction n as [|n IH]; intros a c b Hlen Hc Hs.
  - destruct a; [|cbn in Hlen; lia].
    exists "". change ("" +:+ String c b) with (String c b).
    cbn [trim_start]. rewrite Hs.
    destruct b as [|c2 b]; [reflexivity|].
    destruct (ascii_not_first c c2 "000" Hc) as (-> & _).
    destruct b as [|c3 b]; [reflexivity|].
    destruct (ascii_not_first c c2 c3 Hc) as (_ & ->). reflexivity.
  - destruct a as [|x a]; [apply (IH ""); [cbn; lia|exact Hc|exact Hs]|].
    cbn [String.length] in Hlen.
    change (String x a +:+ String c b) with (String x (a +:+ String c b)).
    cbn [trim_start].
    destruct (is_space x); [apply IH; [lia|exact Hc|exact Hs]|].
    destruct a as [|y a].
    { change ("" +:+ String c b) with (String c b). cbv beta iota.
      destruct (ascii_not_second x c "000" Hc) as (-> & _).
      destruct b as [|c3 b]; [exists (String x ""); reflexivity|].
      destruct (ascii_not_second x c c3 Hc) as (_ & ->).
      exists (String x ""). reflexivity. }
    cbn [String.length] in Hlen.
    change (String y a +:+ String c b) with (String y (a +:+ String c b)).
    cbv beta iota.
    destruct (is_space2 x y); [apply IH; [lia|exact Hc|exact Hs]|].
    destruct a as [|z a].
    { change ("" +:+ String c b) with (String c b). cbv beta iota.
      rewrite (ascii_not_third x y c Hc). exists (String x (String y "")). reflexivity. }
    cbn [String.length] in Hlen.
    change (String z a +:+ String c b) with (String z (a +:+ String c b)).
    cbv beta iota.
    destruct (is_space3 x y z); [apply IH; [lia|exact Hc|exact Hs]|].
    exists (String x (String y (String z a))). reflexivity.
Qed.

Lemma trim_end_keeps a c b :
  (nat_of_ascii c < 128)%nat -> is_space c = false ->
  trim_end (a +:+ String c b) ≠ "".
Proof.
  intros Hc Hs.
  destruct (trim_start_keeps (String.length a) a c b (le_n _) Hc Hs) as [a' Ha'].
  destruct (a +:+ String c b) as [|x r] eqn:E.
  - destruct a; discriminate.
  - cbn [trim_end]. rewrite Ha'.
    destruct (String.eqb_spec (a' +:+ String c b) "") as [E'|_]; [|discriminate].
    destruct a'; discriminate.
Qed.

Lemma trim_not_blank a c b :
  (nat_of_ascii c < 128)%nat -> is_space c = false ->
  trim (a +:+ String c b) ≠ "".
Proof.
  intros Hc Hs. unfold trim.
  destruct (trim_start_keeps (String.length a) a c b (le_n _) Hc Hs) as [a' ->].
  apply trim_end_keeps; assumption.
Qed.

Lemma substring_last s c :
  String.substring (String.length s - 1) 1 s = String c "" -> ∃ a, s = a +:+ String c "".
Proof.
  induction s as [|x s IH]; [discriminate|].
  cbn [String.length]. rewrite Nat.sub_succ, Nat.sub_0_r.
  destruct s as [|y s].
  - cbn. intros [= ->]. exists "". reflexivity.
  - cbn [String.length String.substring].
    intros H. destruct IH as [a Ha].
    + cbn [String.length]. rewrite Nat.sub_succ, Nat.sub_0_r. exact H.
    + exists (String x a). rewrite Ha. reflexivity.
Qed.

Lemma app_assoc_string a b c : (a +:+ b) +:+ c = a +:+ b +:+ c.
Proof.
  induction a as [|x a IH]; [reflexivity|].
  change ((String x a +:+ b) +:+ c) with (String x ((a +:+ b) +:+ c)).
  rewrite IH. reflexivity.
Qed.

(** Every path [constructFilePath] builds holds a backslash, so it is
    neither empty nor blank. *)
Lemma constructFilePath_valid v fileName :
  truthy (constructFilePath v fileName)
  && negb (String.eqb (trim (constructFilePath v fileName)) "") = true.
Proof.
  assert (H : ∃ a, constructFilePath v fileName = a +:+ String "\" fileName).
  { unfold constructFilePath. cbv zeta.
    destruct (endsWith (baseDirectory v) "\") eqn:E.
    - unfold endsWith in E. apply andb_true_iff in E as [_ E].
      apply String.eqb_eq in E. cbn [String.length] in E.
      destruct (substring_last _ _ E) as [a ->].
      exists a. rewrite app_assoc_string. reflexivity.
    - exists (baseDirectory v). rewrite app_assoc_string. reflexivity. }
  destruct H as [a ->]. apply andb_true_iff. split.
  - unfold truthy. apply negb_true_iff, String.eqb_neq.
    destruct a; discriminate.
  - apply negb_true_iff, String.eqb_neq, trim_not_blank;
      [apply Nat.ltb_lt; reflexivity|reflexivity].
Qed.

Lemma valid_pipelines (v : Local) (l : list (string * string)) :
  l = [ ("front", match frontCameraPath v with
                  | Some f => constructFilePath v (name f)
                  | None => ""
                  end);
        ("back", match rearCameraPath v with
                 | Some f => constructFilePath v (name f)
                 | None => ""
                 end);
        ("content", match boardCameraPath v with
                    | Some f => constructFilePath v (name f)
                    | None => ""
                    end) ] ->
  (0 <? length (filter (λ pipeline : string * string,
                          truthy pipeline.2 && negb (String.eqb (trim pipeline.2) ""))
                       l))%nat
  = bool_decide (is_Some (frontCameraPath v))
    || bool_decide (is_Some (rearCameraPath v))
    || bool_decide (is_Some (boardCameraPath v)).
Proof.
  intros ->.
  assert (Hyes : ∀ label f rest,
            filter (λ pipeline : string * string,
                      truthy pipeline.2 && negb (String.eqb (trim pipeline.2) ""))
                   ((label, constructFilePath v (name f)) :: rest)
            = (label, constructFilePath v (name f))
              :: filter (λ pipeline : string * string,
                           truthy pipeline.2 && negb (String.eqb (trim pipeline.2) ""))
                        rest).
  { intros. apply filter_cons_True. cbn [snd].
    rewrite constructFilePath_valid. exact I. }
  assert (Hno : ∀ label rest,
            filter (λ pipeline : string * string,
                      truthy pipeline.2 && negb (String.eqb (trim pipeline.2) ""))
                   ((label, "") :: rest)
            = filter (λ pipeline : string * string,
                        truthy pipeline.2 && negb (String.eqb (trim pipeline.2) ""))
                     rest).
  { intros. apply filter_cons_False. cbn. auto. }
  destruct (frontCameraPath v), (rearCameraPath v), (boardCameraPath v);
    repeat first [rewrite Hyes | rewrite Hno]; reflexivity.
Qed.

Lemma success_notification hasAudio hasVideo videoStarted :
  hasAudio || hasVideo = true ->
  getSuccessNotification hasAudio hasVideo videoStarted
  ≠ "No valid processing started.".
Proof. destruct hasAudio, hasVideo, videoStarted; cbn; discriminate. Qed.

Lemma handleApply_pipelines b v session :
  is_Some (audioFile v) ∨ is_Some (frontCameraPath v)
  ∨ is_Some (rearCameraPath v) ∨ is_Some (boardCameraPath v) ->
  createSession_response b = Some session ->
  audioFile v = None ∨ uploadAudio_response b ≠ None ->
  triple (λ _ : World Local, True) (handleApply b v)
    (λ _ w, hasUploadedVideoFiles (store w)
            = bool_decide (is_Some (frontCameraPath v))
              || bool_decide (is_Some (rearCameraPath v))
              || bool_decide (is_Some (boardCameraPath v))
            ∧ notification (local w) ≠ "No valid processing started.")
    (λ _, False).
Proof.
  intros Hfiles Hsession Haudio. unfold_apply. cbv zeta.
  pose proof (files_chosen v Hfiles) as Hchosen.
  rewrite Hchosen, Hsession.
  rewrite !(valid_pipelines v _ eq_refl).
  set (hasVideo := bool_decide (is_Some (frontCameraPath v))
                   || bool_decide (is_Some (rearCameraPath v))
                   || bool_decide (is_Some (boardCameraPath v))) in *.
  assert (Hany : bool_decide (is_Some (audioFile v)) || hasVideo = true).
  { destruct (bool_decide (is_Some (audioFile v))), hasVideo;
      (reflexivity || discriminate). }
  clearbody hasVideo.
  do 9 seq (λ _ : World Local, True) kept.
  eapply (triple_try_catch _ _ _ (λ _, False)); [|apply triple_false].
  do 4 seq (λ _ : World Local, True) kept.
  eapply (triple_bind _ (λ _ _, True)).
  { destruct Haudio as [-> | Hup]; [walk kept|].
    destruct (uploadAudio_response b) as [path|]; [|congruence].
    walk kept. }
  intros ?. cbv beta.
  eapply (triple_bind _ (λ _ w, hasUploadedVideoFiles (store w) = hasVideo)).
  { apply triple_dispatch. intros w _. cbn [store].
    unfold setHasUploadedVideoFiles. cbn. repeat case_match; reflexivity. }
  intros ?. cbv beta.
  do 4 seq (λ w : World Local, hasUploadedVideoFiles (store w) = hasVideo) kept.
  eapply (triple_bind _
            (λ _ w, hasUploadedVideoFiles (store w) = hasVideo
                    ∧ notification (local w) ≠ "No valid processing started.")).
  { apply triple_set_local. intros w Hw. cbn [store local].
    split; [exact Hw|]. apply success_notification, Hany. }
  intros ?. walk kept.
Qed.

(** X22. When the apply button starts the processing, every video file
    that was chosen is handed on: the path built for it holds a
    backslash and so passes the blank test, the store records uploaded
    video files exactly if one was chosen, and the closing notification
    is never the one for nothing having been started. *)
Theorem apply_hands_on_every_video
    (b : Backend) (v : Local) (w : World Local) (session : string) :
  is_Some (audioFile v) ∨ is_Some (frontCameraPath v)
  ∨ is_Some (rearCameraPath v) ∨ is_Some (boardCameraPath v) ->
  createSession_response b = Some session ->
  audioFile v = None ∨ uploadAudio_response b ≠ None ->
  (∀ fileName,
     truthy (constructFilePath v fileName)
     && negb (String.eqb (trim (constructFilePath v fileName)) "") = true)
  ∧ hasUploadedVideoFiles (store (handleApply b v w).2)
    = bool_decide (is_Some (frontCameraPath v))
      || bool_decide (is_Some (rearCameraPath v))
      || bool_decide (is_Some (boardCameraPath v))
  ∧ notification (local (handleApply b v w).2) ≠ "No valid processing started.".
Proof.
  intros Hfiles Hsession Haudio.
  split; [apply constructFilePath_valid|].
  destruct (triple_returns _ _ _ w
              (handleApply_pipelines b v session Hfiles Hsession Haudio) I)
    as ([] & w' & -> & H). exact H.
Qed.

Lemma apply_hands_on_every_video_witness :
  (∀ fileName,
     truthy (constructFilePath (modal_cells None (Some lecture_wav)) fileName)
     && negb (String.eqb
                (trim (constructFilePath (modal_cells None (Some lecture_wav)) fileName))
                "") = true)
  ∧ hasUploadedVideoFiles
      (store (handleApply ok_backend (modal_cells None (Some lecture_wav))
                (modal_world None (Some lecture_wav))).2)
    = bool_decide (is_Some (frontCameraPath (modal_cells None (Some lecture_wav))))
      || bool_decide (is_Some (rearCameraPath (modal_cells None (Some lecture_wav))))
      || bool_decide (is_Some (boardCameraPath (modal_cells None (Some lecture_wav))))
  ∧ notification
      (local (handleApply ok_backend (modal_cells None (Some lecture_wav))
                (modal_world None (Some lecture_wav))).2)
    ≠ "No valid processing started.".
Proof.
  apply (apply_hands_on_every_video ok_backend (modal_cells None (Some lecture_wav))
           (modal_world None (Some lecture_wav)) "session-1").
  - right. left. eexists. reflexivity.
  - reflexivity.
  - left. reflexivity.
Defined.

End UploadProofs.
